(** * Repository-to-graph pipeline: extraction engine and graph loader

    A shallow embedding of [repo_to_neo4j.py]: the identity service
    ([sha1_hex], [stable_id]), the complexity metric, the syntax-tree
    extractor ([ComprehensiveExtractor], [extract_file]), the directory
    walker ([build_directory_tree], [find_python_files]), the orchestrator
    loop of [analyze_repository] and the batch loader
    ([batch_insert_nodes], [batch_insert_edges]). *)

From Stdlib Require Import ZArith String Ascii List Bool Lia DecimalString.
From stdpp Require Import base option list gmap strings sorting.
Import ListNotations.

Set Warnings "-register-all".

Open Scope string_scope.
Open Scope Z_scope.
Open Scope list_scope.

(** ** hashlib.sha1 *)

(** [hashlib.sha1(data).hexdigest()] on a byte string.  Words are 32-bit
    integers kept in [Z], with the wrap-around written out. *)
Module Sha1.

Definition mask32 (x : Z) : Z := Z.land x 4294967295.

Definition add32 (x y : Z) : Z := mask32 (x + y).

Definition rotl (n x : Z) : Z :=
  mask32 (Z.lor (Z.shiftl x n) (Z.shiftr x (32 - n))).

Definition not32 (x : Z) : Z := Z.lxor x 4294967295.

Definition bytes_of_string (s : string) : list Z :=
  map (fun c => Z.of_N (N_of_ascii c)) (list_ascii_of_string s).

(** Big-endian encoding of [x] on [n] bytes. *)
Fixpoint be_bytes (n : nat) (x : Z) : list Z :=
  match n with
  | O => []
  | S n' => be_bytes n' (Z.shiftr x 8) ++ [Z.land x 255]
  end.

Definition pad (msg : list Z) : list Z :=
  let l := Z.of_nat (length msg) in
  let zeros := Z.to_nat ((55 - l) mod 64) in
  msg ++ [128] ++ repeat 0 zeros ++ be_bytes 8 (8 * l).

Fixpoint words (bs : list Z) : list Z :=
  match bs with
  | a :: b :: c :: d :: rest =>
      Z.lor (Z.shiftl a 24) (Z.lor (Z.shiftl b 16) (Z.lor (Z.shiftl c 8) d))
      :: words rest
  | _ => []
  end.

Fixpoint blocks (fuel : nat) (ws : list Z) : list (list Z) :=
  match fuel, ws with
  | S fuel', _ :: _ => firstn 16 ws :: blocks fuel' (skipn 16 ws)
  | _, _ => []
  end.

(** Message schedule, most recent word first. *)
Fixpoint expand (n : nat) (rw : list Z) : list Z :=
  match n with
  | O => rw
  | S n' =>
      let w := Z.lxor (Z.lxor (nth 2 rw 0) (nth 7 rw 0))
                      (Z.lxor (nth 13 rw 0) (nth 15 rw 0)) in
      expand n' (rotl 1 w :: rw)
  end.

Definition schedule (block : list Z) : list Z := rev (expand 64 (rev block)).

Definition f (t b c d : Z) : Z :=
  if t <? 20 then Z.lor (Z.land b c) (Z.land (not32 b) d)
  else if t <? 40 then Z.lxor (Z.lxor b c) d
  else if t <? 60 then Z.lor (Z.lor (Z.land b c) (Z.land b d)) (Z.land c d)
  else Z.lxor (Z.lxor b c) d.

Definition k (t : Z) : Z :=
  if t <? 20 then 1518500249
  else if t <? 40 then 1859775393
  else if t <? 60 then 2400959708
  else 3395469782.

Record state := State { ha : Z; hb : Z; hc : Z; hd : Z; he : Z }.

Definition init : state := State 1732584193 4023233417 2562383102 271733878 3285377520.

Definition round (acc : Z * state) (w : Z) : Z * state :=
  let '(t, State a b c d e) := acc in
  let temp := add32 (add32 (add32 (add32 (rotl 5 a) (f t b c d)) e) (k t)) w in
  (t + 1, State temp a (rotl 30 b) c d).

Definition compress (h : state) (block : list Z) : state :=
  let '(_, State a b c d e) := fold_left round (schedule block) (0, h) in
  State (add32 (ha h) a) (add32 (hb h) b) (add32 (hc h) c)
        (add32 (hd h) d) (add32 (he h) e).

Definition hex_digit (x : Z) : ascii :=
  if x <? 10 then ascii_of_N (Z.to_N (48 + x)) else ascii_of_N (Z.to_N (87 + x)).

Fixpoint hex (n : nat) (x : Z) : string :=
  match n with
  | O => ""
  | S n' => hex n' (Z.shiftr x 4) +:+ String (hex_digit (Z.land x 15)) ""
  end.

Definition digest (msg : list Z) : state :=
  let ws := words (pad msg) in
  fold_left compress (blocks (length ws) ws) init.

Definition hexdigest (msg : list Z) : string :=
  let '(State a b c d e) := digest msg in
  hex 8 a +:+ hex 8 b +:+ hex 8 c +:+ hex 8 d +:+ hex 8 e.

End Sha1.

(** ** Utility functions *)

(** [sha1_hex] of a text that UTF-8 can encode: texts are kept as their
    UTF-8 bytes, so [s.encode("utf-8")] is the byte list of [s].  On a text
    with a lone surrogate [encode] raises; that outcome is [encode_utf8]'s,
    below, which [new_extractor] goes through for the path of a file and
    [write_jsonl] for the records it writes. *)
Definition sha1_hex (s : string) : string :=
  Sha1.hexdigest (Sha1.bytes_of_string s).

(** [sep.join(parts)] *)
Fixpoint join (sep : string) (parts : list string) : string :=
  match parts with
  | [] => ""
  | [p] => p
  | p :: rest => p +:+ sep +:+ join sep rest
  end.

(** [stable_id]: the variadic parts arrive as a list of strings ([str(p)] is
    applied by the callers of this model). *)
Definition stable_id (parts : list string) : string :=
  sha1_hex (join "::" parts).


(** ** Python string operations used by the pipeline *)

Definition startswith (s p : string) : bool := String.prefix p s.

Definition endswith (s p : string) : bool :=
  let n := String.length s in
  let k := String.length p in
  if (k <=? n)%nat then String.eqb (String.substring (n - k) k s) p else false.

(** A character of a text is a lead byte and the continuation bytes
    (10xxxxxx) that follow it. *)
Definition is_continuation (a : ascii) : bool :=
  let n := nat_of_ascii a in ((128 <=? n) && (n <? 192))%nat.

(** [len(s)]: the number of characters *)
Fixpoint str_len (s : string) : nat :=
  match s with
  | EmptyString => O
  | String a r => if is_continuation a then str_len r else S (str_len r)
  end.

(** [s[:n]]: the first [n] characters, each with all its bytes. *)
Fixpoint take_chars (n : nat) (s : string) : string :=
  match s with
  | EmptyString => EmptyString
  | String a r =>
      if is_continuation a then String a (take_chars n r)
      else match n with
           | O => EmptyString
           | S n' => String a (take_chars n' r)
           end
  end.

Definition str_take (n : nat) (s : string) : string :=
  match n with
  | O => EmptyString
  | _ => take_chars n s
  end.

(** A code point that UTF-8 cannot encode, a lone surrogate, is kept in the
    three-byte form of its neighbours: lead byte 0xED and a second byte of
    0xA0 or more.  [os.fsdecode] makes one of every byte of a file name that
    is not UTF-8, and an escape such as [\ud800] puts one into a string
    constant. *)
Fixpoint has_surrogate (s : string) : bool :=
  match s with
  | String a (String b _ as r) =>
      (Nat.eqb (nat_of_ascii a) 237 && (160 <=? nat_of_ascii b)%nat)
      || has_surrogate r
  | _ => false
  end.

(** [s[n:]] for a byte offset [n] *)

Fixpoint str_drop (n : nat) (s : string) : string :=
  match n, s with
  | O, _ => s
  | S n', String _ r => str_drop n' r
  | S _, EmptyString => EmptyString
  end.

(** [c in s] for a single character *)
Fixpoint has_char (c : ascii) (s : string) : bool :=
  match s with
  | EmptyString => false
  | String a r => if Ascii.eqb a c then true else has_char c r
  end.

(** [sub in s] *)
Fixpoint contains (sub s : string) : bool :=
  if String.prefix sub s then true
  else match s with
       | EmptyString => false
       | String _ r => contains sub r
       end.

(** [s.split(c)[0]] *)
Fixpoint split_head (c : ascii) (s : string) : string :=
  match s with
  | EmptyString => EmptyString
  | String a r => if Ascii.eqb a c then EmptyString else String a (split_head c r)
  end.

(** [s.replace(old, new)] for a non-empty [old]: leftmost occurrences, not
    overlapping. *)
Fixpoint replace_from (fuel : nat) (old new s : string) : string :=
  match fuel with
  | O => s
  | S fuel' =>
      match s with
      | EmptyString => EmptyString
      | String a r =>
          if String.prefix old s
          then new +:+ replace_from fuel' old new (str_drop (String.length old) s)
          else String a (replace_from fuel' old new r)
      end
  end.

Definition replace (old new s : string) : string :=
  replace_from (String.length s) old new s.

Definition is_upper_char (a : ascii) : bool :=
  let n := nat_of_ascii a in ((65 <=? n) && (n <=? 90))%nat.

Definition is_lower_char (a : ascii) : bool :=
  let n := nat_of_ascii a in ((97 <=? n) && (n <=? 122))%nat.

(** [s.isupper()] on a text of ASCII characters: at least one cased
    character and no lowercase one. *)
Definition isupper_ascii (s : string) : bool :=
  let cs := list_ascii_of_string s in
  existsb is_upper_char cs && negb (existsb is_lower_char cs).

(** The line boundaries of one byte other than CR: LF, VT, FF, FS, GS, RS. *)
Definition is_line_break (a : ascii) : bool :=
  let n := nat_of_ascii a in
  ((10 <=? n) && (n <=? 12) || (28 <=? n) && (n <=? 30))%nat.

(** [s.splitlines()]: the one-byte boundaries, CR and CR LF, and the
    boundaries NEL (bytes C2 85), LS (E2 80 A8) and PS (E2 80 A9). *)
Fixpoint splitlines_from (cur : string) (s : string) : list string :=
  match s with
  | EmptyString => if String.eqb cur "" then [] else [cur]
  | String a r =>
      if is_line_break a then cur :: splitlines_from "" r
      else if Ascii.eqb a "013" then
        match r with
        | String b r' =>
            if Ascii.eqb b "010" then cur :: splitlines_from "" r'
            else cur :: splitlines_from "" r
        | EmptyString => [cur]
        end
      else
        match r with
        | String b r' =>
            if Nat.eqb (nat_of_ascii a) 194 && Nat.eqb (nat_of_ascii b) 133
            then cur :: splitlines_from "" r'
            else
              match r' with
              | String c r'' =>
                  if Nat.eqb (nat_of_ascii a) 226 && Nat.eqb (nat_of_ascii b) 128
                     && (Nat.eqb (nat_of_ascii c) 168 || Nat.eqb (nat_of_ascii c) 169)
                  then cur :: splitlines_from "" r''
                  else splitlines_from (cur +:+ String a "") r
              | EmptyString => splitlines_from (cur +:+ String a "") r
              end
        | EmptyString => splitlines_from (cur +:+ String a "") r
        end
  end.

Definition splitlines (s : string) : list string := splitlines_from "" s.

(** [str(n)] for an integer *)
Definition str_int (n : Z) : string := NilZero.string_of_int (Z.to_int n).

Definition len {A} (l : list A) : Z := Z.of_nat (length l).

Definition nonempty (s : string) : bool := negb (String.eqb s "").

(** Truthiness of an optional string: [None] and the empty string are false. *)
Definition truthy (o : option string) : bool :=
  match o with
  | Some s => nonempty s
  | None => false
  end.

(** ** Syntax trees

    The node classes of Python's [ast] that the pipeline tells apart.  Every
    other expression class is [OtherExpr] and every other statement class is
    [OtherStmt], with their child nodes in field order.  Expression contexts
    and arithmetic or comparison operators, which no test of the pipeline
    distinguishes, are left out. *)

Inductive boolop := And | Or.

Inductive constant :=
| CNone
| CBool (b : bool)
| CInt (n : Z)
| CStr (s : string)
| COther (type_name text : string).

Inductive expr :=
| Name (lineno : Z) (id : string)
| Attribute (lineno : Z) (value : expr) (attr : string)
| Call (lineno : Z) (func : expr) (args : list expr) (keywords : list keyword)
| Constant (lineno : Z) (value : constant)
| BoolOp (lineno : Z) (op : boolop) (values : list expr)
| IfExp (lineno : Z) (test body orelse : expr)
| OtherExpr (lineno : Z) (children : list expr)
with keyword :=
| Keyword (arg : option string) (value : expr).

Record arg := Arg { arg_name : string; annotation : option expr }.

Record arguments := Arguments {
  posonlyargs : list arg;
  args : list arg;
  vararg : option arg;
  kwonlyargs : list arg;
  kw_defaults : list (option expr);
  kwarg : option arg;
  defaults : list expr
}.

Record alias := Alias { alias_name : string; asname : option string }.

Record withitem := WithItem { context_expr : expr; optional_vars : option expr }.

Inductive stmt :=
| FunctionDef (is_async : bool) (lineno end_lineno : Z) (name : string)
    (fargs : arguments) (body : list stmt) (decorator_list : list expr)
    (returns : option expr)
| ClassDef (lineno end_lineno : Z) (name : string) (bases : list expr)
    (keywords : list keyword) (body : list stmt) (decorator_list : list expr)
| Return (lineno : Z) (value : option expr)
| Assign (lineno : Z) (targets : list expr) (value : expr)
| Raise (lineno : Z) (exc cause : option expr)
| Import (lineno : Z) (names : list alias)
| ImportFrom (lineno : Z) (module : option string) (names : list alias) (level : Z)
| If (test : expr) (body orelse : list stmt)
| For (target iter : expr) (body orelse : list stmt)
| While (test : expr) (body orelse : list stmt)
| With (items : list withitem) (body : list stmt)
| Try (body : list stmt) (handlers : list excepthandler) (orelse finalbody : list stmt)
| Assert (test : expr) (msg : option expr)
| Expr (value : expr)
| OtherStmt (children : list child)
with excepthandler :=
| ExceptHandler (type : option expr) (name : option string) (body : list stmt)
with child :=
| ChildExpr (e : expr)
| ChildStmt (s : stmt).

(** Any node of a tree, as [ast.walk] and [ast.NodeVisitor] meet them. *)
Inductive ast_node :=
| NModule (body : list stmt)
| NStmt (s : stmt)
| NExpr (e : expr)
| NHandler (h : excepthandler)
| NBoolop (o : boolop)
| NArguments (a : arguments)
| NArg (a : arg)
| NKeyword (k : keyword)
| NAlias (a : alias)
| NWithitem (w : withitem).

Definition opt_expr (o : option expr) : list ast_node :=
  match o with
  | Some e => [NExpr e]
  | None => []
  end.

Definition child_node (c : child) : ast_node :=
  match c with
  | ChildExpr e => NExpr e
  | ChildStmt s => NStmt s
  end.

(** [ast.iter_child_nodes]: the direct children, fields in [_fields] order. *)
Definition iter_child_nodes (n : ast_node) : list ast_node :=
  match n with
  | NModule body => map NStmt body
  | NStmt s =>
      match s with
      | FunctionDef _ _ _ _ fargs body decorator_list returns =>
          NArguments fargs :: map NStmt body ++ map NExpr decorator_list
                           ++ opt_expr returns
      | ClassDef _ _ _ bases keywords body decorator_list =>
          map NExpr bases ++ map NKeyword keywords ++ map NStmt body
                          ++ map NExpr decorator_list
      | Return _ value => opt_expr value
      | Assign _ targets value => map NExpr targets ++ [NExpr value]
      | Raise _ exc cause => opt_expr exc ++ opt_expr cause
      | Import _ names => map NAlias names
      | ImportFrom _ _ names _ => map NAlias names
      | If test body orelse => NExpr test :: map NStmt body ++ map NStmt orelse
      | For target iter body orelse =>
          NExpr target :: NExpr iter :: map NStmt body ++ map NStmt orelse
      | While test body orelse => NExpr test :: map NStmt body ++ map NStmt orelse
      | With items body => map NWithitem items ++ map NStmt body
      | Try body handlers orelse finalbody =>
          map NStmt body ++ map NHandler handlers ++ map NStmt orelse
                         ++ map NStmt finalbody
      | Assert test msg => NExpr test :: opt_expr msg
      | Expr value => [NExpr value]
      | OtherStmt children => map child_node children
      end
  | NExpr e =>
      match e with
      | Name _ _ => []
      | Attribute _ value _ => [NExpr value]
      | Call _ func args keywords =>
          NExpr func :: map NExpr args ++ map NKeyword keywords
      | Constant _ _ => []
      | BoolOp _ op values => NBoolop op :: map NExpr values
      | IfExp _ test body orelse => [NExpr test; NExpr body; NExpr orelse]
      | OtherExpr _ children => map NExpr children
      end
  | NHandler (ExceptHandler type _ body) => opt_expr type ++ map NStmt body
  | NBoolop _ => []
  | NArguments a =>
      map NArg (posonlyargs a) ++ map NArg (args a)
        ++ from_option (fun x => [NArg x]) [] (vararg a)
        ++ map NArg (kwonlyargs a)
        ++ flat_map opt_expr (kw_defaults a)
        ++ from_option (fun x => [NArg x]) [] (kwarg a)
        ++ map NExpr (defaults a)
  | NArg a => opt_expr (annotation a)
  | NKeyword (Keyword _ value) => [NExpr value]
  | NAlias _ => []
  | NWithitem w => NExpr (context_expr w) :: opt_expr (optional_vars w)
  end.

(** [ast.walk]: the node and all its descendants, each once.  Python yields
    them breadth first and documents the order as unspecified; they are
    listed here depth first. *)
Fixpoint walk_expr (e : expr) : list ast_node :=
  NExpr e ::
  match e with
  | Name _ _ => []
  | Attribute _ value _ => walk_expr value
  | Call _ func args keywords =>
      walk_expr func ++ flat_map walk_expr args ++ flat_map walk_keyword keywords
  | Constant _ _ => []
  | BoolOp _ op values => NBoolop op :: flat_map walk_expr values
  | IfExp _ test body orelse => walk_expr test ++ walk_expr body ++ walk_expr orelse
  | OtherExpr _ children => flat_map walk_expr children
  end
with walk_keyword (k : keyword) : list ast_node :=
  NKeyword k ::
  match k with
  | Keyword _ value => walk_expr value
  end.

Definition walk_opt_expr (o : option expr) : list ast_node :=
  match o with
  | Some e => walk_expr e
  | None => []
  end.

Definition walk_arg (a : arg) : list ast_node :=
  NArg a :: walk_opt_expr (annotation a).

Definition walk_opt_arg (o : option arg) : list ast_node :=
  match o with
  | Some a => walk_arg a
  | None => []
  end.

Definition walk_arguments (a : arguments) : list ast_node :=
  NArguments a ::
    flat_map walk_arg (posonlyargs a) ++ flat_map walk_arg (args a)
    ++ walk_opt_arg (vararg a) ++ flat_map walk_arg (kwonlyargs a)
    ++ flat_map walk_opt_expr (kw_defaults a) ++ walk_opt_arg (kwarg a)
    ++ flat_map walk_expr (defaults a).

Definition walk_withitem (w : withitem) : list ast_node :=
  NWithitem w :: walk_expr (context_expr w) ++ walk_opt_expr (optional_vars w).

Fixpoint walk_stmt (s : stmt) : list ast_node :=
  NStmt s ::
  match s with
  | FunctionDef _ _ _ _ fargs body decorator_list returns =>
      walk_arguments fargs ++ flat_map walk_stmt body
        ++ flat_map walk_expr decorator_list ++ walk_opt_expr returns
  | ClassDef _ _ _ bases keywords body decorator_list =>
      flat_map walk_expr bases ++ flat_map walk_keyword keywords
        ++ flat_map walk_stmt body ++ flat_map walk_expr decorator_list
  | Return _ value => walk_opt_expr value
  | Assign _ targets value => flat_map walk_expr targets ++ walk_expr value
  | Raise _ exc cause => walk_opt_expr exc ++ walk_opt_expr cause
  | Import _ names => map NAlias names
  | ImportFrom _ _ names _ => map NAlias names
  | If test body orelse =>
      walk_expr test ++ flat_map walk_stmt body ++ flat_map walk_stmt orelse
  | For target iter body orelse =>
      walk_expr target ++ walk_expr iter ++ flat_map walk_stmt body
        ++ flat_map walk_stmt orelse
  | While test body orelse =>
      walk_expr test ++ flat_map walk_stmt body ++ flat_map walk_stmt orelse
  | With items body => flat_map walk_withitem items ++ flat_map walk_stmt body
  | Try body handlers orelse finalbody =>
      flat_map walk_stmt body ++ flat_map walk_handler handlers
        ++ flat_map walk_stmt orelse ++ flat_map walk_stmt finalbody
  | Assert test msg => walk_expr test ++ walk_opt_expr msg
  | Expr value => walk_expr value
  | OtherStmt children => flat_map walk_child children
  end
with walk_handler (h : excepthandler) : list ast_node :=
  NHandler h ::
  match h with
  | ExceptHandler type _ body => walk_opt_expr type ++ flat_map walk_stmt body
  end
with walk_child (c : child) : list ast_node :=
  match c with
  | ChildExpr e => walk_expr e
  | ChildStmt s => walk_stmt s
  end.

Definition walk (n : ast_node) : list ast_node :=
  match n with
  | NModule body => n :: flat_map walk_stmt body
  | NStmt s => walk_stmt s
  | NExpr e => walk_expr e
  | NHandler h => walk_handler h
  | NBoolop _ => [n]
  | NArguments a => walk_arguments a
  | NArg a => walk_arg a
  | NKeyword k => walk_keyword k
  | NAlias _ => [n]
  | NWithitem w => walk_withitem w
  end.

(** ** Complexity *)

(** [isinstance(child, (ast.If, ast.For, ast.While, ast.And, ast.Or,
    ast.ExceptHandler, ast.With, ast.Assert))] *)
Definition is_decision_node (child : ast_node) : bool :=
  match child with
  | NStmt (If _ _ _) | NStmt (For _ _ _ _) | NStmt (While _ _ _) => true
  | NBoolop And | NBoolop Or => true
  | NHandler _ => true
  | NStmt (With _ _) | NStmt (Assert _ _) => true
  | _ => false
  end.

Definition complexity_step (complexity : Z) (child : ast_node) : Z :=
  if is_decision_node child then complexity + 1
  else match child with
       | NExpr (BoolOp _ _ values) => complexity + (len values - 1)
       | _ => complexity
       end.

Definition calculate_complexity (node : ast_node) : Z :=
  fold_left complexity_step (walk node) 1.

(** ** Records, paths and the library interface *)

(** JSON-like values held by node and edge records. *)
Inductive value :=
| VNone
| VBool (b : bool)
| VInt (n : Z)
| VStr (s : string)
| VList (items : list value)
| VDict (items : list (string * value)).

(** A node or edge record: a Python dict with string keys, in insertion
    order (the order [json.dump] writes). *)
Abbreviation record := (list (string * value)).

Fixpoint dict_get {K V} `{EqDecision K} (k : K) (d : list (K * V)) : option V :=
  match d with
  | [] => None
  | (k', v) :: r => if decide (k = k') then Some v else dict_get k r
  end.

(** [d[k] = v]: overwrite in place, or append a new key. *)
Fixpoint dict_set {K V} `{EqDecision K} (k : K) (v : V) (d : list (K * V))
  : list (K * V) :=
  match d with
  | [] => [(k, v)]
  | (k', v') :: r =>
      if decide (k = k') then (k, v) :: r else (k', v') :: dict_set k v r
  end.

(** [k in d] *)
Definition has_key (k : string) (d : record) : bool :=
  match dict_get k d with
  | Some _ => true
  | None => false
  end.

Definition vopt (o : option string) : value :=
  match o with
  | Some s => VStr s
  | None => VNone
  end.

(** An absolute POSIX path, as its components below the root. *)
Abbreviation Path := (list string).

Definition path_str (p : Path) : string := "/" +:+ join "/" p.

Definition path_name (p : Path) : string := List.last p "".

Fixpoint rfind_from (c : ascii) (i : nat) (s : string) (acc : option nat)
  : option nat :=
  match s with
  | EmptyString => acc
  | String a r => rfind_from c (S i) r (if Ascii.eqb a c then Some i else acc)
  end.

(** [PurePath.suffix] of a file name *)
Definition path_suffix (name : string) : string :=
  match rfind_from "." 0 name None with
  | Some i =>
      if ((0 <? i) && (i <? String.length name - 1))%nat
      then str_drop i name else ""
  | None => ""
  end.

Fixpoint is_prefix_of (root p : Path) : bool :=
  match root, p with
  | [], _ => true
  | r :: root', c :: p' => String.eqb r c && is_prefix_of root' p'
  | _ :: _, [] => false
  end.

Inductive Exception :=
| OSError
| UnicodeDecodeError
| SyntaxError
| ValueError
| KeyError
| TypeError
| RecursionError
| UnicodeEncodeError.

Inductive result (A : Type) :=
| Returned (a : A)
| Raised (e : Exception).
Arguments Returned {A} a.
Arguments Raised {A} e.

(** [s.encode("utf-8")]: raises on a text with a lone surrogate; otherwise
    the bytes are those the text is kept as. *)
Definition encode_utf8 (s : string) : result string :=
  if has_surrogate s then Raised UnicodeEncodeError else Returned s.

(** [p.relative_to(root)]: raises [ValueError] unless [p] lies under [root].
    The relative path is kept as its components. *)
Definition relative_to (p root : Path) : result (list string) :=
  if is_prefix_of root p then Returned (skipn (length root) p)
  else Raised ValueError.

Definition relpath_str (r : list string) : string :=
  match r with
  | [] => "."
  | _ => join "/" r
  end.

(** Library functions the pipeline calls and whose results it only stores. *)
Class PyLib := {
  (** [ast.unparse]; [None] when it raises or the interpreter has none *)
  unparse : expr -> option string;
  (** [inspect.cleandoc], applied by [ast.get_docstring] *)
  cleandoc : string -> string;
  (** [json.dumps] *)
  json_dumps : value -> string;
  (** [str.isupper], which follows the Unicode character database *)
  isupper : string -> bool
}.

(** ** ComprehensiveExtractor *)

Record Extractor := mkExtractor {
  repo_root : Path;
  file_path : Path;
  src : string;
  nodes : list record;
  edges : list record;
  current_scope_stack : list string;
  current_function : option string;
  current_class : option string;
  imports_map : gmap string string;
  defined_names : gmap string string;
  scope_vars : gmap string (gset string);
  stats : list (string * Z);
  file_id : string
}.

Definition set_nodes (f : list record -> list record) (self : Extractor) :=
  mkExtractor (repo_root self) (file_path self) (src self) (f (nodes self))
    (edges self) (current_scope_stack self) (current_function self)
    (current_class self) (imports_map self) (defined_names self)
    (scope_vars self) (stats self) (file_id self).

Definition set_edges (f : list record -> list record) (self : Extractor) :=
  mkExtractor (repo_root self) (file_path self) (src self) (nodes self)
    (f (edges self)) (current_scope_stack self) (current_function self)
    (current_class self) (imports_map self) (defined_names self)
    (scope_vars self) (stats self) (file_id self).

Definition set_scope_stack (f : list string -> list string) (self : Extractor) :=
  mkExtractor (repo_root self) (file_path self) (src self) (nodes self)
    (edges self) (f (current_scope_stack self)) (current_function self)
    (current_class self) (imports_map self) (defined_names self)
    (scope_vars self) (stats self) (file_id self).

Definition set_current_function (v : option string) (self : Extractor) :=
  mkExtractor (repo_root self) (file_path self) (src self) (nodes self)
    (edges self) (current_scope_stack self) v
    (current_class self) (imports_map self) (defined_names self)
    (scope_vars self) (stats self) (file_id self).

Definition set_current_class (v : option string) (self : Extractor) :=
  mkExtractor (repo_root self) (file_path self) (src self) (nodes self)
    (edges self) (current_scope_stack self) (current_function self)
    v (imports_map self) (defined_names self)
    (scope_vars self) (stats self) (file_id self).

Definition set_imports_map (f : gmap string string -> gmap string string)
  (self : Extractor) :=
  mkExtractor (repo_root self) (file_path self) (src self) (nodes self)
    (edges self) (current_scope_stack self) (current_function self)
    (current_class self) (f (imports_map self)) (defined_names self)
    (scope_vars self) (stats self) (file_id self).

Definition set_defined_names (f : gmap string string -> gmap string string)
  (self : Extractor) :=
  mkExtractor (repo_root self) (file_path self) (src self) (nodes self)
    (edges self) (current_scope_stack self) (current_function self)
    (current_class self) (imports_map self) (f (defined_names self))
    (scope_vars self) (stats self) (file_id self).

Definition set_scope_vars
  (f : gmap string (gset string) -> gmap string (gset string))
  (self : Extractor) :=
  mkExtractor (repo_root self) (file_path self) (src self) (nodes self)
    (edges self) (current_scope_stack self) (current_function self)
    (current_class self) (imports_map self) (defined_names self)
    (f (scope_vars self)) (stats self) (file_id self).

Definition set_stats (f : list (string * Z) -> list (string * Z))
  (self : Extractor) :=
  mkExtractor (repo_root self) (file_path self) (src self) (nodes self)
    (edges self) (current_scope_stack self) (current_function self)
    (current_class self) (imports_map self) (defined_names self)
    (scope_vars self) (f (stats self)) (file_id self).

(** [self.nodes.append(n)], [self.edges.append(e)], [self.stats[key] += 1] *)
Definition append_node (n : record) : Extractor -> Extractor :=
  set_nodes (fun l => l ++ [n]).

Definition append_edge (e : record) : Extractor -> Extractor :=
  set_edges (fun l => l ++ [e]).

Definition bump (key : string) : Extractor -> Extractor :=
  set_stats (fun st => dict_set key (default 0 (dict_get key st) + 1) st).

Definition push_scope (id : string) : Extractor -> Extractor :=
  set_scope_stack (fun l => l ++ [id]).

Definition pop_scope : Extractor -> Extractor :=
  set_scope_stack (fun l => removelast l).

Definition initial_stats : list (string * Z) :=
  [("functions", 0); ("classes", 0); ("methods", 0); ("imports", 0);
   ("calls", 0); ("variables", 0); ("decorators", 0)].

(** [__init__].  Its [stable_id(str(self.file_path))] is the one place where
    the extractor hashes a text that can hold a lone surrogate (a file name
    that is not UTF-8), and there [sha1_hex]'s [encode] raises. *)
Definition new_extractor (repo_root file_path : Path) (src : string)
  : result Extractor :=
  match encode_utf8 (path_str file_path) with
  | Raised e => Raised e
  | Returned _ =>
      Returned
        (mkExtractor repo_root file_path src [] [] [] None None ∅ ∅ ∅
           initial_stats (stable_id [path_str file_path]))
  end.

Definition _get_current_scope (self : Extractor) : string :=
  match last (current_scope_stack self) with
  | Some s => s
  | None => file_id self
  end.

Definition record_file_node (self : Extractor) : result Extractor :=
  match relative_to (file_path self) (repo_root self) with
  | Raised e => Raised e
  | Returned rel =>
      let relpath := relpath_str rel in
      let module_name := replace ".py" "" (replace "\" "." (replace "/" "." relpath)) in
      let lines := splitlines (src self) in
      let node : record :=
        [("id", VStr (file_id self));
         ("type", VStr "File");
         ("name", VStr (path_name (file_path self)));
         ("path", VStr (path_str (file_path self)));
         ("relpath", VStr relpath);
         ("module", VStr module_name);
         ("extension", VStr (path_suffix (path_name (file_path self))));
         ("sha1", VStr (sha1_hex (src self)));
         ("lines_of_code", VInt (len lines));
         ("size_bytes", VInt (Z.of_nat (String.length (src self))));
         ("language", VStr "python");
         ("encoding", VStr "utf-8")] in
      Returned (push_scope (file_id self) (append_node node self))
  end.

Definition stdlib_modules : list string :=
  ["abc"; "argparse"; "ast"; "asyncio"; "collections"; "copy";
   "dataclasses"; "datetime"; "enum"; "functools"; "hashlib";
   "itertools"; "json"; "logging"; "math"; "os"; "pathlib";
   "pickle"; "re"; "sys"; "time"; "typing"; "unittest"].

Definition _is_stdlib (module_name : string) : bool :=
  let base_module := split_head "." module_name in
  existsb (String.eqb base_module) stdlib_modules.

(** The reversed loop of [_get_full_name]: attribute names innermost last. *)
Fixpoint full_name_parts (node : expr) : list string :=
  match node with
  | Attribute _ value attr => attr :: full_name_parts value
  | Name _ id => [id]
  | _ => []
  end.

Definition _get_full_name (node : expr) : string :=
  join "." (rev (full_name_parts node)).

Definition expr_lineno (e : expr) : Z :=
  match e with
  | Name l _ | Attribute l _ _ | Call l _ _ _ | Constant l _
  | BoolOp l _ _ | IfExp l _ _ _ | OtherExpr l _ => l
  end.

(** [a or b] on an optional string and a string *)
Definition or_else (o : option string) (d : string) : string :=
  match o with
  | Some s => if nonempty s then s else d
  | None => d
  end.

Record DecInfo := mkDecInfo {
  dec_name : option string;
  dec_args : list (option string);
  dec_kwargs : list (option string * option string)
}.

Record Param := mkParam {
  p_name : string;
  p_type : option string;
  p_kind : string;
  p_default : option string;
  p_position : Z
}.

Record CodeMetrics := mkCodeMetrics {
  lines_of_code : Z;
  complexity : Z;
  num_parameters : Z;
  num_returns : Z;
  num_branches : Z;
  num_loops : Z;
  has_docstring : bool;
  num_decorators : Z;
  max_nesting_depth : Z
}.

(** [dataclasses.asdict] *)
Definition asdict (m : CodeMetrics) : value :=
  VDict [("lines_of_code", VInt (lines_of_code m));
         ("complexity", VInt (complexity m));
         ("num_parameters", VInt (num_parameters m));
         ("num_returns", VInt (num_returns m));
         ("num_branches", VInt (num_branches m));
         ("num_loops", VInt (num_loops m));
         ("has_docstring", VBool (has_docstring m));
         ("num_decorators", VInt (num_decorators m));
         ("max_nesting_depth", VInt (max_nesting_depth m))].

Definition count_nodes (p : ast_node -> bool) (n : ast_node) : Z :=
  len (List.filter p (walk n)).

Definition is_Return (n : ast_node) : bool :=
  match n with NStmt (Return _ _) => true | _ => false end.

Definition is_branch (n : ast_node) : bool :=
  match n with
  | NStmt (If _ _ _) | NExpr (IfExp _ _ _ _) => true
  | _ => false
  end.

Definition is_loop (n : ast_node) : bool :=
  match n with
  | NStmt (For _ _ _ _) | NStmt (While _ _ _) => true
  | _ => false
  end.

(** [isinstance(child, (ast.For, ast.While, ast.If, ast.With, ast.Try))] *)
Definition is_nesting (s : stmt) : bool :=
  match s with
  | For _ _ _ _ | While _ _ _ | If _ _ _ | With _ _ | Try _ _ _ _ => true
  | _ => false
  end.

(** The local [calc_depth] of [_compute_metrics].  Only statement children
    can pass its class test, so only they are scanned. *)
Fixpoint calc_depth (n : stmt) (depth : Z) : Z :=
  let scan :=
    fix scan (children : list stmt) (max_d : Z) : Z :=
      match children with
      | [] => max_d
      | c :: rest =>
          scan rest (if is_nesting c
                     then Z.max max_d (calc_depth c (depth + 1)) else max_d)
      end in
  match n with
  | FunctionDef _ _ _ _ _ body _ _ => scan body depth
  | ClassDef _ _ _ _ _ body _ => scan body depth
  | If _ body orelse => scan orelse (scan body depth)
  | For _ _ body orelse => scan orelse (scan body depth)
  | While _ body orelse => scan orelse (scan body depth)
  | With _ body => scan body depth
  | Try body _ orelse finalbody => scan finalbody (scan orelse (scan body depth))
  | OtherStmt children =>
      (fix scan_children (cs : list child) (max_d : Z) : Z :=
         match cs with
         | [] => max_d
         | ChildStmt c :: rest =>
             scan_children rest
               (if is_nesting c
                then Z.max max_d (calc_depth c (depth + 1)) else max_d)
         | ChildExpr _ :: rest => scan_children rest max_d
         end) children depth
  | _ => depth
  end.

Section Visitor.

Context `{PyLib}.

Definition _safe_unparse (node : expr) : option string :=
  str_take 200 <$> unparse node.

(** [ast.get_docstring] on a body *)
Definition get_docstring (body : list stmt) : option string :=
  match body with
  | Expr (Constant _ (CStr text)) :: _ => Some (cleandoc text)
  | _ => None
  end.

Definition visit_Import_names (lineno : Z) (names : list alias)
  (self : Extractor) : Extractor :=
  fold_left (fun self a =>
    let target := alias_name a in
    let import_alias := or_else (asname a) (alias_name a) in
    let self := set_imports_map (fun m => <[import_alias := target]> m) self in
    let import_id :=
      stable_id [file_id self; "import"; target; str_int lineno] in
    let self := append_node
      [("id", VStr import_id);
       ("type", VStr "Import");
       ("name", VStr target);
       ("alias", vopt (asname a));
       ("import_type", VStr "direct");
       ("lineno", VInt lineno);
       ("is_stdlib", VBool (_is_stdlib target));
       ("is_relative", VBool false);
       ("level", VInt 0)] self in
    let self := append_edge
      [("type", VStr "IMPORTS");
       ("from_id", VStr (file_id self));
       ("to_id", VStr import_id);
       ("lineno", VInt lineno)] self in
    bump "imports" self) names self.

Definition visit_ImportFrom_names (lineno : Z) (node_module : option string)
  (names : list alias) (node_level : Z) (self : Extractor) : Extractor :=
  let module := or_else node_module "" in
  let level := node_level in
  fold_left (fun self a =>
    let target :=
      if nonempty module then module +:+ "." +:+ alias_name a
      else alias_name a in
    let import_alias := or_else (asname a) (alias_name a) in
    let self := set_imports_map (fun m => <[import_alias := target]> m) self in
    let import_id :=
      stable_id [file_id self; "import"; target; str_int lineno] in
    let self := append_node
      [("id", VStr import_id);
       ("type", VStr "Import");
       ("name", VStr (alias_name a));
       ("module", VStr module);
       ("full_name", VStr target);
       ("alias", vopt (asname a));
       ("import_type", VStr "from");
       ("level", VInt level);
       ("is_relative", VBool (0 <? level));
       ("lineno", VInt lineno);
       ("is_stdlib",
        VBool (if nonempty module then _is_stdlib module else false))] self in
    let self := append_edge
      [("type", VStr "IMPORTS");
       ("from_id", VStr (file_id self));
       ("to_id", VStr import_id);
       ("lineno", VInt lineno)] self in
    bump "imports" self) names self.

Definition decorator_info (dec : expr) : DecInfo :=
  match dec with
  | Name _ id => mkDecInfo (Some id) [] []
  | Call _ func args keywords =>
      mkDecInfo
        match func with
        | Name _ id => Some id
        | Attribute _ _ _ => Some (_get_full_name func)
        | _ => None
        end
        (map _safe_unparse args)
        (fold_left
           (fun d kw =>
              match kw with
              | Keyword arg value => dict_set arg (_safe_unparse value) d
              end) keywords [])
  | _ => mkDecInfo (_safe_unparse dec) [] []
  end.

Definition dec_args_value (d : DecInfo) : value :=
  VList (map vopt (dec_args d)).

Definition dec_kwargs_value (d : DecInfo) : value :=
  VDict (map (fun kv => (from_option id "null" kv.1, vopt kv.2)) (dec_kwargs d)).

Definition _extract_decorators (decorator_list : list expr)
  (self : Extractor) : list DecInfo * Extractor :=
  fold_left (fun acc dec =>
    let '(decorators, self) := acc in
    let dec_info := decorator_info dec in
    let decorators := decorators ++ [dec_info] in
    match dec_name dec_info with
    | Some name =>
        if nonempty name then
          let dec_id :=
            stable_id [file_id self; "decorator"; name;
                       str_int (expr_lineno dec)] in
          let self := append_node
            [("id", VStr dec_id);
             ("type", VStr "Decorator");
             ("name", VStr name);
             ("lineno", VInt (expr_lineno dec));
             ("args", dec_args_value dec_info);
             ("kwargs", dec_kwargs_value dec_info)] self in
          (decorators, bump "decorators" self)
        else (decorators, self)
    | None => (decorators, self)
    end) decorator_list ([], self).

Definition arg_type (a : arg) : option string :=
  match annotation a with
  | Some e => _safe_unparse e
  | None => None
  end.

Definition _extract_parameters (node : arguments) : list Param :=
  let defaults_offset := len (args node) - len (defaults node) in
  let params :=
    imap (fun i a =>
      let i := Z.of_nat i in
      let default :=
        if defaults_offset <=? i
        then (defaults node !! Z.to_nat (i - defaults_offset)) ≫= _safe_unparse
        else None in
      mkParam (arg_name a) (arg_type a) "positional" default i)
      (args node) in
  let params :=
    match vararg node with
    | Some a => params ++ [mkParam (arg_name a) (arg_type a) "vararg" None (len params)]
    | None => params
    end in
  let kw_defaults_map : list (string * option string) :=
    fold_left (fun d kd =>
      match kd.2 with
      | Some default => dict_set (arg_name kd.1) (_safe_unparse default) d
      | None => d
      end) (zip (kwonlyargs node) (kw_defaults node)) [] in
  let params :=
    fold_left (fun params a =>
      params ++ [mkParam (arg_name a) (arg_type a) "keyword_only"
                   (mjoin (dict_get (arg_name a) kw_defaults_map))
                   (len params)]) (kwonlyargs node) params in
  match kwarg node with
  | Some a => params ++ [mkParam (arg_name a) (arg_type a) "kwarg" None (len params)]
  | None => params
  end.

Definition param_value (p : Param) : value :=
  VDict [("name", VStr (p_name p));
         ("type", vopt (p_type p));
         ("kind", VStr (p_kind p));
         ("default", vopt (p_default p));
         ("position", VInt (p_position p))].

Definition dec_value (d : DecInfo) : value :=
  VDict [("name", vopt (dec_name d));
         ("args", dec_args_value d);
         ("kwargs", dec_kwargs_value d)].

Definition _compute_metrics (node : stmt) : CodeMetrics :=
  match node with
  | FunctionDef _ lineno end_lineno _ fargs body decorator_list _ =>
      let start_line := lineno in
      let end_line := end_lineno in
      let loc := end_line - start_line + 1 in
      let num_returns := count_nodes is_Return (NStmt node) in
      let num_branches := count_nodes is_branch (NStmt node) in
      let num_loops := count_nodes is_loop (NStmt node) in
      mkCodeMetrics loc (calculate_complexity (NStmt node))
        (len (args fargs)) num_returns num_branches num_loops
        (bool_decide (get_docstring body <> None))
        (len decorator_list) (calc_depth node 0)
  | _ => mkCodeMetrics 0 0 0 0 0 0 false 0 0
  end.

Definition _get_source_snippet (lineno end_lineno : Z) (self : Extractor)
  : string :=
  let max_lines := 10%nat in
  let lines := splitlines (src self) in
  let start := Z.max 0 (lineno - 1) in
  let end_ := Z.min (len lines) end_lineno in
  let snippet_lines :=
    firstn (Z.to_nat (end_ - start)) (skipn (Z.to_nat start) lines) in
  let snippet_lines :=
    if (max_lines <? length snippet_lines)%nat
    then firstn max_lines snippet_lines ++ ["..."] else snippet_lines in
  join (String "010" "") snippet_lines.

(** [snippet[:500] if len(snippet) > 500 else snippet] *)
Definition clip_snippet (snippet : string) : string :=
  if (500 <? str_len snippet)%nat then str_take 500 snippet else snippet.

Definition has_decorator (name : string) (decorators : list DecInfo) : bool :=
  existsb (fun d => bool_decide (dec_name d = Some name)) decorators.

Definition _record_function (node : stmt) (self : Extractor)
  : string * Extractor :=
  match node with
  | FunctionDef is_async lineno end_lineno name fargs body decorator_list returns =>
      let is_method := bool_decide (current_class self <> None) in
      let parent_scope := _get_current_scope self in
      let fn_id := stable_id [file_id self; "function"; name; str_int lineno] in
      let '(decorators, self) := _extract_decorators decorator_list self in
      let parameters := _extract_parameters fargs in
      let metrics := _compute_metrics node in
      let snippet := _get_source_snippet lineno end_lineno self in
      let doc := get_docstring body in
      let return_type := returns ≫= _safe_unparse in
      let self := set_defined_names (fun m => <[name := fn_id]> m) self in
      let node_type := if is_method then "Method" else "Function" in
      let self := append_node
        [("id", VStr fn_id);
         ("type", VStr node_type);
         ("name", VStr name);
         ("qualified_name",
          VStr (if is_method
                then from_option id "None" (current_class self) +:+ "." +:+ name
                else name));
         ("is_async", VBool is_async);
         ("is_method", VBool is_method);
         ("is_static", VBool (has_decorator "staticmethod" decorators));
         ("is_class_method", VBool (has_decorator "classmethod" decorators));
         ("is_property", VBool (has_decorator "property" decorators));
         ("is_private",
          VBool (startswith name "_" && negb (startswith name "__")));
         ("is_magic", VBool (startswith name "__" && endswith name "__"));
         ("decorators", VList (map (fun d => vopt (dec_name d)) decorators));
         ("decorator_details", VList (map dec_value decorators));
         ("parameters", VList (map param_value parameters));
         ("return_type", vopt return_type);
         ("lineno", VInt lineno);
         ("end_lineno", VInt end_lineno);
         ("docstring", vopt doc);
         ("snippet", VStr (clip_snippet snippet));
         ("metrics", asdict metrics)] self in
      let self := append_edge
        [("type", VStr "DEFINES");
         ("from_id", VStr parent_scope);
         ("to_id", VStr fn_id);
         ("relationship",
          VStr (if is_method then "contains_method" else "contains_function"))]
        self in
      let self :=
        fold_left (fun self param =>
          let param_id := stable_id [fn_id; "param"; p_name param] in
          let self := append_node
            [("id", VStr param_id);
             ("type", VStr "Parameter");
             ("name", VStr (p_name param));
             ("param_type", vopt (p_type param));
             ("kind", VStr (p_kind param));
             ("default", vopt (p_default param));
             ("position", VInt (p_position param))] self in
          append_edge
            [("type", VStr "HAS_PARAMETER");
             ("from_id", VStr fn_id);
             ("to_id", VStr param_id);
             ("position", VInt (p_position param))] self) parameters self in
      let self :=
        fold_left (fun self dec =>
          match dec_name dec with
          | Some dname =>
              if nonempty dname then
                let dec_id :=
                  stable_id [file_id self; "decorator"; dname; str_int lineno] in
                append_edge
                  [("type", VStr "DECORATES");
                   ("from_id", VStr dec_id);
                   ("to_id", VStr fn_id);
                   ("lineno", VInt lineno)] self
              else self
          | None => self
          end) decorators self in
      let stat_key := if is_method then "methods" else "functions" in
      (fn_id, bump stat_key self)
  | _ => ("", self)
  end.

Definition is_FunctionDef (s : stmt) : bool :=
  match s with FunctionDef _ _ _ _ _ _ _ _ => true | _ => false end.

Definition is_Assign (s : stmt) : bool :=
  match s with Assign _ _ _ => true | _ => false end.

(** [visit_ClassDef] up to the point where the class becomes the scope;
    returns the class id. *)
Definition record_class (node : stmt) (self : Extractor) : string * Extractor :=
  match node with
  | ClassDef lineno end_lineno name node_bases _ body decorator_list =>
      let parent_scope := _get_current_scope self in
      let class_id :=
        stable_id [path_str (file_path self); "class"; name; str_int lineno] in
      let snippet := _get_source_snippet lineno end_lineno self in
      let doc := get_docstring body in
      let bases :=
        flat_map (fun b =>
          match _safe_unparse b with
          | Some t => if nonempty t then [t] else []
          | None => []
          end) node_bases in
      let decorators :=
        flat_map (fun dec =>
          match dec with
          | Name _ id => [id]
          | _ => match _safe_unparse dec with
                 | Some dec_name => if nonempty dec_name then [dec_name] else []
                 | None => []
                 end
          end) decorator_list in
      let methods := List.filter is_FunctionDef body in
      let class_vars := List.filter is_Assign body in
      let self := set_defined_names (fun m => <[name := class_id]> m) self in
      let self := append_node
        [("id", VStr class_id);
         ("type", VStr "Class");
         ("name", VStr name);
         ("lineno", VInt lineno);
         ("end_lineno", VInt end_lineno);
         ("docstring", vopt doc);
         ("snippet", VStr (clip_snippet snippet));
         ("bases", VList (map VStr bases));
         ("decorators", VList (map VStr decorators));
         ("num_methods", VInt (len methods));
         ("num_class_vars", VInt (len class_vars));
         ("is_private", VBool (startswith name "_"));
         ("is_abstract",
          VBool (existsb (String.eqb "ABC") bases
                 || existsb (String.eqb "abc.ABC") bases))] self in
      let self := append_edge
        [("type", VStr "DEFINES");
         ("from_id", VStr parent_scope);
         ("to_id", VStr class_id);
         ("relationship", VStr "contains_class")] self in
      let self :=
        fold_left (fun self base =>
          match defined_names self !! base with
          | Some target =>
              append_edge
                [("type", VStr "INHERITS");
                 ("from_id", VStr class_id);
                 ("to_id", VStr target);
                 ("base_name", VStr base)] self
          | None =>
              append_edge
                [("type", VStr "INHERITS");
                 ("from_id", VStr class_id);
                 ("to_name", VStr base);
                 ("inferred", VBool true)] self
          end) bases self in
      (class_id, bump "classes" self)
  | _ => ("", self)
  end.

(** A visit either completes or raises, keeping what it has recorded. *)
Definition Visit := Extractor -> Extractor * option Exception.

Fixpoint for_each {A} (f : A -> Visit) (l : list A) : Visit :=
  fun self =>
    match l with
    | [] => (self, None)
    | x :: rest =>
        match f x self with
        | (self, None) => for_each f rest self
        | raised => raised
        end
    end.

Definition and_then (m : Visit) (k : Extractor -> Extractor) : Visit :=
  fun self =>
    match m self with
    | (self, None) => (k self, None)
    | raised => raised
    end.

(** [sys.get_int_max_str_digits()], at the interpreter's default. *)
Definition int_max_str_digits : nat := 4300.

(** [str(n)] for an integer of any size: [ValueError] when [n] has more
    decimal digits than the limit. *)
Definition str_of_int (n : Z) : result string :=
  if (String.length (str_int (Z.abs n)) <=? int_max_str_digits)%nat
  then Returned (str_int n)
  else Raised ValueError.

(** [str(node.value.value)] *)
Definition constant_str (c : constant) : result string :=
  match c with
  | CNone => Returned "None"
  | CBool true => Returned "True"
  | CBool false => Returned "False"
  | CInt n => str_of_int n
  | CStr s => Returned s
  | COther _ text => Returned text
  end.

Definition constant_type_name (c : constant) : string :=
  match c with
  | CNone => "NoneType"
  | CBool _ => "bool"
  | CInt _ => "int"
  | CStr _ => "str"
  | COther type_name _ => type_name
  end.

(** [visit_Assign] before its [generic_visit]: the loop over the targets
    stops where [str] raises, with the records of the targets before. *)
Definition record_assign (lineno : Z) (targets : list expr) (node_value : expr)
  : Visit :=
  fun self =>
  let scope := _get_current_scope self in
  let is_global := String.eqb scope (file_id self) in
  for_each (fun target self =>
    match target with
    | Name _ var_name =>
        let is_constant := isupper var_name in
        let is_private := startswith var_name "_" in
        let var_id := stable_id [scope; "var"; var_name; str_int lineno] in
        match
          match node_value with
          | Constant _ c =>
              match constant_str c with
              | Returned text =>
                  Returned (Some (str_take 100 text), constant_type_name c)
              | Raised e => Raised e
              end
          | _ => Returned (_safe_unparse node_value, "complex")
          end
        with
        | Raised e => (self, Some e)
        | Returned (value_str, value_type) =>
            let self := append_node
              [("id", VStr var_id);
               ("type", VStr "Variable");
               ("name", VStr var_name);
               ("value", vopt value_str);
               ("value_type", VStr value_type);
               ("lineno", VInt lineno);
               ("is_global", VBool is_global);
               ("is_constant", VBool is_constant);
               ("is_private", VBool is_private);
               ("scope", VStr (if is_global then "global" else "local"))] self in
            let self := append_edge
              [("type", VStr "DEFINES");
               ("from_id", VStr scope);
               ("to_id", VStr var_id);
               ("relationship", VStr "defines_variable")] self in
            let self := set_scope_vars (fun sv =>
              <[scope := {[var_name]} ∪ default ∅ (sv !! scope)]> sv) self in
            let self := set_defined_names (fun m => <[var_name := var_id]> m) self in
            (bump "variables" self, None)
        end
    | _ => (self, None)
    end) targets self.

(** [visit_Call] before its [generic_visit] *)
Definition record_call (lineno : Z) (func : expr) (args : list expr)
  (keywords : list keyword) (self : Extractor) : Extractor :=
  let callee :=
    match func with
    | Name _ id => Some id
    | Attribute _ _ _ => Some (_get_full_name func)
    | _ => None
    end in
  let caller := _get_current_scope self in
  match callee with
  | Some callee =>
      if nonempty callee && nonempty caller then
        let first_part := split_head "." callee in
        let resolved_name :=
          match imports_map self !! first_part with
          | Some origin =>
              if has_char "." callee
              then origin +:+ str_drop (String.length first_part) callee
              else origin
          | None => callee
          end in
        let target_id := defined_names self !! first_part in
        let call_edge : record :=
          [("type", VStr "CALLS");
           ("from_id", VStr caller);
           ("to_name", VStr callee);
           ("lineno", VInt lineno);
           ("resolved_name",
            if String.eqb resolved_name callee then VNone else VStr resolved_name);
           ("num_args", VInt (len args));
           ("num_kwargs", VInt (len keywords));
           ("inferred", VBool (bool_decide (target_id = None)))] in
        let call_edge :=
          match target_id with
          | Some t => if nonempty t then dict_set "to_id" (VStr t) call_edge
                      else call_edge
          | None => call_edge
          end in
        bump "calls" (append_edge call_edge self)
      else self
  | None => self
  end.

(** [visit_Raise] and [visit_Return] before their [generic_visit] *)
Definition record_flow (edge_type : string) (lineno : Z) (e : option expr)
  (self : Extractor) : Extractor :=
  match e, current_function self with
  | Some e, Some fn =>
      if nonempty fn then
        match _safe_unparse e with
        | Some text =>
            if nonempty text then
              append_edge
                [("type", VStr edge_type);
                 ("from_id", VStr fn);
                 ("to_name", VStr text);
                 ("lineno", VInt lineno)] self
            else self
        | None => self
        end
      else self
  | _, _ => self
  end.

(** [NodeVisitor.visit]: dispatch on the node class, [generic_visit] for
    classes without a handler.  [depth] is the room left on the
    interpreter's call stack, counted in tree levels; when it is used up the
    call raises [RecursionError]. *)
Fixpoint visit (depth : nat) (node : ast_node) (self : Extractor)
  : Extractor * option Exception :=
  match depth with
  | O => (self, Some RecursionError)
  | S depth' =>
      let generic_visit : Visit :=
        for_each (visit depth') (iter_child_nodes node) in
      match node with
      | NStmt (Import lineno names) =>
          generic_visit (visit_Import_names lineno names self)
      | NStmt (ImportFrom lineno module names level) =>
          generic_visit (visit_ImportFrom_names lineno module names level self)
      | NStmt (FunctionDef _ _ _ _ _ _ _ _ as fn) =>
          let prev_function := current_function self in
          let '(fn_id, self) := _record_function fn self in
          let self := set_current_function (Some fn_id) self in
          let self := push_scope fn_id self in
          and_then generic_visit
            (fun self => set_current_function prev_function (pop_scope self))
            self
      | NStmt (ClassDef _ _ name _ _ _ _ as cls) =>
          let '(class_id, self) := record_class cls self in
          let prev_class := current_class self in
          let self := set_current_class (Some name) self in
          let self := push_scope class_id self in
          and_then generic_visit
            (fun self => set_current_class prev_class (pop_scope self))
            self
      | NStmt (Assign lineno targets value) =>
          match record_assign lineno targets value self with
          | (self, None) => generic_visit self
          | raised => raised
          end
      | NExpr (Call lineno func args keywords) =>
          generic_visit (record_call lineno func args keywords self)
      | NStmt (Raise lineno exc _) =>
          generic_visit (record_flow "RAISES" lineno exc self)
      | NStmt (Return lineno value) =>
          generic_visit (record_flow "RETURNS" lineno value self)
      | _ => generic_visit self
      end
  end.

End Visitor.

(** ** extract_file *)

(** A source unit as the file system and the parser present it: its path,
    the outcome of [read_text] and the outcome of [ast.parse] on that
    text. *)
Record SourceUnit := mkUnit {
  unit_path : Path;
  unit_text : result string;
  unit_tree : result (list stmt)
}.

Definition Extraction : Type := list record * list record * list (string * Z).

Definition extract_file `{PyLib} (recursion_limit : nat) (repo_root : Path)
  (u : SourceUnit) : result Extraction :=
  match unit_text u with
  | Raised _ => Returned ([], [], [])
  | Returned src =>
      match unit_tree u with
      | Raised _ => Returned ([], [], [])
      | Returned tree =>
          match new_extractor repo_root (unit_path u) src with
          | Raised e => Raised e
          | Returned extractor =>
              match record_file_node extractor with
              | Raised e => Raised e
              | Returned extractor =>
                  let '(extractor, _) :=
                    visit recursion_limit (NModule tree) extractor in
                  Returned (nodes extractor, edges extractor, stats extractor)
              end
          end
      end
  end.

(** ** Directory walker *)

(** A directory of the file system: its name, its sub-directories and the
    names of its files, in the order [os.scandir] lists them. *)
Inductive fs_dir :=
| Dir (dir_name : string) (subdirs : list fs_dir) (files : list string).

Definition fs_name (d : fs_dir) : string :=
  match d with Dir dir_name _ _ => dir_name end.

(** [d not in exclude and not d.startswith('.')] *)
Definition keep_dir (exclude : list string) (d : string) : bool :=
  negb (existsb (String.eqb d) exclude) && negb (startswith d ".").

(** [os.walk(root)], top down, with the in-place pruning
    [dirnames[:] = [d for d in dirnames if keep d]] that both callers apply
    to every triple before the walk descends. *)
Fixpoint os_walk (keep : string -> bool) (dirpath : Path) (d : fs_dir)
  : list (Path * list string * list string) :=
  match d with
  | Dir _ subdirs files =>
      (dirpath, List.filter keep (map fs_name subdirs), files)
      :: flat_map (fun sub =>
           if keep (fs_name sub)
           then os_walk keep (dirpath ++ [fs_name sub]) sub else []) subdirs
  end.

(** [filename.endswith('.py') and not filename.startswith('.')] *)
Definition is_python_file (filename : string) : bool :=
  endswith filename ".py" && negb (startswith filename ".").

Definition default_exclude_tree : list string :=
  [".git"; "__pycache__"; "node_modules"; ".venv"; "venv";
   ".tox"; "build"; "dist"; ".eggs"].

Definition default_exclude_files : list string :=
  [".git"; "__pycache__"; "node_modules"; ".venv"; "venv"].

Record TreeState := mkTreeState {
  dir_to_id : gmap (list string) string;
  tree_nodes : list record;
  tree_edges : list record
}.

Definition directory_node (root p : Path) (id name : string) : record :=
  [("id", VStr id);
   ("type", VStr "Directory");
   ("name", VStr name);
   ("path", VStr (path_str p));
   ("relpath", VStr (relpath_str (skipn (length root) p)))].

Definition contains_edge (from to rel : string) : record :=
  [("type", VStr "CONTAINS");
   ("from_id", VStr from);
   ("to_id", VStr to);
   ("relationship", VStr rel)].

Definition tree_step (root : Path) (st : TreeState)
  (triple : Path * list string * list string) : TreeState :=
  let '(current_path, dirnames, filenames) := triple in
  let '(current_id, st) :=
    if truthy (dir_to_id st !! current_path)
    then (default "" (dir_to_id st !! current_path), st)
    else
      let current_id := stable_id [path_str current_path] in
      let d := <[current_path := current_id]> (dir_to_id st) in
      let parent_path := removelast current_path in
      (current_id,
       mkTreeState d
         (tree_nodes st ++
            [directory_node root current_path current_id (path_name current_path)])
         (tree_edges st ++
            match d !! parent_path with
            | Some pid => [contains_edge pid current_id "contains_directory"]
            | None => []
            end)) in
  let st :=
    fold_left (fun st dirname =>
      let dir_path := current_path ++ [dirname] in
      let dir_id := stable_id [path_str dir_path] in
      mkTreeState (<[dir_path := dir_id]> (dir_to_id st))
        (tree_nodes st ++ [directory_node root dir_path dir_id dirname])
        (tree_edges st ++ [contains_edge current_id dir_id "contains_directory"]))
      dirnames st in
  fold_left (fun st filename =>
    if is_python_file filename then
      let file_path := current_path ++ [filename] in
      let file_id := stable_id [path_str file_path] in
      mkTreeState (dir_to_id st) (tree_nodes st)
        (tree_edges st ++ [contains_edge current_id file_id "contains_file"])
    else st) filenames st.

Definition build_directory_tree (root : Path) (fs : fs_dir)
  (exclude : option (list string)) : TreeState :=
  let exclude :=
    match exclude with
    | None => default_exclude_tree
    | Some exclude => exclude
    end in
  let repo_id := stable_id [path_str root] in
  let st :=
    mkTreeState {[ root := repo_id ]}
      [[("id", VStr repo_id);
        ("type", VStr "Repository");
        ("name", VStr (path_name root));
        ("path", VStr (path_str root))]]
      [] in
  fold_left (tree_step root) (os_walk (keep_dir exclude) root fs) st.

Definition find_python_files (root : Path) (fs : fs_dir)
  (exclude : option (list string)) : list Path :=
  let exclude :=
    match exclude with
    | None => default_exclude_files
    | Some exclude => exclude
    end in
  flat_map (fun triple =>
    let '(dirpath, _, filenames) := triple in
    map (fun filename => dirpath ++ [filename])
        (List.filter is_python_file filenames))
    (os_walk (keep_dir exclude) root fs).

(** ** Pipeline orchestrator *)

(** What the run finds outside the program: the repository on disk, the
    outcome of reading and of parsing each file, the answer typed at the
    prompt and the clock. *)
Record World := mkWorld {
  repo_exists : bool;
  fs : fs_dir;
  file_text : Path -> result string;
  file_tree : Path -> result (list stmt);
  answer : string;
  now : string
}.

(** The three output files; [None] when a file does not exist.  The record
    files hold one record per line. *)
Record Output := mkOutput {
  nodes_jsonl : option (list record);
  edges_jsonl : option (list record);
  stats_json : option record
}.

(** A value whose keys and strings UTF-8 can encode. *)
Fixpoint value_encodable (v : value) : bool :=
  match v with
  | VStr s => negb (has_surrogate s)
  | VList items =>
      (fix all (l : list value) : bool :=
         match l with
         | [] => true
         | x :: r => value_encodable x && all r
         end) items
  | VDict items =>
      (fix all (l : list (string * value)) : bool :=
         match l with
         | [] => true
         | (k, x) :: r => negb (has_surrogate k) && value_encodable x && all r
         end) items
  | _ => true
  end.

Definition record_encodable (r : record) : bool := value_encodable (VDict r).

(** [write_jsonl]: opens in append mode.  [json.dump] with
    [ensure_ascii=False] hands every string to the file as it is, and the
    file, opened with [encoding="utf-8"], raises [UnicodeEncodeError] on a
    lone surrogate. *)
Definition write_jsonl (file : option (list record)) (items : list record)
  : result (option (list record)) :=
  if forallb record_encodable items then Returned (Some (default [] file ++ items))
  else Raised UnicodeEncodeError.

Definition lower_char (a : ascii) : ascii :=
  if is_upper_char a then ascii_of_nat (nat_of_ascii a + 32) else a.

Fixpoint lower (s : string) : string :=
  match s with
  | EmptyString => EmptyString
  | String a r => String (lower_char a) (lower r)
  end.

Record Progress := mkProgress {
  out : Output;
  total_stats : list (string * Z);
  errors : Z
}.

(** One turn of the per-file loop of [analyze_repository]. *)
Definition process_file `{PyLib} (w : World) (recursion_limit : nat)
  (repo_path : Path) (st : Progress) (file_path : Path) : result Progress :=
  let u := mkUnit file_path (file_text w file_path) (file_tree w file_path) in
  match extract_file recursion_limit repo_path u with
  | Raised e => Raised e
  | Returned (nodes, edges, stats) =>
      match nodes, edges with
      | [], [] => Returned (mkProgress (out st) (total_stats st) (errors st + 1))
      | _, _ =>
          let o := out st in
          match write_jsonl (nodes_jsonl o) nodes with
          | Raised e => Raised e
          | Returned nodes_file =>
              match write_jsonl (edges_jsonl o) edges with
              | Raised e => Raised e
              | Returned edges_file =>
                  let o := mkOutput nodes_file edges_file (stats_json o) in
                  Returned (mkProgress o
                    (fold_left (fun total kv =>
                       dict_set kv.1 (default 0 (dict_get kv.1 total) + kv.2) total)
                       stats (total_stats st))
                    (errors st))
              end
          end
      end
  end.

Fixpoint process_files `{PyLib} (w : World) (recursion_limit : nat)
  (repo_path : Path) (py_files : list Path) (st : Progress) : result Progress :=
  match py_files with
  | [] => Returned st
  | file_path :: rest =>
      match process_file w recursion_limit repo_path st file_path with
      | Raised e => Raised e
      | Returned st => process_files w recursion_limit repo_path rest st
      end
  end.

Definition stat_total (total : list (string * Z)) (key : string) : value :=
  VInt (default 0 (dict_get key total)).

Definition analyze_repository `{PyLib} (w : World) (recursion_limit : nat)
  (repo_path : Path) (o : Output) (exclude : list string) (clean : bool)
  : result (bool * Output) :=
  if negb (repo_exists w) then Returned (false, o) else
  let o := if clean then mkOutput None None None else o in
  let existing :=
    bool_decide (nodes_jsonl o <> None) && bool_decide (edges_jsonl o <> None)
    && negb clean in
  if existing && String.eqb (lower (answer w)) "yes" then Returned (true, o) else
  let o := if existing then mkOutput None None None else o in
  let tree := build_directory_tree repo_path (fs w) (Some exclude) in
  let dir_nodes := tree_nodes tree in
  let dir_edges := tree_edges tree in
  match write_jsonl (nodes_jsonl o) dir_nodes with
  | Raised e => Raised e
  | Returned nodes_file =>
  match write_jsonl (edges_jsonl o) dir_edges with
  | Raised e => Raised e
  | Returned edges_file =>
  let o := mkOutput nodes_file edges_file (stats_json o) in
  let py_files := find_python_files repo_path (fs w) (Some exclude) in
  if len py_files =? 0 then Returned (false, o) else
  match process_files w recursion_limit repo_path py_files (mkProgress o [] 0) with
  | Raised e => Raised e
  | Returned st =>
      let total := total_stats st in
      let final_stats : record :=
        [("repository", VStr (path_str repo_path));
         ("repository_name", VStr (path_name repo_path));
         ("total_files", VInt (len py_files));
         ("files_processed", VInt (len py_files - errors st));
         ("files_with_errors", VInt (errors st));
         ("total_directories", VInt (len dir_nodes - 1));
         ("total_functions", stat_total total "functions");
         ("total_methods", stat_total total "methods");
         ("total_classes", stat_total total "classes");
         ("total_imports", stat_total total "imports");
         ("total_calls", stat_total total "calls");
         ("total_variables", stat_total total "variables");
         ("total_decorators", stat_total total "decorators");
         ("analysis_timestamp", VStr (now w))] in
      let o := out st in
      Returned (true, mkOutput (nodes_jsonl o) (edges_jsonl o) (Some final_stats))
  end
  end
  end.

(** [args.exclude or []] *)
Definition exclude_argument (args_exclude : option (list string)) : list string :=
  match args_exclude with
  | Some (d :: rest) => d :: rest
  | _ => []
  end.

(** Step 1 of [main]: the analysis, with the command line's [--exclude] and
    [--clean]. *)
Definition main_analysis `{PyLib} (w : World) (recursion_limit : nat)
  (repo_path : Path) (o : Output) (args_exclude : option (list string))
  (args_clean : bool) : result (bool * Output) :=
  analyze_repository w recursion_limit repo_path o
    (exclude_argument args_exclude) args_clean.

(** ** Graph loader *)

(** The store session.  [run_create_nodes node_type batch] is [session.run]
    of the node-creation query for one label, [run_create_edges edge_type
    batch] that of the relationship query; each returns the store afterwards
    and either the outcome or the fact that the call raised ([false],
    [None]).  The number is [summary.counters.relationships_created]. *)
Class Neo4jSession (db : Type) := {
  run_create_nodes : string -> list record -> db -> db * bool;
  run_create_edges : string -> list record -> db -> db * option Z
}.

(** [d.pop(k)] on a copy, for a key that is present *)
Definition dict_remove (k : string) (d : record) : record :=
  List.filter (fun kv => negb (String.eqb kv.1 k)) d.

Definition is_VNone (v : value) : bool :=
  match v with VNone => true | _ => false end.

(** Lists and dicts are stored as their JSON text. *)
Definition clean_value `{PyLib} (v : value) : value :=
  match v with
  | VList _ | VDict _ => VStr (json_dumps v)
  | _ => v
  end.

Definition clean_record `{PyLib} (r : record) : record :=
  map (fun kv => (kv.1, clean_value kv.2))
      (List.filter (fun kv => negb (is_VNone kv.2)) r).

Fixpoint chunks_from {A} (fuel n : nat) (l : list A) : list (list A) :=
  match fuel, l with
  | S fuel', _ :: _ => firstn n l :: chunks_from fuel' n (skipn n l)
  | _, _ => []
  end.

(** [l[i:i+batch_size] for i in range(0, len(l), batch_size)]: a zero step
    makes [range] raise, a negative one gives no batch. *)
Definition batches {A} (batch_size : Z) (l : list A) : result (list (list A)) :=
  if batch_size =? 0 then Raised ValueError
  else if batch_size <? 0 then Returned []
  else Returned (chunks_from (length l) (Z.to_nat batch_size) l).

(** The [type] of a record.  A record without the key raises [KeyError];
    the record format has string types only, and other values are reported
    here as [TypeError]. *)
Definition record_type (r : record) : result string :=
  match dict_get "type" r with
  | None => Raised KeyError
  | Some (VStr t) => Returned t
  | Some _ => Raised TypeError
  end.

(** [by_type[t].append(r)] on a [defaultdict(list)] *)
Definition group_append (t : string) (r : record)
  (by_type : list (string * list record)) : list (string * list record) :=
  dict_set t (default [] (dict_get t by_type) ++ [r]) by_type.

Definition type_order : list string :=
  ["Repository"; "Directory"; "File"; "Module"; "Class"; "Function"; "Method";
   "Variable"; "Parameter"; "Decorator"; "Import"].

(** [k in e] for either destination key *)
Definition has_destination (e : record) : bool :=
  has_key "to_id" e || has_key "to" e.

Definition edge_reserved_keys : list string :=
  ["type"; "from"; "to"; "from_id"; "to_id"; "to_name"].

Definition normalize_edge `{PyLib} (edge : record) : record :=
  let normalized : record := [] in
  let normalized :=
    match dict_get "from_id" edge with
    | Some v => dict_set "from" v normalized
    | None =>
        match dict_get "from" edge with
        | Some v => dict_set "from" v normalized
        | None => normalized
        end
    end in
  let normalized :=
    match dict_get "to_id" edge with
    | Some v => dict_set "to" v normalized
    | None =>
        match dict_get "to" edge with
        | Some v => dict_set "to" v normalized
        | None => normalized
        end
    end in
  let props :=
    map (fun kv => (kv.1, clean_value kv.2))
      (List.filter (fun kv =>
         negb (existsb (String.eqb kv.1) edge_reserved_keys)
         && negb (is_VNone kv.2)) edge) in
  dict_set "properties" (VDict props) normalized.

(** [sorted] on strings, by insertion *)
Fixpoint insert_sorted (x : string) (l : list string) : list string :=
  match l with
  | [] => [x]
  | y :: r => if String.leb x y then x :: l else y :: insert_sorted x r
  end.

Definition sorted (l : list string) : list string :=
  fold_right insert_sorted [] l.

Section Loader.

Context `{PyLib} {db : Type} `{Neo4jSession db}.

(** The [try] around one batch of nodes, with its one-by-one fallback. *)
Definition insert_node_batch (node_type : string) (st : db * Z)
  (batch : list record) : db * Z :=
  let '(d, total_inserted) := st in
  let cleaned_batch := map clean_record batch in
  match run_create_nodes node_type cleaned_batch d with
  | (d, true) => (d, total_inserted + len batch)
  | (d, false) =>
      fold_left (fun st single_node =>
        let '(d, total_inserted) := st in
        match run_create_nodes node_type [single_node] d with
        | (d, true) => (d, total_inserted + 1)
        | (d, false) => (d, total_inserted)
        end) cleaned_batch (d, total_inserted)
  end.

Definition group_nodes (nodes : list record)
  : result (list (string * list record)) :=
  fold_left (fun acc node =>
    match acc with
    | Raised e => Raised e
    | Returned nodes_by_type =>
        match record_type node with
        | Raised e => Raised e
        | Returned node_type =>
            Returned (group_append node_type (dict_remove "type" node)
                        nodes_by_type)
        end
    end) nodes (Returned []).

(** Returns the store and [total_inserted]. *)
Definition batch_insert_nodes (nodes : list record) (batch_size : Z) (d : db)
  : result (db * Z) :=
  match group_nodes nodes with
  | Raised e => Raised e
  | Returned nodes_by_type =>
      fold_left (fun acc node_type =>
        match acc with
        | Raised e => Raised e
        | Returned st =>
            match dict_get node_type nodes_by_type with
            | None => Returned st
            | Some type_nodes =>
                match batches batch_size type_nodes with
                | Raised e => Raised e
                | Returned bs =>
                    Returned (fold_left (insert_node_batch node_type) bs st)
                end
            end
        end) type_order (Returned (d, 0))
  end.

(** The [try] around one batch of direct edges. *)
Definition insert_edge_batch (edge_type : string) (st : db * Z)
  (batch : list record) : db * Z :=
  let '(d, total_inserted) := st in
  let normalized_batch := map normalize_edge batch in
  match run_create_edges edge_type normalized_batch d with
  | (d, Some created) => (d, total_inserted + created)
  | (d, None) =>
      fold_left (fun st single_edge =>
        let '(d, total_inserted) := st in
        match run_create_edges edge_type [single_edge] d with
        | (d, Some created) => (d, total_inserted + created)
        | (d, None) => (d, total_inserted)
        end) normalized_batch (d, total_inserted)
  end.

Definition group_edges (edges : list record)
  : result (list (string * list record)) :=
  fold_left (fun acc edge =>
    match acc with
    | Raised e => Raised e
    | Returned edges_by_type =>
        match record_type edge with
        | Raised e => Raised e
        | Returned edge_type =>
            Returned (group_append edge_type edge edges_by_type)
        end
    end) edges (Returned []).

Record EdgeLoad := mkEdgeLoad {
  edge_db : db;
  total_inserted : Z;
  skipped_external : Z
}.

(** Returns the store, [total_inserted] (the function's return value) and
    [skipped_external] (the count it prints). *)
Definition batch_insert_edges (edges : list record) (batch_size : Z) (d : db)
  : result EdgeLoad :=
  match group_edges edges with
  | Raised e => Raised e
  | Returned edges_by_type =>
      fold_left (fun acc edge_type =>
        match acc with
        | Raised e => Raised e
        | Returned st =>
            let type_edges := default [] (dict_get edge_type edges_by_type) in
            let direct := List.filter has_destination type_edges in
            let inferred := len type_edges - len direct in
            match batches batch_size direct with
            | Raised e => Raised e
            | Returned bs =>
                let '(d, total) :=
                  fold_left (insert_edge_batch edge_type) bs
                    (edge_db st, total_inserted st) in
                Returned (mkEdgeLoad d total (skipped_external st + inferred))
            end
        end) (sorted (map fst edges_by_type))
        (Returned (mkEdgeLoad d 0 0))
  end.

End Loader.

(** ** Stores and library instances for concrete runs *)

(** A session that records every [session.run] call it receives and answers
    as [fails] and [created] say, given the calls so far. *)
Abbreviation CallLog := (list (string * list record)).

Definition recording_session
  (fails : CallLog -> string -> list record -> bool)
  (created : CallLog -> string -> list record -> option Z)
  : Neo4jSession CallLog :=
  {| run_create_nodes t batch log := (log ++ [(t, batch)], negb (fails log t batch));
     run_create_edges t batch log := (log ++ [(t, batch)], created log t batch) |}.

(** A store that checks records: a statement raises, and changes nothing,
    when one record of its batch is not valid; otherwise it creates one node
    per record, and one relationship per edge record and pair of matching
    end nodes. *)
Record GraphDb := mkGraphDb {
  db_nodes : list (string * record);
  db_rels : list (string * record)
}.

Definition scalar_eqb (a b : value) : bool :=
  match a, b with
  | VStr x, VStr y => String.eqb x y
  | VInt x, VInt y => x =? y
  | VBool x, VBool y => Bool.eqb x y
  | _, _ => false
  end.

(** Nodes matched by [MATCH (n {id: v})]; a missing [v] matches nothing. *)
Definition matching (d : GraphDb) (v : option value) : nat :=
  match v with
  | Some v =>
      length (List.filter (fun n =>
        match dict_get "id" n.2 with
        | Some w => scalar_eqb v w
        | None => false
        end) (db_nodes d))
  | None => O
  end.

Definition rels_for (d : GraphDb) (e : record) : nat :=
  (matching d (dict_get "from" e) * matching d (dict_get "to" e))%nat.

Definition checking_session (valid_node valid_edge : string -> record -> bool)
  : Neo4jSession GraphDb :=
  {| run_create_nodes t batch d :=
       if forallb (valid_node t) batch
       then (mkGraphDb (db_nodes d ++ map (pair t) batch) (db_rels d), true)
       else (d, false);
     run_create_edges t batch d :=
       if forallb (valid_edge t) batch
       then (mkGraphDb (db_nodes d)
               (db_rels d ++ flat_map (fun e => repeat (t, e) (rels_for d e)) batch),
             Some (Z.of_nat (list_sum (map (rels_for d) batch))))
       else (d, None) |}.

(** The rendering [ast.unparse] gives for names and dotted names; other
    expressions are left unrendered. *)
Fixpoint unparse_dotted (e : expr) : option string :=
  match e with
  | Name _ id => Some id
  | Attribute _ value attr =>
      match unparse_dotted value with
      | Some s => Some (s +:+ "." +:+ attr)
      | None => None
      end
  | _ => None
  end.

Definition quote : string := String (ascii_of_nat 34) "".

(** JSON text of a value whose strings need no escape. *)
Fixpoint json_text (v : value) : string :=
  match v with
  | VNone => "null"
  | VBool true => "true"
  | VBool false => "false"
  | VInt n => str_int n
  | VStr s => quote +:+ s +:+ quote
  | VList items =>
      "[" +:+ join ", " ((fix texts (l : list value) : list string :=
                            match l with
                            | [] => []
                            | x :: r => json_text x :: texts r
                            end) items) +:+ "]"
  | VDict items =>
      "{" +:+ join ", " ((fix texts (l : list (string * value)) : list string :=
                            match l with
                            | [] => []
                            | (k, x) :: r =>
                                (quote +:+ k +:+ quote +:+ ": " +:+ json_text x)
                                :: texts r
                            end) items) +:+ "}"
  end.

Definition plain_lib : PyLib :=
  {| unparse := unparse_dotted; cleandoc := fun s => s; json_dumps := json_text;
     isupper := isupper_ascii |}.

Definition no_arguments : arguments := Arguments [] [] None [] [] None [].

Definition newline : string := String "010" "".

(** ** Properties of records and trees used in the statements *)

Definition str_field (k : string) (r : record) : option string :=
  match dict_get k r with
  | Some (VStr v) => Some v
  | _ => None
  end.

Definition node_ids (ns : list record) : list string :=
  omap (str_field "id") ns.

(** The record has a string under [k] and it is the id of a node of [ns]. *)
Definition refers_to_node (ns : list record) (k : string) (e : record) : Prop :=
  exists id, dict_get k e = Some (VStr id) /\ id ∈ node_ids ns.

Definition refers_to_nodeb (ns : list record) (k : string) (e : record) : bool :=
  match dict_get k e with
  | Some (VStr id) => existsb (String.eqb id) (node_ids ns)
  | _ => false
  end.

Definition has_type (t : string) (r : record) : bool :=
  match str_field "type" r with
  | Some t' => String.eqb t t'
  | None => false
  end.

(** Calls, Raises, Returns and Inherits edges. *)
Definition is_reference_edge (e : record) : bool :=
  has_type "CALLS" e || has_type "RAISES" e || has_type "RETURNS" e
  || has_type "INHERITS" e.

(** The complexity the specification describes: one, plus one per
    conditional, loop, exception handler, context manager and assert node,
    plus the operand count less one of every boolean expression. *)
Definition spec_decision_node (child : ast_node) : bool :=
  match child with
  | NStmt (If _ _ _) | NStmt (For _ _ _ _) | NStmt (While _ _ _) => true
  | NHandler _ => true
  | NStmt (With _ _) | NStmt (Assert _ _) => true
  | _ => false
  end.

Definition boolean_branches (child : ast_node) : Z :=
  match child with
  | NExpr (BoolOp _ _ values) => len values - 1
  | _ => 0
  end.

Definition sumZ (l : list Z) : Z := fold_right Z.add 0 l.

Definition spec_complexity (node : ast_node) : Z :=
  1 + len (List.filter spec_decision_node (walk node))
    + sumZ (map boolean_branches (walk node)).

Definition is_operator_node (child : ast_node) : bool :=
  match child with NBoolop _ => true | _ => false end.

(** The boolean expressions among the nodes of a walk, and the operands the
    specification counts for them. *)
Definition is_BoolOp (child : ast_node) : bool :=
  match child with NExpr (BoolOp _ _ _) => true | _ => false end.

Definition operand_count (child : ast_node) : Z :=
  match child with
  | NExpr (BoolOp _ _ values) => len values
  | _ => 0
  end.

Definition balanced (l : list ast_node) : Prop :=
  len (List.filter is_operator_node l) = len (List.filter is_BoolOp l).

(** A part that can be told from the separator "::" of [stable_id]: the
    separator does not occur in it and it does not end with a colon. *)
Definition separable (part : string) : Prop :=
  contains "::" part = false /\ endswith part ":" = false.

(** Two different texts with the same SHA-1 digest. *)
Definition collide (a b : string) : Prop := a <> b /\ sha1_hex a = sha1_hex b.

(** ** Concrete source units *)

(** [def f(a, b): return a and b] *)
Definition and_function : stmt :=
  FunctionDef false 1 1 "f"
    (Arguments [] [Arg "a" None; Arg "b" None] None [] [] None [])
    [Return 1 (Some (BoolOp 1 And [Name 1 "a"; Name 1 "b"]))] [] None.

Definition and_unit : SourceUnit :=
  mkUnit ["repo"; "m.py"] (Returned "def f(a, b): return a and b")
    (Returned [and_function]).

(** A decorated function: [@dec] on line 1, [def f(): pass] on line 2. *)
Definition decorated_unit : SourceUnit :=
  mkUnit ["repo"; "m.py"]
    (Returned ("@dec" +:+ newline +:+ "def f(): pass" +:+ newline))
    (Returned [FunctionDef false 2 2 "f" no_arguments [OtherStmt []]
                 [Name 1 "dec"] None]).

(** [from os import path as p] then [p.join(...)] with the given arguments *)
Definition os_path_tree (args : list expr) (keywords : list keyword) : list stmt :=
  [ImportFrom 1 (Some "os") [Alias "path" (Some "p")] 0;
   Expr (Call 2 (Attribute 2 (Name 2 "p") "join") args keywords)].

Definition os_path_unit (args : list expr) (keywords : list keyword) : SourceUnit :=
  mkUnit ["repo"; "m.py"]
    (Returned ("from os import path as p" +:+ newline +:+ "p.join(a, b)" +:+ newline))
    (Returned (os_path_tree args keywords)).

(** [from os import path, path as p] *)
Definition double_import_unit : SourceUnit :=
  mkUnit ["repo"; "m.py"] (Returned "from os import path, path as p")
    (Returned [ImportFrom 1 (Some "os")
                 [Alias "path" None; Alias "path" (Some "p")] 0]).

(** A repository with a virtual environment, a build directory, a hidden
    directory and a source directory. *)
Definition sample_repo : fs_dir :=
  Dir "repo"
    [Dir "venv" [] ["site.py"];
     Dir "build" [] ["gen.py"];
     Dir ".git" [] ["hook.py"];
     Dir "src" [Dir "__pycache__" [] ["app.py"]] ["app.py"]]
    ["setup.py"].

(** A world around [sample_repo] in which every file is an empty module. *)
Definition sample_world : World :=
  mkWorld true sample_repo (fun _ => Returned "") (fun _ => Returned [])
    "no" "2024-01-01T00:00:00".

Definition no_output : Output := mkOutput None None None.

(** ** Well-formedness of the extractor state *)

Definition known (ns : list record) (id : string) : Prop := id ∈ node_ids ns.

(** An edge is in order with respect to the nodes emitted so far: its
    source is one of them (Decorates edges apart, whose source id is built
    from the line of the function and not of the decorator); so is its
    destination when it has one; and an edge that names a symbol has a
    destination node or else a [to_name] and no [to_id]. *)
Definition edge_ok (ns : list record) (e : record) : Prop :=
  (has_type "DECORATES" e = false -> refers_to_node ns "from_id" e)
  /\ (dict_get "to_id" e <> None -> refers_to_node ns "to_id" e)
  /\ (is_reference_edge e = true ->
      refers_to_node ns "to_id" e
      \/ (dict_get "to_id" e = None
          /\ exists s, dict_get "to_name" e = Some (VStr s))).

Record wf (self : Extractor) : Prop := mkWf {
  wf_file : known (nodes self) (file_id self);
  wf_stack : Forall (known (nodes self)) (current_scope_stack self);
  wf_function :
    forall fn, current_function self = Some fn -> known (nodes self) fn;
  wf_names :
    forall k id, defined_names self !! k = Some id -> known (nodes self) id;
  wf_edges : Forall (edge_ok (nodes self)) (edges self)
}.

(** Records are only ever appended. *)
Definition grows (s s' : Extractor) : Prop :=
  nodes s `prefix_of` nodes s' /\ edges s `prefix_of` edges s'
  /\ file_id s' = file_id s.

Definition good (s s' : Extractor) : Prop := grows s s' /\ (wf s -> wf s').

(** Nodes below which only expressions are found. *)
Definition expr_like (n : ast_node) : Prop :=
  match n with
  | NExpr _ | NKeyword _ | NBoolop _ => True
  | _ => False
  end.

(** ** extract_file: auxiliary definitions for the statements *)

(** The unit was read and parsed. *)
Definition parsed (u : SourceUnit) : bool :=
  match unit_text u, unit_tree u with
  | Returned _, Returned _ => true
  | _, _ => false
  end.

(** The extractor when the traversal starts: [__init__] followed by
    [record_file_node]. *)
Definition first_state (repo_root file_path : Path) (src : string)
  : result Extractor :=
  match new_extractor repo_root file_path src with
  | Raised e => Raised e
  | Returned extractor => record_file_node extractor
  end.

(** [errors += 1; continue] *)
Definition count_error (st : Progress) : Progress :=
  mkProgress (out st) (total_stats st) (errors st + 1).

(** ** Loader: auxiliary definitions for the statements *)

(** A record with a string [type]. *)
Definition typed (r : record) : Prop := exists t, str_field "type" r = Some t.

(** The grouping loop, for both kinds of record: [prep] is what is stored
    for a record. *)
Definition group_step (prep : record -> record)
  (acc : result (list (string * list record))) (r : record) :=
  match acc with
  | Raised e => Raised e
  | Returned by_type =>
      match record_type r with
      | Raised e => Raised e
      | Returned t => Returned (group_append t (prep r) by_type)
      end
  end.

Definition grouped (prep : record -> record) (rs : list record)
  (g0 g : list (string * list record)) : Prop :=
  (forall t, default [] (dict_get t g)
             = default [] (dict_get t g0) ++ map prep (List.filter (has_type t) rs))
  /\ (forall t, t ∈ map fst g <->
                t ∈ map fst g0 \/ exists r, r ∈ rs /\ str_field "type" r = Some t)
  /\ (NoDup (map fst g0) -> NoDup (map fst g)).

Definition record_type_of (r : record) : string := default "" (str_field "type" r).

Definition inserted_nodes `{PyLib} (valid_node : string -> record -> bool)
  (nodes : list record) (labels : list string) : list (string * record) :=
  flat_map (fun t =>
    map (pair t)
      (List.filter (valid_node t)
         (map clean_record
            (map (dict_remove "type") (List.filter (has_type t) nodes)))))
    labels.

Definition created_for `{PyLib} (valid_edge : string -> record -> bool)
  (d : GraphDb) (e : record) : Z :=
  if has_destination e && valid_edge (record_type_of e) (normalize_edge e)
  then Z.of_nat (rels_for d (normalize_edge e)) else 0.

(** The checking store after the valid records of [rs] are created under
    label [t]. *)
Definition add_nodes (valid_node : string -> record -> bool) (t : string)
  (rs : list record) (d : GraphDb) : GraphDb :=
  mkGraphDb (db_nodes d ++ map (pair t) (List.filter (valid_node t) rs))
    (db_rels d).

Section EdgeLoopDefs.

Context `{PyLib} {db : Type} `{Neo4jSession db}.

(** One turn of the loop over edge types in [batch_insert_edges]. *)
Definition edges_step (edges_by_type : list (string * list record))
  (batch_size : Z) (acc : result (EdgeLoad (db := db))) (edge_type : string)
  : result (EdgeLoad (db := db)) :=
  match acc with
  | Raised e => Raised e
  | Returned st =>
      let type_edges := default [] (dict_get edge_type edges_by_type) in
      let direct := List.filter has_destination type_edges in
      let inferred := len type_edges - len direct in
      match batches batch_size direct with
      | Raised e => Raised e
      | Returned bs =>
          let '(d, total) :=
            fold_left (insert_edge_batch edge_type) bs
              (edge_db st, total_inserted st) in
          Returned (mkEdgeLoad d total (skipped_external st + inferred))
      end
  end.

End EdgeLoopDefs.

(** Edges of type [t] that carry no destination. *)
Definition inferred_of (g : list (string * list record)) (t : string) : Z :=
  len (default [] (dict_get t g))
  - len (List.filter has_destination (default [] (dict_get t g))).


(** The records of a call all come from edges that carry a destination. *)
Definition direct_call `{PyLib} (edges : list record)
  (call : string * list record) : Prop :=
  Forall (fun x => exists e, e ∈ edges /\ has_destination e = true
                             /\ x = normalize_edge e) call.2.

(** Relationships the checking store creates for one edge record. *)
Definition weight (d : GraphDb) (x : record) : Z := Z.of_nat (rels_for d x).


(** ** Concrete loads *)

(** [n] File nodes with ids 1 to [n]. *)
Definition numbered_nodes (n : nat) : list record :=
  map (fun i => [("id", VStr (str_int (Z.of_nat i)));
                 ("type", VStr "File");
                 ("name", VStr "unit.py")]) (seq 1 n).

(** A store that rejects the record whose id is 7. *)
Definition all_but_seventh (t : string) (r : record) : bool :=
  negb (bool_decide (str_field "id" r = Some "7")).

Definition accept_all (t : string) (r : record) : bool := true.

Definition empty_db : GraphDb := mkGraphDb [] [].

Definition sample_edges : list record :=
  [[("type", VStr "CALLS"); ("from_id", VStr "1"); ("to_name", VStr "print");
    ("inferred", VBool true)];
   [("type", VStr "DEFINES"); ("from_id", VStr "1"); ("to_id", VStr "2")];
   [("type", VStr "INHERITS"); ("from_id", VStr "3"); ("to_name", VStr "Base");
    ("inferred", VBool true)];
   [("type", VStr "CALLS"); ("from_id", VStr "2"); ("to_name", VStr "helper");
    ("to_id", VStr "3")]].

(** A store that raises at every call. *)
Definition always_raising : Neo4jSession CallLog :=
  recording_session (fun _ _ _ => true) (fun _ _ _ => None).

(** Two classes, a method with a raise, a call and a return:
[[
class A: pass
class B(A, Base):
    def f(self, x):
        if x: raise ValueError
        A()
        return x
]] *)
Definition class_unit : SourceUnit :=
  mkUnit ["repo"; "pkg"; "shapes.py"]
    (Returned "class A: pass")
    (Returned
       [ClassDef 1 1 "A" [] [] [OtherStmt []] [];
        ClassDef 2 6 "B" [Name 2 "A"; Name 2 "Base"] []
          [FunctionDef false 3 6 "f"
             (Arguments [] [Arg "self" None; Arg "x" None] None [] [] None [])
             [If (Name 4 "x") [Raise 4 (Some (Name 4 "ValueError")) None] [];
              Expr (Call 5 (Name 5 "A") [] []);
              Return 6 (Some (Name 6 "x"))]
             [] None]
          []]).

(** A function followed by a call nested three deep, [f(g(h()))]: with room
    for four levels the traversal faults inside the call. *)
Definition nested_call_unit : SourceUnit :=
  mkUnit ["repo"; "deep.py"]
    (Returned "def ok(): pass")
    (Returned
       [FunctionDef false 1 1 "ok" no_arguments [OtherStmt []] [] None;
        Expr (Call 2 (Name 2 "f")
                [Call 2 (Name 2 "g") [Call 2 (Name 2 "h") [] []] []] [])]).

(** A unit whose text cannot be decoded. *)
Definition unreadable_unit : SourceUnit :=
  mkUnit ["repo"; "latin1.py"] (Raised UnicodeDecodeError) (Raised SyntaxError).

(** A unit [x = 1] outside the repository [/repo]. *)
Definition outside_unit : SourceUnit :=
  mkUnit ["elsewhere"; "m.py"] (Returned "x = 1")
    (Returned [Assign 1 [Name 1 "x"] (Constant 1 (CInt 1))]).

(** The file name whose bytes are those of [caf], the byte E9 (an e with
    acute accent in Latin-1) and [.py]: [os.fsdecode] turns the byte E9
    into the lone surrogate U+DCE9, kept here as the bytes ED B3 A9. *)
Definition latin1_name : string :=
  "caf" +:+ String (ascii_of_nat 237) (String (ascii_of_nat 179)
               (String (ascii_of_nat 169) ".py")).

(** A unit [x = 1] under that name, in the repository. *)
Definition latin1_name_unit : SourceUnit :=
  mkUnit ["repo"; latin1_name] (Returned "x = 1")
    (Returned [Assign 1 [Name 1 "x"] (Constant 1 (CInt 1))]).

(** ** Files of a directory tree *)

(** Following the sub-directories [dirs] from [d] leads to a directory that
    lists the file [name]. *)
Fixpoint file_at (d : fs_dir) (dirs : list string) (name : string) : Prop :=
  match d, dirs with
  | Dir _ _ files, [] => name ∈ files
  | Dir _ subdirs _, x :: rest =>
      exists sub, sub ∈ subdirs /\ fs_name sub = x /\ file_at sub rest name
  end.

(** Following [dirs] from [d] leads to a directory. *)
Fixpoint dir_at (d : fs_dir) (dirs : list string) : Prop :=
  match d, dirs with
  | _, [] => True
  | Dir _ subdirs _, x :: rest =>
      exists sub, sub ∈ subdirs /\ fs_name sub = x /\ dir_at sub rest
  end.

(** ** Records of the directory tree, triple by triple *)

Definition path_id (p : Path) : string := stable_id [path_str p].

(** The Directory nodes for the sub-directories listed by one triple of the
    walk. *)
Definition listed_directory_nodes (root : Path)
  (triple : Path * list string * list string) : list record :=
  map (fun dirname =>
         directory_node root (triple.1.1 ++ [dirname])
           (path_id (triple.1.1 ++ [dirname])) dirname) triple.1.2.

(** The Contains edges for the sub-directories and the Python files listed
    by one triple of the walk. *)
Definition listed_edges (triple : Path * list string * list string)
  : list record :=
  map (fun dirname =>
         contains_edge (path_id triple.1.1) (path_id (triple.1.1 ++ [dirname]))
           "contains_directory") triple.1.2
  ++ map (fun filename =>
            contains_edge (path_id triple.1.1)
              (path_id (triple.1.1 ++ [filename])) "contains_file")
       (List.filter is_python_file triple.2).

Definition repository_node (root : Path) : record :=
  [("id", VStr (path_id root));
   ("type", VStr "Repository");
   ("name", VStr (path_name root));
   ("path", VStr (path_str root))].

(** Every path of the map is bound to the id made from it. *)
Definition ids_by_path (m : gmap (list string) string) : Prop :=
  forall k v, m !! k = Some v -> v = path_id k.

(** The Contains edge that links a Python file to its directory. *)
Definition file_edge (p : Path) : record :=
  contains_edge (path_id (removelast p)) (path_id p) "contains_file".

(** ** Statistics and record types of the extractor *)

(** [stats[key]], zero for a counter that is not there. *)
Definition stat (key : string) (st : list (string * Z)) : Z :=
  default 0 (dict_get key st).

Definition count_type (t : string) (rs : list record) : Z :=
  len (List.filter (has_type t) rs).

(** Each counter of the statistics with the records it stands for: the nodes
    of one type or, for [calls], the edges of type CALLS. *)
Definition counters : list (string * string * bool) :=
  [("functions", "Function", false); ("methods", "Method", false);
   ("classes", "Class", false); ("imports", "Import", false);
   ("variables", "Variable", false); ("decorators", "Decorator", false);
   ("calls", "CALLS", true)].

Definition counted (c : string * string * bool) (ns es : list record) : Z :=
  count_type c.1.2 (if c.2 then es else ns).

Definition stats_agree (ns es : list record) (st : list (string * Z)) : Prop :=
  forall c, In c counters -> stat c.1.1 st = counted c ns es.

(** By how much a counter is ahead of its records. *)
Definition surplus (c : string * string * bool) (self : Extractor) : Z :=
  stat c.1.1 (stats self) - counted c (nodes self) (edges self).

(** The node types and edge types the extractor writes. *)
Definition extractor_node_types : list string :=
  ["File"; "Import"; "Decorator"; "Function"; "Method"; "Parameter"; "Class";
   "Variable"].

Definition extractor_edge_types : list string :=
  ["IMPORTS"; "DEFINES"; "HAS_PARAMETER"; "DECORATES"; "INHERITS"; "CALLS";
   "RAISES"; "RETURNS"].

(** A node record has a string [id] and one of the node types; an edge
    record has a string [from_id] and one of the edge types. *)
Definition node_record (n : record) : bool :=
  match str_field "id" n, str_field "type" n with
  | Some _, Some t => existsb (String.eqb t) extractor_node_types
  | _, _ => false
  end.

Definition edge_record (e : record) : bool :=
  match str_field "from_id" e, str_field "type" e with
  | Some _, Some t => existsb (String.eqb t) extractor_edge_types
  | _, _ => false
  end.

Definition files (self : Extractor) : Z := count_type "File" (nodes self).

Definition node_records (self : Extractor) : bool :=
  forallb node_record (nodes self).

Definition edge_records (self : Extractor) : bool :=
  forallb edge_record (edges self).

(** What every handler of the traversal keeps: no counter gains or loses on
    its records, no File node is added, and what is appended are node
    and edge records. *)
Record steady (s s' : Extractor) : Prop := mkSteady {
  steady_surplus : forall c, In c counters -> surplus c s' = surplus c s;
  steady_files : files s' = files s;
  steady_nodes : node_records s' = node_records s;
  steady_edges : edge_records s' = edge_records s
}.

(** The statistics hold the seven counters of [__init__], in their order. *)
Definition has_counters (self : Extractor) : Prop :=
  map fst (stats self) = map fst initial_stats.

Definition keeps_counters (s s' : Extractor) : Prop :=
  has_counters s -> has_counters s'.

(** ** The run, file by file *)

Definition unit_of (w : World) (p : Path) : SourceUnit :=
  mkUnit p (file_text w p) (file_tree w p).

(** What [extract_file] returns for the file at [p]. *)
Definition extraction_of `{PyLib} (w : World) (recursion_limit : nat)
  (root p : Path) : Extraction :=
  match extract_file recursion_limit root (unit_of w p) with
  | Returned x => x
  | Raised _ => ([], [], [])
  end.

(** The file cannot be read or cannot be parsed. *)
Definition unreadable (w : World) (p : Path) : bool :=
  match file_text w p, file_tree w p with
  | Returned _, Returned _ => false
  | _, _ => true
  end.

(** [total_stats[key] += val] for every counter of one file. *)
Definition add_stats (total stats : list (string * Z)) : list (string * Z) :=
  fold_left (fun total kv =>
    dict_set kv.1 (default 0 (dict_get kv.1 total) + kv.2) total) stats total.

Definition nodes_of `{PyLib} (w : World) (recursion_limit : nat)
  (root p : Path) : list record :=
  (extraction_of w recursion_limit root p).1.1.

Definition edges_of `{PyLib} (w : World) (recursion_limit : nat)
  (root p : Path) : list record :=
  (extraction_of w recursion_limit root p).1.2.

Definition stats_of `{PyLib} (w : World) (recursion_limit : nat)
  (root p : Path) : list (string * Z) :=
  (extraction_of w recursion_limit root p).2.

(** Both record files are there. *)
Definition both_exist (o : Output) : bool :=
  bool_decide (nodes_jsonl o <> None) && bool_decide (edges_jsonl o <> None).

(** The run is asked to use the record files it finds, and does. *)
Definition reuses (w : World) (o : Output) (clean : bool) : bool :=
  both_exist o && negb clean && String.eqb (lower (answer w)) "yes".

(** What is left in a record file when the analysis starts to write: nothing
    after [--clean] or when both files were found and deleted; otherwise
    what the file held. *)
Definition kept (clean : bool) (o : Output) (file : option (list record))
  : list record :=
  if clean || both_exist o then [] else default [] file.

Definition kept_stats (clean : bool) (o : Output) : option record :=
  if clean || both_exist o then None else stats_json o.

(** The sum of the values bound to [k], all bindings counted. *)
Definition sum_key (k : string) (st : list (string * Z)) : Z :=
  sumZ (map (fun kv => if decide (k = kv.1) then kv.2 else 0) st).

(** The statistics file of a run over [files], given the directory nodes,
    the totals and the number of files that gave no record. *)
Definition final_stats_of (w : World) (repo_path : Path)
  (files : list Path) (dir_nodes : list record) (total : list (string * Z))
  (errors : Z) : record :=
  [("repository", VStr (path_str repo_path));
   ("repository_name", VStr (path_name repo_path));
   ("total_files", VInt (len files));
   ("files_processed", VInt (len files - errors));
   ("files_with_errors", VInt errors);
   ("total_directories", VInt (len dir_nodes - 1));
   ("total_functions", stat_total total "functions");
   ("total_methods", stat_total total "methods");
   ("total_classes", stat_total total "classes");
   ("total_imports", stat_total total "imports");
   ("total_calls", stat_total total "calls");
   ("total_variables", stat_total total "variables");
   ("total_decorators", stat_total total "decorators");
   ("analysis_timestamp", VStr (now w))].

(** The key of the statistics file for each counter. *)
Definition total_key (c : string * string * bool) : string :=
  "total_" +:+ c.1.1.

(** Nothing the run hashes or writes holds a character that UTF-8 cannot
    encode: not the records of the directory tree, which carry the path of
    the repository and the names of its directories, not the paths of the
    Python files found, not the records of these files. *)
Definition encodable_run `{PyLib} (w : World) (recursion_limit : nat)
  (root : Path) (exclude : list string) : bool :=
  let tree := build_directory_tree root (fs w) (Some exclude) in
  let files := find_python_files root (fs w) (Some exclude) in
  forallb record_encodable (tree_nodes tree)
  && forallb record_encodable (tree_edges tree)
  && forallb (fun p => negb (has_surrogate (path_str p))) files
  && forallb record_encodable (flat_map (nodes_of w recursion_limit root) files)
  && forallb record_encodable (flat_map (edges_of w recursion_limit root) files).

(** A value the store can hold as a property: a string, a number or a
    boolean. *)
Definition is_scalar (v : value) : bool :=
  match v with
  | VBool _ | VInt _ | VStr _ => true
  | _ => false
  end.

(** ** The context of a visit *)

(** The scope stack, the current function and the current class. *)
Definition context (self : Extractor)
  : list string * option string * option string :=
  (current_scope_stack self, current_function self, current_class self).

Definition same_context (s s' : Extractor) : Prop := context s' = context s.

(** ** The depth of a tree *)

(** The number of levels of the tree below and including a node, operator
    nodes, arguments, keywords, aliases and with-items counted as nodes. *)
Fixpoint height_expr (e : expr) : nat :=
  S match e with
    | Name _ _ => 0
    | Attribute _ value _ => height_expr value
    | Call _ func args keywords =>
        Nat.max (height_expr func)
          (Nat.max (list_max (map height_expr args))
                   (list_max (map height_keyword keywords)))
    | Constant _ _ => 0
    | BoolOp _ _ values => Nat.max 1 (list_max (map height_expr values))
    | IfExp _ test body orelse =>
        Nat.max (height_expr test)
          (Nat.max (height_expr body) (height_expr orelse))
    | OtherExpr _ children => list_max (map height_expr children)
    end
with height_keyword (k : keyword) : nat :=
  S match k with Keyword _ value => height_expr value end.

Definition height_opt_expr (o : option expr) : nat :=
  match o with
  | Some e => height_expr e
  | None => 0
  end.

Definition height_arg (a : arg) : nat := S (height_opt_expr (annotation a)).

Definition height_opt_arg (o : option arg) : nat :=
  match o with
  | Some a => height_arg a
  | None => 0
  end.

Definition height_arguments (a : arguments) : nat :=
  S (list_max
       [list_max (map height_arg (posonlyargs a));
        list_max (map height_arg (args a));
        height_opt_arg (vararg a);
        list_max (map height_arg (kwonlyargs a));
        list_max (map height_opt_expr (kw_defaults a));
        height_opt_arg (kwarg a);
        list_max (map height_expr (defaults a))]).

Definition height_withitem (w : withitem) : nat :=
  S (Nat.max (height_expr (context_expr w)) (height_opt_expr (optional_vars w))).

Fixpoint height_stmt (s : stmt) : nat :=
  S match s with
    | FunctionDef _ _ _ _ fargs body decorator_list returns =>
        list_max [height_arguments fargs; list_max (map height_stmt body);
                  list_max (map height_expr decorator_list);
                  height_opt_expr returns]
    | ClassDef _ _ _ bases keywords body decorator_list =>
        list_max [list_max (map height_expr bases);
                  list_max (map height_keyword keywords);
                  list_max (map height_stmt body);
                  list_max (map height_expr decorator_list)]
    | Return _ value => height_opt_expr value
    | Assign _ targets value =>
        Nat.max (list_max (map height_expr targets)) (height_expr value)
    | Raise _ exc cause => Nat.max (height_opt_expr exc) (height_opt_expr cause)
    | Import _ names => list_max (map (fun _ => 1%nat) names)
    | ImportFrom _ _ names _ => list_max (map (fun _ => 1%nat) names)
    | If test body orelse =>
        list_max [height_expr test; list_max (map height_stmt body);
                  list_max (map height_stmt orelse)]
    | For target iter body orelse =>
        list_max [height_expr target; height_expr iter;
                  list_max (map height_stmt body);
                  list_max (map height_stmt orelse)]
    | While test body orelse =>
        list_max [height_expr test; list_max (map height_stmt body);
                  list_max (map height_stmt orelse)]
    | With items body =>
        Nat.max (list_max (map height_withitem items))
                (list_max (map height_stmt body))
    | Try body handlers orelse finalbody =>
        list_max [list_max (map height_stmt body);
                  list_max (map height_handler handlers);
                  list_max (map height_stmt orelse);
                  list_max (map height_stmt finalbody)]
    | Assert test msg => Nat.max (height_expr test) (height_opt_expr msg)
    | Expr value => height_expr value
    | OtherStmt children => list_max (map height_child children)
    end
with height_handler (h : excepthandler) : nat :=
  S match h with
    | ExceptHandler type _ body =>
        Nat.max (height_opt_expr type) (list_max (map height_stmt body))
    end
with height_child (c : child) : nat :=
  match c with
  | ChildExpr e => height_expr e
  | ChildStmt s => height_stmt s
  end.

Definition height (n : ast_node) : nat :=
  match n with
  | NModule body => S (list_max (map height_stmt body))
  | NStmt s => height_stmt s
  | NExpr e => height_expr e
  | NHandler h => height_handler h
  | NBoolop _ => 1
  | NArguments a => height_arguments a
  | NArg a => height_arg a
  | NKeyword k => height_keyword k
  | NAlias _ => 1
  | NWithitem w => height_withitem w
  end.

Definition is_Name (e : expr) : bool :=
  match e with
  | Name _ _ => true
  | _ => false
  end.

(** [str] of the constant returns. *)
Definition printable (c : constant) : bool :=
  match constant_str c with
  | Returned _ => true
  | Raised _ => false
  end.

(** The node is no assignment of a constant that cannot be printed to a
    name. *)
Definition assigns_printable (n : ast_node) : bool :=
  match n with
  | NStmt (Assign _ targets (Constant _ c)) =>
      negb (existsb is_Name targets) || printable c
  | _ => true
  end.

(** Name and kind of a parameter. *)
Definition name_kind (p : Param) : string * string := (p_name p, p_kind p).

Definition of_kind (kind : string) (a : arg) : string * string :=
  (arg_name a, kind).

(** The positions count from zero. *)
Definition positions_in_order (params : list Param) : Prop :=
  map p_position params = map Z.of_nat (seq 0 (length params)).

(** ** Digests and dotted names in the statements *)

(** One of the sixteen lowercase hexadecimal digits. *)
Definition is_hex_digit (a : ascii) : bool :=
  existsb (Ascii.eqb a) (list_ascii_of_string "0123456789abcdef").

(** The expression [base.a1.a2...an]. *)
Fixpoint attribute_chain (lineno : Z) (base : expr) (attrs : list string) : expr :=
  match attrs with
  | [] => base
  | a :: rest => attribute_chain lineno (Attribute lineno base a) rest
  end.

Definition is_name_or_attribute (e : expr) : bool :=
  match e with
  | Name _ _ | Attribute _ _ _ => true
  | _ => false
  end.

(** ** Concrete runs *)

(** The module [x = 1]. *)
Definition one_assignment : list stmt :=
  [Assign 1 [Name 1 "x"] (Constant 1 (CInt 1))].

(** A world around [sample_repo] in which every file reads [x = 1], but for
    [build/gen.py], which cannot be decoded. *)
Definition partly_readable_world : World :=
  mkWorld true sample_repo
    (fun p => if bool_decide (p = ["repo"; "build"; "gen.py"])
              then Raised UnicodeDecodeError else Returned "x = 1")
    (fun _ => Returned one_assignment)
    "no" "2024-01-01T00:00:00".

(** A repository without a Python file. *)
Definition docs_world : World :=
  mkWorld true (Dir "repo" [Dir "docs" [] ["index.md"]] ["README.md"])
    (fun _ => Returned "") (fun _ => Returned [])
    "no" "2024-01-01T00:00:00".

(** A node record without a [type]. *)
Definition untyped_node : record := [("id", VStr "8"); ("name", VStr "stray")].

Example sha1_abc : sha1_hex "abc" = "a9993e364706816aba3e25717850c26c9cd0d89d".
Proof. vm_compute. reflexivity. Qed.

Example sha1_empty : sha1_hex "" = "da39a3ee5e6b4b0d3255bfef95601890afd80709".
Proof. vm_compute. reflexivity. Qed.

Example sha1_two_blocks :
  sha1_hex "abcdbcdecdefdefgefghfghighijhijkijkljklmklmnlmnomnopnopq"
  = "84983e441c3bd26ebaae4aa1f95129e5e54670f1".
Proof. vm_compute. reflexivity. Qed.

(** ** Identity service *)

Lemma append_String (c : ascii) (s t : string) :
  String c s +:+ t = String c (s +:+ t).
Proof. reflexivity. Qed.

Lemma append_empty_l (t : string) : "" +:+ t = t.
Proof. reflexivity. Qed.

Lemma append_empty_r (s : string) : s +:+ "" = s.
Proof.
  induction s as [|c s IH]; [reflexivity |].
  rewrite append_String. f_equal. exact IH.
Qed.

Lemma contains_tail (c : ascii) (s : string) :
  contains "::" (String c s) = false -> contains "::" s = false.
Proof.
  cbn [contains]. destruct (String.prefix "::" (String c s)); [discriminate | auto].
Qed.

Lemma endswith_tail (c d : ascii) (s : string) :
  endswith (String c (String d s)) ":" = endswith (String d s) ":".
Proof.
  unfold endswith. cbn [String.length Nat.leb Nat.sub].
  rewrite Nat.sub_0_r. cbn [String.substring]. reflexivity.
Qed.

Lemma separable_tail (c : ascii) (s : string) :
  separable (String c s) -> separable s.
Proof.
  intros [H1 H2]. split; [now apply contains_tail in H1 |].
  destruct s as [|d s]; [reflexivity |]. now rewrite endswith_tail in H2.
Qed.

(** A separable part followed by nothing or by the separator starts with
    the separator only when it is empty. *)
Lemma separable_colon (s t : string) :
  separable s -> (t = "" \/ exists r, t = "::" +:+ r) ->
  forall r, s +:+ t = "::" +:+ r -> s = "".
Proof.
  intros [H1 H2] Ht r Heq. destruct s as [|c s]; [reflexivity |]. exfalso.
  rewrite append_String in Heq. injection Heq as -> Heq.
  destruct s as [|d s].
  - discriminate H2.
  - rewrite append_String in Heq. injection Heq as -> _.
    destruct s; vm_compute in H1; discriminate H1.
Qed.

(** A separable head is determined by the text when what follows it is
    empty or starts with the separator. *)
Lemma separable_head (a b ta tb : string) :
  separable a -> separable b ->
  (ta = "" \/ exists r, ta = "::" +:+ r) ->
  (tb = "" \/ exists r, tb = "::" +:+ r) ->
  a +:+ ta = b +:+ tb -> a = b /\ ta = tb.
Proof.
  revert b. induction a as [|c a IH]; intros b Ha Hb Hta Htb Heq.
  - rewrite append_empty_l in Heq. destruct Hta as [-> | [r ->]].
    + destruct b; [| discriminate]. auto.
    + symmetry in Heq. pose proof (separable_colon b tb Hb Htb r Heq) as ->.
      rewrite append_empty_l in Heq. auto.
  - destruct b as [|d b].
    + rewrite append_empty_l in Heq.
      destruct Htb as [-> | [r ->]]; [discriminate |].
      pose proof (separable_colon _ ta Ha Hta r Heq) as Hc. discriminate Hc.
    + rewrite !append_String in Heq. injection Heq as -> Heq.
      destruct (IH b (separable_tail _ _ Ha) (separable_tail _ _ Hb) Hta Htb Heq)
        as [-> ->]. auto.
Qed.

Lemma join_cons (sep p : string) (rest : list string) :
  join sep (p :: rest)
  = p +:+ match rest with [] => "" | _ => sep +:+ join sep rest end.
Proof.
  destruct rest; [| reflexivity].
  change (join sep [p]) with p. symmetry. apply append_empty_r.
Qed.

Lemma join_separable_inj (p q : list string) :
  p <> [] -> q <> [] -> Forall separable p -> Forall separable q ->
  join "::" p = join "::" q -> p = q.
Proof.
  revert q. induction p as [|x p IH]; intros [|y q] Hp Hq Fp Fq Heq;
    try congruence.
  rewrite !join_cons in Heq.
  inversion Fp as [|? ? Hx Fp']; inversion Fq as [|? ? Hy Fq']; subst.
  apply separable_head in Heq; auto.
  - destruct Heq as [-> Ht].
    destruct p as [|x' p], q as [|y' q]; try discriminate; [reflexivity |].
    f_equal. apply IH; auto; try discriminate.
    rewrite !append_String in Ht. now injection Ht.
  - destruct p; [left | right]; eauto.
  - destruct q; [left | right]; eauto.
Qed.

(** C3, as stated, fails: two different part sequences, none of whose parts
    contains the separator, get the same identifier, because a part that
    ends with a colon runs into the separator; and the call without parts
    gets the identifier of the call with one empty part. *)
Lemma stable_id_separator_counterexample :
  ["a:"; "b"] <> ["a"; ":b"]
  /\ Forall (fun part => contains "::" part = false) (["a:"; "b"] ++ ["a"; ":b"])
  /\ stable_id ["a:"; "b"] = stable_id ["a"; ":b"]
  /\ stable_id [] = stable_id [""].
Proof.
  split; [discriminate |]. split; [repeat constructor |].
  split; unfold stable_id; f_equal.
Qed.

(** C3, amended: for non-empty sequences of parts in which the separator
    "::" does not occur and which do not end with a colon, the joined text
    determines the parts, and two calls of [stable_id] return the same
    identifier exactly when the parts are the same, in the same order, or
    the SHA-1 digests of the two different joined texts collide. *)
Theorem stable_id_joined_digest (p q : list string)
  (Hp : p <> []) (Hq : q <> [])
  (Fp : Forall separable p) (Fq : Forall separable q) :
  (join "::" p = join "::" q <-> p = q)
  /\ (stable_id p = stable_id q
      <-> p = q \/ collide (join "::" p) (join "::" q)).
Proof.
  assert (Hj : join "::" p = join "::" q <-> p = q).
  { split; [now apply join_separable_inj | now intros ->]. }
  split; [exact Hj |]. unfold stable_id, collide. split.
  - intros Heq.
    destruct (string_dec (join "::" p) (join "::" q)) as [E | E].
    + left. now apply Hj.
    + right. auto.
  - intros [-> | [_ Heq]]; [reflexivity | exact Heq].
Qed.

Lemma stable_id_joined_digest_witness :
  stable_id ["C:/repo/a.py"; "call"; ":b"] = stable_id ["C:/repo/a.py"; "call"; "b"]
  <-> ["C:/repo/a.py"; "call"; ":b"] = ["C:/repo/a.py"; "call"; "b"]
      \/ collide (join "::" ["C:/repo/a.py"; "call"; ":b"])
                 (join "::" ["C:/repo/a.py"; "call"; "b"]).
Proof.
  refine (proj2
    (stable_id_joined_digest ["C:/repo/a.py"; "call"; ":b"]
       ["C:/repo/a.py"; "call"; "b"] _ _ _ _));
    try discriminate; repeat constructor.
Defined.

(** ** Complexity *)

Lemma len_cons {A} (x : A) (l : list A) : len (x :: l) = 1 + len l.
Proof. unfold len. simpl length. lia. Qed.

Lemma len_app {A} (l k : list A) : len (l ++ k) = len l + len k.
Proof. unfold len. rewrite length_app. lia. Qed.

Lemma complexity_fold (l : list ast_node) (acc : Z) :
  fold_left complexity_step l acc
  = acc + len (List.filter spec_decision_node l)
        + sumZ (map boolean_branches l)
        + len (List.filter is_operator_node l).
Proof.
  revert acc. induction l as [|x l IH]; intros acc.
  - unfold len. simpl. lia.
  - simpl fold_left. rewrite IH. clear IH.
    destruct x as [b|s|e|h|o|a|a|k|a|w];
      [ | destruct s | destruct e | | destruct o | | | | | ];
      simpl; rewrite ?len_cons; unfold complexity_step; simpl; lia.
Qed.

(** What [calculate_complexity] computes, for every node: the complexity
    the specification describes, plus one for every boolean operator node
    ([ast.And], [ast.Or]) that [ast.walk] yields. *)
Theorem calculate_complexity_operator_nodes (node : ast_node) :
  calculate_complexity node
  = spec_complexity node + len (List.filter is_operator_node (walk node)).
Proof.
  unfold calculate_complexity, spec_complexity. rewrite complexity_fold. lia.
Qed.

(** *** Operator nodes come with their expressions *)

Lemma len_nil {A} : len (@nil A) = 0.
Proof. reflexivity. Qed.

Lemma balanced_nil : balanced [].
Proof. reflexivity. Qed.

Lemma balanced_app l k : balanced l -> balanced k -> balanced (l ++ k).
Proof.
  unfold balanced. intros Hl Hk. rewrite !List.filter_app, !len_app. lia.
Qed.

Lemma balanced_cons x l :
  is_operator_node x = false -> is_BoolOp x = false -> balanced l ->
  balanced (x :: l).
Proof. unfold balanced. intros Hx Hy Hl. simpl. now rewrite Hx, Hy. Qed.

Lemma balanced_BoolOp lineno op values l :
  balanced l -> balanced (NExpr (BoolOp lineno op values) :: NBoolop op :: l).
Proof. unfold balanced. intros Hl. simpl. rewrite !len_cons. lia. Qed.

Lemma balanced_flat_map {A} (f : A -> list ast_node) (l : list A) :
  Forall (fun x => balanced (f x)) l -> balanced (flat_map f l).
Proof.
  induction 1; simpl; [apply balanced_nil | now apply balanced_app].
Qed.

Lemma balanced_map {A} (f : A -> ast_node) (l : list A) :
  (forall x, is_operator_node (f x) = false /\ is_BoolOp (f x) = false) ->
  balanced (map f l).
Proof.
  intros Hf. induction l as [|x l IH]; simpl; [apply balanced_nil |].
  destruct (Hf x). now apply balanced_cons.
Qed.

Lemma walk_expr_balanced : forall e, balanced (walk_expr e).
Proof.
  fix IH 1. intros e.
  assert (Hl : forall l, balanced (flat_map walk_expr l)).
  { intros l. apply balanced_flat_map.
    induction l as [|x l IHl]; constructor; [apply IH | exact IHl]. }
  destruct e as [l id|l v a|l f args kws|l c|l op vs|l a b c|l cs];
    cbn [walk_expr].
  - now apply balanced_cons.
  - apply balanced_cons; auto.
  - apply balanced_cons; auto.
    repeat apply balanced_app; auto.
    apply balanced_flat_map.
    induction kws as [|[arg v] kws IHk]; constructor; [| exact IHk].
    cbn [walk_keyword]. apply balanced_cons; auto.
  - now apply balanced_cons.
  - apply balanced_BoolOp. apply Hl.
  - apply balanced_cons; auto. repeat apply balanced_app; auto.
  - apply balanced_cons; auto.
Qed.

Lemma walk_opt_expr_balanced o : balanced (walk_opt_expr o).
Proof. destruct o; [apply walk_expr_balanced | apply balanced_nil]. Qed.

Lemma walk_exprs_balanced l : balanced (flat_map walk_expr l).
Proof.
  apply balanced_flat_map, Forall_forall. intros e _. apply walk_expr_balanced.
Qed.

Lemma walk_keyword_balanced k : balanced (walk_keyword k).
Proof.
  destruct k. cbn [walk_keyword]. apply balanced_cons; auto.
  apply walk_expr_balanced.
Qed.

Lemma walk_arg_balanced a : balanced (walk_arg a).
Proof. apply balanced_cons; auto. apply walk_opt_expr_balanced. Qed.

Lemma walk_opt_arg_balanced o : balanced (walk_opt_arg o).
Proof. destruct o; [apply walk_arg_balanced | apply balanced_nil]. Qed.

Lemma walk_arguments_balanced a : balanced (walk_arguments a).
Proof.
  apply balanced_cons; auto.
  repeat apply balanced_app;
    try apply walk_opt_arg_balanced; try apply walk_exprs_balanced;
    apply balanced_flat_map, Forall_forall; intros x _;
    first [apply walk_arg_balanced | apply walk_opt_expr_balanced].
Qed.

Lemma walk_withitem_balanced w : balanced (walk_withitem w).
Proof.
  apply balanced_cons; auto.
  apply balanced_app; [apply walk_expr_balanced | apply walk_opt_expr_balanced].
Qed.

Lemma walk_stmt_balanced : forall s, balanced (walk_stmt s).
Proof.
  fix IH 1. intros s.
  assert (Hl : forall l, balanced (flat_map walk_stmt l)).
  { intros l. apply balanced_flat_map.
    induction l as [|x l IHl]; constructor; [apply IH | exact IHl]. }
  destruct s; cbn [walk_stmt]; (apply balanced_cons; [reflexivity | reflexivity |]);
    repeat first [apply walk_arguments_balanced | apply balanced_app];
    try apply Hl; try apply walk_expr_balanced; try apply walk_opt_expr_balanced;
    try apply walk_exprs_balanced;
    try (apply balanced_flat_map, Forall_forall; intros x _;
         first [apply walk_keyword_balanced | apply walk_withitem_balanced]);
    try (apply balanced_map; intros x; split; reflexivity).
  - apply balanced_flat_map.
    induction handlers as [|[ty nm bd] handlers IHh]; constructor; [| exact IHh].
    cbn [walk_handler]. apply balanced_cons; auto.
    apply balanced_app; [apply walk_opt_expr_balanced | apply Hl].
  - apply balanced_flat_map.
    induction children as [|[e|s] children IHc]; constructor; try exact IHc.
    + apply walk_expr_balanced.
    + apply IH.
Qed.

Lemma operand_count_split (l : list ast_node) :
  sumZ (map operand_count l)
  = sumZ (map boolean_branches l) + len (List.filter is_BoolOp l).
Proof.
  induction l as [|x l IH]; [reflexivity |].
  cbn [map sumZ fold_right] in *. fold (sumZ (map operand_count l)).
  fold (sumZ (map boolean_branches l)). rewrite IH.
  destruct x as [b|s|e|h|o|a|a|k|a|w]; try destruct e;
    cbn [List.filter is_BoolOp operand_count boolean_branches];
    rewrite ?len_cons; lia.
Qed.

(** In the walk of a statement every boolean operator node is the child of
    one boolean expression, so the surplus of [calculate_complexity] over
    the specification's count is the number of boolean expressions: a
    boolean expression of n operands adds n, where n - 1 is described. *)
Theorem calculate_complexity_of_statement (s : stmt) :
  calculate_complexity (NStmt s)
  = 1 + len (List.filter spec_decision_node (walk (NStmt s)))
      + sumZ (map operand_count (walk (NStmt s))).
Proof.
  unfold calculate_complexity. rewrite complexity_fold, operand_count_split.
  pose proof (walk_stmt_balanced s) as Hb. unfold balanced in Hb.
  cbn [walk]. lia.
Qed.

(** C1 at [def f(a, b): return a and b]: the specification gives 2 (one, plus
    two operands less one); the code records 3, because the operator node of
    the boolean expression is counted as well. *)
Theorem complexity_counts_boolean_operator_twice :
  spec_complexity (NStmt and_function) = 2
  /\ calculate_complexity (NStmt and_function) = 3
  /\ complexity (_compute_metrics (H := plain_lib) and_function) = 3.
Proof. vm_compute. auto. Qed.

(** ** Decorator edges *)

(** C2 at a function decorated on the line above its [def]: the Decorates
    edge is emitted, its source id is the id of no emitted node, although
    the decorator's node is emitted (under the id built from the
    decorator's own line). *)
Theorem decorates_edge_from_unknown_node :
  exists ns es st e d,
    extract_file (H := plain_lib) 100 ["repo"] decorated_unit
      = Returned (ns, es, st)
    /\ es !! 1%nat = Some e
    /\ has_type "DECORATES" e = true
    /\ refers_to_nodeb ns "from_id" e = false
    /\ refers_to_nodeb ns "to_id" e = true
    /\ ns !! 1%nat = Some d
    /\ has_type "Decorator" d = true
    /\ str_field "name" d = Some "dec"
    /\ str_field "id" d
       = Some (stable_id [stable_id ["/repo/m.py"]; "decorator"; "dec"; "1"])
    /\ str_field "from_id" e
       = Some (stable_id [stable_id ["/repo/m.py"]; "decorator"; "dec"; "2"]).
Proof.
  do 5 eexists. split; [vm_compute; reflexivity |].
  vm_compute. repeat split; reflexivity.
Qed.

(** ** Imports *)

(** The id of an Import node depends only on the file, the imported target
    and the line: two aliases of one import statement that name the same
    target get the same id, whatever they are bound to. *)
Lemma import_ids_depend_on_target_only `{PyLib}
  (lineno level : Z) (module : option string) (name : string)
  (as1 as2 : option string) (self : Extractor) :
  as1 <> as2 ->
  exists n1 n2,
    nodes (visit_ImportFrom_names lineno module
             [Alias name as1; Alias name as2] level self)
      = nodes self ++ [n1; n2]
    /\ n1 <> n2
    /\ has_type "Import" n1 = true /\ has_type "Import" n2 = true
    /\ dict_get "id" n1 = dict_get "id" n2.
Proof.
  intros Has. do 2 eexists. split.
  - unfold visit_ImportFrom_names. simpl fold_left. simpl nodes.
    rewrite <- app_assoc. reflexivity.
  - split; [| repeat split].
    intros Heq. apply Has.
    assert (Hv : vopt as1 = vopt as2).
    { pose proof (f_equal (dict_get "alias") Heq) as Hd.
      vm_compute in Hd. congruence. }
    destruct as1, as2; simpl in Hv; congruence.
Qed.

(** C10: node ids are not unique within one extraction.  For
    [from os import path, path as p] the extractor emits two different
    Import node records with one id, the digest of the file id, the target
    [os.path] and the line. *)
Theorem import_node_ids_not_unique :
  exists ns es st n1 n2,
    extract_file (H := plain_lib) 100 ["repo"] double_import_unit
      = Returned (ns, es, st)
    /\ ns !! 1%nat = Some n1 /\ ns !! 2%nat = Some n2
    /\ n1 <> n2
    /\ has_type "Import" n1 = true /\ has_type "Import" n2 = true
    /\ str_field "id" n1
       = Some (stable_id [stable_id ["/repo/m.py"]; "import"; "os.path"; "1"])
    /\ str_field "id" n2 = str_field "id" n1.
Proof.
  do 5 eexists. split; [vm_compute; reflexivity |].
  split; [reflexivity |]. split; [reflexivity |].
  split; [discriminate |]. vm_compute. auto.
Qed.

(** ** Default exclusions *)

(** C9 at a run without [--exclude]: [main] passes the empty list, so the
    default lists of [find_python_files] and [build_directory_tree] are not
    used; the files under [venv], [build] and [__pycache__] are analysed and
    these directories get nodes.  Only the hidden directory is left out.
    Called without an exclusion list, the two functions do apply their
    defaults, which differ: [find_python_files] keeps [build]. *)
Theorem run_without_exclude_keeps_default_directories :
  exclude_argument None = []
  /\ find_python_files ["repo"] sample_repo (Some (exclude_argument None))
     = [["repo"; "setup.py"]; ["repo"; "venv"; "site.py"];
        ["repo"; "build"; "gen.py"]; ["repo"; "src"; "app.py"];
        ["repo"; "src"; "__pycache__"; "app.py"]]
  /\ map (str_field "name")
       (tree_nodes (build_directory_tree ["repo"] sample_repo
                      (Some (exclude_argument None))))
     = [Some "repo"; Some "venv"; Some "build"; Some "src"; Some "__pycache__"]
  /\ (exists o,
        main_analysis (H := plain_lib) sample_world 100 ["repo"] no_output
          None false = Returned (true, o)
        /\ (stats_json o ≫= dict_get "total_files") = Some (VInt 5)
        /\ (map (str_field "path") <$> nodes_jsonl o)
           = Some [Some "/repo"; Some "/repo/venv"; Some "/repo/build";
                   Some "/repo/src"; Some "/repo/src/__pycache__";
                   Some "/repo/setup.py"; Some "/repo/venv/site.py";
                   Some "/repo/build/gen.py"; Some "/repo/src/app.py";
                   Some "/repo/src/__pycache__/app.py"])
  /\ find_python_files ["repo"] sample_repo None
     = [["repo"; "setup.py"]; ["repo"; "build"; "gen.py"];
        ["repo"; "src"; "app.py"]]
  /\ map (str_field "name")
       (tree_nodes (build_directory_tree ["repo"] sample_repo None))
     = [Some "repo"; Some "src"].
Proof.
  split; [reflexivity |]. split; [vm_compute; reflexivity |].
  split; [vm_compute; reflexivity |]. split.
  - eexists. split; [vm_compute; reflexivity |].
    split; vm_compute; reflexivity.
  - split; vm_compute; reflexivity.
Qed.

(** ** The extractor keeps its state well formed *)

Lemma node_ids_app (l k : list record) : node_ids (l ++ k) = node_ids l ++ node_ids k.
Proof. unfold node_ids. apply omap_app. Qed.

Lemma known_prefix (l l' : list record) id : l `prefix_of` l' -> known l id -> known l' id.
Proof.
  intros [k ->] H. unfold known in *. rewrite node_ids_app. apply elem_of_app. auto.
Qed.

Lemma known_new (l : list record) (n : record) id :
  str_field "id" n = Some id -> known (l ++ [n]) id.
Proof.
  intros H. unfold known. rewrite node_ids_app. apply elem_of_app. right.
  unfold node_ids. simpl. rewrite H. constructor.
Qed.

Lemma refers_prefix (l l' : list record) k e :
  l `prefix_of` l' -> refers_to_node l k e -> refers_to_node l' k e.
Proof. intros Hp (id & H1 & H2). exists id. split; auto. eapply known_prefix; eauto. Qed.

Lemma edge_ok_prefix (l l' : list record) e :
  l `prefix_of` l' -> edge_ok l e -> edge_ok l' e.
Proof.
  intros Hp (H1 & H2 & H3). repeat split.
  - intros H. eapply refers_prefix; eauto.
  - intros H. eapply refers_prefix; eauto.
  - intros H. destruct (H3 H) as [H4 | H4]; [left | right]; auto.
    eapply refers_prefix; eauto.
Qed.

Lemma grows_refl s : grows s s.
Proof. repeat split; reflexivity. Qed.

Lemma grows_trans s1 s2 s3 : grows s1 s2 -> grows s2 s3 -> grows s1 s3.
Proof.
  intros (A1 & A2 & A3) (B1 & B2 & B3). repeat split.
  - etransitivity; eauto.
  - etransitivity; eauto.
  - congruence.
Qed.

Lemma good_refl s : good s s.
Proof. split; [apply grows_refl | auto]. Qed.

Lemma good_trans s1 s2 s3 : good s1 s2 -> good s2 s3 -> good s1 s3.
Proof. intros [A1 A2] [B1 B2]. split; [eapply grows_trans; eauto | auto]. Qed.

Lemma wf_more_nodes s (k : list record) :
  wf s -> wf (set_nodes (fun l => l ++ k) s).
Proof.
  intros [H1 H2 H3 H4 H5].
  assert (Hp : nodes s `prefix_of` nodes s ++ k) by (eexists; reflexivity).
  constructor; simpl.
  - eapply known_prefix; eauto.
  - eapply Forall_impl; [exact H2 |]. intros x. apply known_prefix; auto.
  - intros fn Hf. eapply known_prefix; eauto.
  - intros key id Hf. eapply known_prefix; eauto.
  - eapply Forall_impl; [exact H5 |]. intros x. apply edge_ok_prefix; auto.
Qed.

Lemma good_append_node n s : good s (append_node n s).
Proof.
  split.
  - repeat split; simpl; try reflexivity. eexists; reflexivity.
  - apply wf_more_nodes.
Qed.

Lemma good_append_edge e s :
  (wf s -> edge_ok (nodes s) e) -> good s (append_edge e s).
Proof.
  intros He. split.
  - repeat split; simpl; try reflexivity. eexists; reflexivity.
  - intros Hw. pose proof Hw as [H1 H2 H3 H4 H5]. constructor; simpl; auto.
    apply Forall_app. split; auto.
Qed.

Lemma good_bump key s : good s (bump key s).
Proof. split; [repeat split; reflexivity | intros []; constructor; auto]. Qed.

Lemma good_set_imports_map f s : good s (set_imports_map f s).
Proof. split; [repeat split; reflexivity | intros []; constructor; auto]. Qed.

Lemma good_set_scope_vars f s : good s (set_scope_vars f s).
Proof. split; [repeat split; reflexivity | intros []; constructor; auto]. Qed.

Lemma good_define k id s :
  (wf s -> known (nodes s) id) ->
  good s (set_defined_names (fun m => <[k := id]> m) s).
Proof.
  intros Hk. split; [repeat split; reflexivity |].
  intros Hw. pose proof Hw as [H1 H2 H3 H4 H5]. constructor; simpl; auto.
  intros key id'. rewrite lookup_insert. case_decide.
  - intros [= <-]. auto.
  - apply H4.
Qed.

Lemma good_fold {A} (f : Extractor -> A -> Extractor) (l : list A) s :
  (forall s a, good s (f s a)) -> good s (fold_left f l s).
Proof.
  intros Hf. revert s. induction l as [|a l IH]; intros s; simpl.
  - apply good_refl.
  - eapply good_trans; [apply Hf | apply IH].
Qed.

Lemma refers_intro ns k e id :
  dict_get k e = Some (VStr id) -> known ns id -> refers_to_node ns k e.
Proof. intros H1 H2. exists id. auto. Qed.

Lemma edge_ok_direct ns e :
  refers_to_node ns "from_id" e -> refers_to_node ns "to_id" e -> edge_ok ns e.
Proof. intros H1 H2. repeat split; auto. Qed.

Lemma known_current_scope s : wf s -> known (nodes s) (_get_current_scope s).
Proof.
  intros [H1 H2 _ _ _]. unfold _get_current_scope.
  destruct (last (current_scope_stack s)) as [x|] eqn:E; auto.
  rewrite Forall_forall in H2. apply H2. apply last_Some in E as [l ->].
  apply elem_of_app. right. constructor.
Qed.

Lemma good_define_node k id n s :
  str_field "id" n = Some id ->
  good s (append_node n (set_defined_names (fun m => <[k := id]> m) s)).
Proof.
  intros Hid.
  change (good s (set_defined_names (fun m => <[k := id]> m) (append_node n s))).
  eapply good_trans; [apply good_append_node |].
  apply good_define. intros _. simpl. now apply known_new.
Qed.

Lemma good_fold_inv {A} (I : Extractor -> Prop)
  (f : Extractor -> A -> Extractor) (l : list A) s :
  (forall s a, I s -> good s (f s a) /\ I (f s a)) ->
  I s -> good s (fold_left f l s) /\ I (fold_left f l s).
Proof.
  intros Hf. revert s. induction l as [|a l IH]; intros s Hi; simpl.
  - split; [apply good_refl | assumption].
  - destruct (Hf s a Hi) as [Hg Hi']. destruct (IH _ Hi') as [Hg' Hi''].
    split; [eapply good_trans; eauto | assumption].
Qed.

Ltac good_step :=
  lazymatch goal with
  | |- good ?s ?s => apply good_refl
  | |- good _ (bump _ _) => eapply good_trans; [| apply good_bump]
  | |- good _ (append_node _ (set_defined_names _ _)) =>
      eapply good_trans; [| apply good_define_node; reflexivity]
  | |- good _ (append_node _ _) => eapply good_trans; [| apply good_append_node]
  | |- good _ (set_imports_map _ _) => eapply good_trans; [| apply good_set_imports_map]
  | |- good _ (set_scope_vars _ _) => eapply good_trans; [| apply good_set_scope_vars]
  | |- good _ (append_edge _ _) =>
      eapply good_trans; [| apply good_append_edge; intros Hw]
  | |- good _ (set_defined_names _ _) =>
      eapply good_trans; [| apply good_define; intros Hw]
  end.


Lemma known_single (n : record) id : str_field "id" n = Some id -> known [n] id.
Proof. intros H. unfold known, node_ids. simpl. rewrite H. constructor. Qed.

Lemma known_app_l (l k : list record) id : known l id -> known (l ++ k) id.
Proof. intros H. unfold known in *. rewrite node_ids_app. apply elem_of_app. auto. Qed.

Lemma known_app_r (l k : list record) id : known k id -> known (l ++ k) id.
Proof. intros H. unfold known in *. rewrite node_ids_app. apply elem_of_app. auto. Qed.

Ltac solve_known :=
  simpl nodes;
  first [ assumption
        | apply known_single; reflexivity
        | apply known_app_r; solve_known
        | apply known_app_l; solve_known ].

Ltac from_wf Hw :=
  first [ exact (wf_file _ Hw)
        | exact (known_current_scope _ Hw) ].

Lemma good_fold_snd {A B} (f : B * Extractor -> A -> B * Extractor)
  (l : list A) (acc : B * Extractor) :
  (forall acc a, good acc.2 (f acc a).2) -> good acc.2 (fold_left f l acc).2.
Proof.
  intros Hf. revert acc. induction l as [|a l IH]; intros acc; simpl.
  - apply good_refl.
  - eapply good_trans; [apply Hf | apply IH].
Qed.

Arguments stable_id : simpl never.
Arguments str_int : simpl never.

Section Handlers.

Context `{PyLib}.

Lemma good_visit_Import_names lineno names s :
good s (visit_Import_names lineno names s).
Proof.
unfold visit_Import_names. apply good_fold. clear. intros s a.
cbv zeta. repeat good_step.
apply edge_ok_direct; (eapply refers_intro; [reflexivity |]).
- from_wf Hw.
- solve_known.
Qed.

Lemma good_visit_ImportFrom_names lineno module names level s :
good s (visit_ImportFrom_names lineno module names level s).
Proof.
unfold visit_ImportFrom_names. cbv zeta. apply good_fold. clear. intros s a.
repeat good_step.
apply edge_ok_direct; (eapply refers_intro; [reflexivity |]).
- from_wf Hw.
- solve_known.
Qed.

Lemma good_extract_decorators decorator_list s :
good s (_extract_decorators decorator_list s).2.
Proof.
unfold _extract_decorators.
apply (good_fold_snd _ decorator_list ([], s)). clear.
intros [decorators s] dec. cbv zeta. simpl.
destruct (dec_name (decorator_info dec)) as [name|]; [| apply good_refl].
destruct (nonempty name); [| apply good_refl].
simpl. repeat good_step.
Qed.

Lemma good_record_flow edge_type lineno e s :
good s (record_flow edge_type lineno e s).
Proof.
unfold record_flow.
destruct e as [e|]; [| apply good_refl].
destruct (current_function s) as [fn|] eqn:Ef; [| apply good_refl].
destruct (nonempty fn) eqn:En; [| apply good_refl].
destruct (_safe_unparse e) as [text|]; [| apply good_refl].
destruct (nonempty text); [| apply good_refl].
repeat good_step.
repeat split.
- intros _. eapply refers_intro; [reflexivity |].
  eapply wf_function; eauto.
- intros Hc. exfalso. apply Hc. reflexivity.
- intros _. right. split; [reflexivity | eauto].
Qed.

Lemma good_record_call lineno func args keywords s :
good s (record_call lineno func args keywords s).
Proof.
unfold record_call. cbv zeta.
destruct (match func with
          | Name _ id => Some id
          | Attribute _ _ _ => Some (_get_full_name func)
          | _ => None
          end) as [callee|]; [| apply good_refl].
destruct (nonempty callee && nonempty (_get_current_scope s));
  [| apply good_refl].
repeat good_step.
destruct (defined_names s !! split_head "." callee) as [t|] eqn:Et.
- destruct (nonempty t) eqn:En.
  + apply edge_ok_direct; (eapply refers_intro; [reflexivity |]).
    * from_wf Hw.
    * eapply wf_names; eauto.
  + repeat split.
    * intros _. eapply refers_intro; [reflexivity | from_wf Hw].
    * intros Hc. exfalso. apply Hc. reflexivity.
    * intros _. right. split; [reflexivity | eauto].
- repeat split.
  + intros _. eapply refers_intro; [reflexivity | from_wf Hw].
  + intros Hc. exfalso. apply Hc. reflexivity.
  + intros _. right. split; [reflexivity | eauto].
Qed.

Lemma for_each_good_inv {A} (I : Extractor -> Prop) (f : A -> Visit)
(l : list A) :
(forall x s, I s -> good s (f x s).1 /\ I (f x s).1) ->
forall s, I s -> good s (for_each f l s).1 /\ I (for_each f l s).1.
Proof.
intros Hf. induction l as [|x l IH]; intros s Hi; simpl.
- split; [apply good_refl | assumption].
- destruct (Hf x s Hi) as [Hg Hi']. destruct (f x s) as [s1 [e|]]; [auto |].
  destruct (IH _ Hi') as [Hg' Hi'']. split; [| assumption].
  eapply good_trans; eauto.
Qed.

Lemma good_record_assign lineno targets value s :
good s (record_assign lineno targets value s).1.
Proof.
unfold record_assign. cbv zeta.
apply (for_each_good_inv
         (fun s' => _get_current_scope s' = _get_current_scope s
                    /\ file_id s' = file_id s)); [| auto].
clear. intros target s' [Hs Hf].
destruct target; try (split; [apply good_refl | auto]).
rewrite <- Hs, <- Hf.
match goal with
| |- context [match ?X with Returned _ => _ | Raised _ => _ end] =>
    destruct X as [[value_str value_type]|e]
end; [| split; [apply good_refl | auto]].
cbn [fst]. split; [| split; reflexivity].
repeat good_step.
- apply edge_ok_direct; (eapply refers_intro; [reflexivity |]).
  + from_wf Hw.
  + solve_known.
- solve_known.
Qed.

Lemma good_known s s' id : good s s' -> known (nodes s) id -> known (nodes s') id.
Proof. intros [(Hp & _) _]. now apply known_prefix. Qed.

Lemma good_fold_known {A} id (f : Extractor -> A -> Extractor) (l : list A) s :
(forall s a, known (nodes s) id -> good s (f s a)) ->
known (nodes s) id -> good s (fold_left f l s).
Proof.
intros Hf Hk.
apply (good_fold_inv (fun s => known (nodes s) id)); [| assumption].
intros s' a Hk'. split; [auto |]. eapply good_known; eauto.
Qed.

Lemma fold_snd_inv {A B} (P : Extractor -> Prop)
(f : B * Extractor -> A -> B * Extractor) (l : list A) (acc : B * Extractor) :
(forall acc a, P acc.2 -> P (f acc a).2) -> P acc.2 -> P (fold_left f l acc).2.
Proof.
intros Hf. revert acc. induction l as [|a l IH]; intros acc Hp; simpl; auto.
Qed.

Lemma extract_decorators_frame decorator_list s :
current_scope_stack (_extract_decorators decorator_list s).2
  = current_scope_stack s
/\ file_id (_extract_decorators decorator_list s).2 = file_id s.
Proof.
unfold _extract_decorators.
apply (fold_snd_inv (fun s' => current_scope_stack s' = current_scope_stack s
                               /\ file_id s' = file_id s)); [| auto].
clear. intros [decorators s'] dec [E1 E2]. simpl in *.
destruct (dec_name (decorator_info dec)) as [name|]; [| auto].
destruct (nonempty name); auto.
Qed.

Lemma good_record_class lineno end_lineno name bases keywords body decorator_list s :
let r := record_class
           (ClassDef lineno end_lineno name bases keywords body decorator_list) s in
good s r.2 /\ known (nodes r.2) r.1.
Proof.
unfold record_class. cbv zeta. cbn [fst snd].
set (class_id := stable_id [path_str (file_path s); "class"; name; str_int lineno]).
match goal with
| |- good _ (bump _ (fold_left _ _ (append_edge _ ?X0))) /\ _ => set (X := X0)
end.
assert (Hk : known (nodes X) class_id) by (subst X; solve_known).
assert (HX : good s X) by (subst X; repeat good_step).
match goal with
| |- good _ (bump _ ?Y0) /\ _ => assert (HY : good X Y0)
end.
{ eapply good_trans; [| apply (good_fold_known class_id)].
  - good_step. 2: { apply edge_ok_direct; (eapply refers_intro; [reflexivity |]).
                    - from_wf Hw.
                    - exact Hk. }
    apply good_refl.
  - clear. intros s' base Hk.
    destruct (defined_names s' !! base) as [target|] eqn:Et.
    + good_step; [apply good_refl |].
      apply edge_ok_direct; (eapply refers_intro; [reflexivity |]); auto.
      eapply wf_names; eauto.
    + good_step; [apply good_refl |].
      repeat split.
      * intros _. eapply refers_intro; [reflexivity | auto].
      * intros Hc. exfalso. apply Hc. reflexivity.
      * intros _. right. split; [reflexivity | eauto].
  - simpl. exact Hk. }
split.
- eapply good_trans; [exact HX |]. eapply good_trans; [exact HY |]. apply good_bump.
- eapply good_known; [| exact Hk].
  eapply good_trans; [exact HY | apply good_bump].
Qed.

Lemma current_scope_frame s s' :
current_scope_stack s' = current_scope_stack s -> file_id s' = file_id s ->
_get_current_scope s' = _get_current_scope s.
Proof. intros E1 E2. unfold _get_current_scope. now rewrite E1, E2. Qed.

Lemma good_record_function is_async lineno end_lineno name fargs body
decorator_list returns s :
let r := _record_function
           (FunctionDef is_async lineno end_lineno name fargs body
              decorator_list returns) s in
good s r.2 /\ known (nodes r.2) r.1.
Proof.
unfold _record_function. cbv zeta.
pose proof (good_extract_decorators decorator_list s) as Hd.
pose proof (extract_decorators_frame decorator_list s) as [Hf1 Hf2].
destruct (_extract_decorators decorator_list s) as [decorators s1].
cbn [fst snd] in *.
set (fn_id := stable_id [file_id s; "function"; name; str_int lineno]).
match goal with
| |- good _ (bump _ (fold_left _ _ (fold_left _ _ (append_edge _ ?X0)))) /\ _ =>
    set (X := X0)
end.
assert (Hk : known (nodes X) fn_id) by (subst X; solve_known).
assert (HX : good s X).
{ eapply good_trans; [exact Hd |]. subst X. repeat good_step. }
match goal with
| |- good _ (bump _ (fold_left _ _ ?Z0)) /\ _ => assert (HZ : good X Z0)
end.
{ eapply good_trans; [| apply (good_fold_known fn_id)].
  - good_step; [apply good_refl |].
    apply edge_ok_direct; (eapply refers_intro; [reflexivity |]).
    + rewrite <- (current_scope_frame s s1 Hf1 Hf2). from_wf Hw.
    + exact Hk.
  - clear. intros s' param Hk. repeat good_step.
    apply edge_ok_direct; (eapply refers_intro; [reflexivity |]).
    + eapply good_known; [apply good_append_node | exact Hk].
    + solve_known.
  - simpl. exact Hk. }
match goal with
| |- good _ (bump _ ?Y0) /\ _ => assert (HY : good X Y0)
end.
{ eapply good_trans; [exact HZ |]. apply (good_fold_known fn_id).
  - clear. intros s' dec Hk.
    destruct (dec_name dec) as [dname|]; [| apply good_refl].
    destruct (nonempty dname); [| apply good_refl].
    good_step; [apply good_refl |].
    repeat split.
    + intros Hc. discriminate Hc.
    + intros _. eapply refers_intro; [reflexivity | exact Hk].
    + intros Hc. discriminate Hc.
  - eapply good_known; [exact HZ | exact Hk]. }
split.
- eapply good_trans; [exact HX |]. eapply good_trans; [exact HY |]. apply good_bump.
- eapply good_known; [| exact Hk].
  eapply good_trans; [exact HY | apply good_bump].
Qed.

Lemma wf_pop s : wf s -> wf (pop_scope s).
Proof.
intros [H1 H2 H3 H4 H5]. constructor; simpl; auto.
rewrite Forall_forall in *. intros x Hx. apply H2.
destruct (current_scope_stack s) as [|a l] using rev_ind; [exact Hx |].
rewrite removelast_last in Hx. apply elem_of_app. auto.
Qed.

Lemma good_enter_function s s1 id :
good s s1 -> known (nodes s1) id ->
good s (push_scope id (set_current_function (Some id) s1)).
Proof.
intros [Hg Hw] Hk. split; [exact Hg |].
intros Hs. destruct (Hw Hs) as [H1 H2 H3 H4 H5]. constructor; simpl; auto.
- apply Forall_app. split; auto.
- intros fn [= <-]. exact Hk.
Qed.

Lemma good_enter_class s s1 id cls :
good s s1 -> known (nodes s1) id ->
good s (push_scope id (set_current_class cls s1)).
Proof.
intros [Hg Hw] Hk. split; [exact Hg |].
intros Hs. destruct (Hw Hs) as [H1 H2 H3 H4 H5]. constructor; simpl; auto.
apply Forall_app. split; auto.
Qed.

Lemma good_leave_function s s' :
good s s' -> good s (set_current_function (current_function s) (pop_scope s')).
Proof.
intros [Hg Hw]. split; [exact Hg |].
intros Hs. destruct (wf_pop _ (Hw Hs)) as [H1 H2 H3 H4 H5].
constructor; simpl; auto.
intros fn Hfn. destruct Hg as (Hp & _). eapply known_prefix; [exact Hp |].
eapply wf_function; eauto.
Qed.

Lemma good_leave_class s s' cls :
good s s' -> good s (set_current_class cls (pop_scope s')).
Proof.
intros [Hg Hw]. split; [exact Hg |].
intros Hs. destruct (wf_pop _ (Hw Hs)) as [H1 H2 H3 H4 H5].
constructor; simpl; auto.
Qed.

Lemma for_each_good {A} (f : A -> Visit) (l : list A) :
(forall x s, good s (f x s).1) -> forall s, good s (for_each f l s).1.
Proof.
intros Hf. induction l as [|x l IH]; intros s; simpl.
- apply good_refl.
- pose proof (Hf x s) as Hx. destruct (f x s) as [s1 [e|]]; [exact Hx |].
  eapply good_trans; [exact Hx | apply IH].
Qed.

Lemma and_then_good (m : Visit) (k : Extractor -> Extractor) s0 s :
good s0 (m s).1 -> (forall s', good s0 s' -> good s0 (k s')) ->
good s0 (and_then m k s).1.
Proof.
intros Hm Hk. unfold and_then. destruct (m s) as [s1 [e|]]; simpl in *; auto.
Qed.

Lemma visit_S depth node self :
visit (S depth) node self
= let generic_visit : Visit := for_each (visit depth) (iter_child_nodes node) in
  match node with
  | NStmt (Import lineno names) =>
      generic_visit (visit_Import_names lineno names self)
  | NStmt (ImportFrom lineno module names level) =>
      generic_visit (visit_ImportFrom_names lineno module names level self)
  | NStmt (FunctionDef _ _ _ _ _ _ _ _ as fn) =>
      let prev_function := current_function self in
      let '(fn_id, self) := _record_function fn self in
      let self := set_current_function (Some fn_id) self in
      let self := push_scope fn_id self in
      and_then generic_visit
        (fun self => set_current_function prev_function (pop_scope self))
        self
  | NStmt (ClassDef _ _ name _ _ _ _ as cls) =>
      let '(class_id, self) := record_class cls self in
      let prev_class := current_class self in
      let self := set_current_class (Some name) self in
      let self := push_scope class_id self in
      and_then generic_visit
        (fun self => set_current_class prev_class (pop_scope self))
        self
  | NStmt (Assign lineno targets value) =>
      match record_assign lineno targets value self with
      | (self, None) => generic_visit self
      | raised => raised
      end
  | NExpr (Call lineno func args keywords) =>
      generic_visit (record_call lineno func args keywords self)
  | NStmt (Raise lineno exc _) =>
      generic_visit (record_flow "RAISES" lineno exc self)
  | NStmt (Return lineno value) =>
      generic_visit (record_flow "RETURNS" lineno value self)
  | _ => generic_visit self
  end.
Proof. reflexivity. Qed.

Theorem visit_good depth : forall node s, good s (visit depth node s).1.
Proof.
induction depth as [|depth IH]; intros node s.
- apply good_refl.
- rewrite visit_S. cbv zeta.
  pose proof (fun n => for_each_good (visit depth) (iter_child_nodes n) IH) as Hg.
  destruct node as [b|st|e|h|o|a|a|k|a|w]; try apply Hg.
  + destruct st; try apply Hg.
    * pose proof (good_record_function is_async lineno end_lineno name fargs
                    body decorator_list returns s) as [Hr Hk].
      cbv zeta in Hr, Hk.
      destruct (_record_function _ s) as [fn_id s1]. cbn [fst snd] in *.
      apply and_then_good.
      -- eapply good_trans; [| apply Hg]. now apply good_enter_function.
      -- intros s' Hs'. now apply good_leave_function.
    * pose proof (good_record_class lineno end_lineno name bases keywords
                    body decorator_list s) as [Hr Hk].
      cbv zeta in Hr, Hk.
      destruct (record_class _ s) as [class_id s1]. cbn [fst snd] in *.
      apply and_then_good.
      -- eapply good_trans; [| apply Hg]. now apply good_enter_class.
      -- intros s' Hs'. now apply good_leave_class.
    * eapply good_trans; [apply good_record_flow | apply Hg].
    * match goal with
      | |- context [record_assign ?l ?t ?v s] =>
          pose proof (good_record_assign l t v s) as Ha;
          destruct (record_assign l t v s) as [s1 [e|]]
      end; [exact Ha | eapply good_trans; [exact Ha | apply Hg]].
    * eapply good_trans; [apply good_record_flow | apply Hg].
    * eapply good_trans; [apply good_visit_Import_names | apply Hg].
    * eapply good_trans; [apply good_visit_ImportFrom_names | apply Hg].
  + destruct e; try apply Hg.
    eapply good_trans; [apply good_record_call | apply Hg].
Qed.

End Handlers.

(** ** extract_file *)

Section ExtractFile.
Context `{PyLib}.

Lemma new_extractor_encodable repo_root path src :
has_surrogate (path_str path) = false ->
new_extractor repo_root path src
= Returned (mkExtractor repo_root path src [] [] [] None None ∅ ∅ ∅
              initial_stats (stable_id [path_str path])).
Proof. intros Hp. unfold new_extractor, encode_utf8. now rewrite Hp. Qed.

Lemma new_extractor_inv repo_root path src x :
new_extractor repo_root path src = Returned x ->
has_surrogate (path_str path) = false
/\ x = mkExtractor repo_root path src [] [] [] None None ∅ ∅ ∅
          initial_stats (stable_id [path_str path]).
Proof.
unfold new_extractor, encode_utf8.
destruct (has_surrogate (path_str path)); [discriminate |].
intros [= <-]. auto.
Qed.

Lemma extract_file_unfold limit repo_root u :
extract_file limit repo_root u
= match unit_text u, unit_tree u with
  | Returned src, Returned tree =>
      match first_state repo_root (unit_path u) src with
      | Raised e => Raised e
      | Returned start =>
          let s := (visit limit (NModule tree) start).1 in
          Returned (nodes s, edges s, stats s)
      end
  | _, _ => Returned ([], [], [])
  end.
Proof.
unfold extract_file, first_state.
destruct (unit_text u) as [src|]; [| reflexivity].
destruct (unit_tree u) as [tree|]; [| reflexivity].
destruct (new_extractor _ _ _) as [x|]; [| reflexivity].
destruct (record_file_node x) as [start|]; [| reflexivity].
cbv zeta. now destruct (visit limit (NModule tree) start).
Qed.

Lemma wf_file_node repo_root path src s :
first_state repo_root path src = Returned s ->
wf s /\ nodes s <> [] /\ edges s = [].
Proof.
unfold first_state.
destruct (new_extractor _ _ _) as [x|] eqn:Ex; [| discriminate].
apply new_extractor_inv in Ex as [_ ->].
unfold record_file_node.
destruct (relative_to _ _) as [rel|e]; [| discriminate].
intros [= <-]. split; [| split; [| reflexivity]].
- constructor; simpl.
  + apply known_single. reflexivity.
  + repeat constructor.
  + discriminate.
  + intros k id. rewrite lookup_empty. discriminate.
  + constructor.
- simpl. discriminate.
Qed.

Lemma record_file_node_under repo_root path src :
is_prefix_of repo_root path = true ->
has_surrogate (path_str path) = false ->
exists s, first_state repo_root path src = Returned s.
Proof.
intros Hu Hp. unfold first_state. rewrite new_extractor_encodable by exact Hp.
unfold record_file_node, relative_to. simpl. rewrite Hu. eauto.
Qed.

Theorem extract_file_well_formed limit repo_root u ns es st :
extract_file limit repo_root u = Returned (ns, es, st) ->
Forall (edge_ok ns) es.
Proof.
rewrite extract_file_unfold.
destruct (unit_text u) as [src|]; [| intros [= <- <- <-]; constructor].
destruct (unit_tree u) as [tree|]; [| intros [= <- <- <-]; constructor].
destruct (first_state _ _ _) as [s|] eqn:Es; [| discriminate].
apply wf_file_node in Es as (Hw & _).
pose proof (visit_good limit (NModule tree) s) as [_ Hg].
cbv zeta. intros [= <- <- <-]. apply wf_edges. auto.
Qed.

(** C8: every Calls, Raises, Returns or Inherits edge either has a [to_id]
  that is the id of a node of the same extraction, or has a [to_name] and
  no [to_id]. *)
Theorem reference_edges_have_a_target limit repo_root u ns es st
(Hex : extract_file limit repo_root u = Returned (ns, es, st)) :
Forall (fun e =>
  is_reference_edge e = true ->
  refers_to_node ns "to_id" e
  \/ (dict_get "to_id" e = None
      /\ exists name, dict_get "to_name" e = Some (VStr name))) es.
Proof.
apply extract_file_well_formed in Hex.
eapply Forall_impl; [exact Hex |].
intros e (_ & _ & He). exact He.
Qed.

(** The part of C2 that holds: but for the source of Decorates edges, every
  end of every edge is the id of an emitted node. *)
Theorem edges_refer_to_emitted_nodes limit repo_root u ns es st
(Hex : extract_file limit repo_root u = Returned (ns, es, st)) :
Forall (fun e =>
  (has_type "DECORATES" e = false -> refers_to_node ns "from_id" e)
  /\ (dict_get "to_id" e <> None -> refers_to_node ns "to_id" e)) es.
Proof.
apply extract_file_well_formed in Hex.
eapply Forall_impl; [exact Hex |].
intros e (H1 & H2 & _). auto.
Qed.

Lemma for_each_app {A} (f : A -> Visit) (l k : list A) s :
for_each f (l ++ k) s
= match for_each f l s with
  | (s1, None) => for_each f k s1
  | raised => raised
  end.
Proof.
revert s. induction l as [|x l IH]; intros s; simpl; [reflexivity |].
destruct (f x s) as [s1 [e|]]; [reflexivity | apply IH].
Qed.

(** What has been recorded when a fault occurs is kept: if the statements
  [body] are visited without a fault, then visiting [body ++ more] ends,
  with or without a fault, in a state that extends the one reached after
  [body]. *)
Lemma records_before_a_fault_are_kept depth body more s s1 :
visit (S depth) (NModule body) s = (s1, None) ->
grows s1 (visit (S depth) (NModule (body ++ more)) s).1.
Proof.
rewrite !visit_S. cbv zeta. simpl iter_child_nodes.
rewrite map_app, for_each_app. intros ->.
apply for_each_good. apply visit_good.
Qed.

Lemma first_nodes_kept limit tree repo_root path src start :
first_state repo_root path src = Returned start ->
nodes (visit limit (NModule tree) start).1 <> [].
Proof.
intros Hs. apply wf_file_node in Hs as (_ & Hne & _).
pose proof (visit_good limit (NModule tree) start) as [([k Hk] & _) _].
rewrite Hk. intros Hn. apply app_eq_nil in Hn as [Hn _]. auto.
Qed.

(** The only exceptions that leave [extract_file]. *)
Lemma extract_file_raised limit repo_root u e :
extract_file limit repo_root u = Raised e ->
parsed u = true
/\ (e = UnicodeEncodeError /\ has_surrogate (path_str (unit_path u)) = true
    \/ e = ValueError /\ is_prefix_of repo_root (unit_path u) = false).
Proof.
rewrite extract_file_unfold. unfold parsed.
destruct (unit_text u) as [src|]; [| discriminate].
destruct (unit_tree u) as [tree|]; [| discriminate].
unfold first_state, new_extractor, encode_utf8.
destruct (has_surrogate (path_str (unit_path u))).
- intros [= <-]. auto.
- unfold record_file_node, relative_to. simpl.
  destruct (is_prefix_of repo_root (unit_path u)); [discriminate |].
  intros [= <-]. auto.
Qed.

Lemma extract_file_returns limit repo_root u :
(parsed u = true ->
 is_prefix_of repo_root (unit_path u) = true
 /\ has_surrogate (path_str (unit_path u)) = false) ->
exists ns es st,
  extract_file limit repo_root u = Returned (ns, es, st)
  /\ (parsed u = false -> ns = [] /\ es = [] /\ st = [])
  /\ (forall src tree,
        unit_text u = Returned src -> unit_tree u = Returned tree ->
        exists start,
          first_state repo_root (unit_path u) src = Returned start
          /\ ns = nodes (visit limit (NModule tree) start).1
          /\ es = edges (visit limit (NModule tree) start).1
          /\ st = stats (visit limit (NModule tree) start).1
          /\ nodes start `prefix_of` ns
          /\ ns <> []).
Proof.
intros Hpath. rewrite extract_file_unfold. unfold parsed in *.
destruct (unit_text u) as [src|e1].
2: { exists [], [], []. repeat split; try discriminate. }
destruct (unit_tree u) as [tree|e2].
2: { exists [], [], []. repeat split; try discriminate. }
destruct (Hpath eq_refl) as [Hunder Hp].
destruct (record_file_node_under repo_root (unit_path u) src Hunder Hp)
  as [start Hs].
rewrite Hs. cbv zeta.
pose proof (visit_good limit (NModule tree) start) as [(Hp' & _) _].
apply wf_file_node in Hs as Hs'. destruct Hs' as (_ & Hne & _).
eexists _, _, _.
split; [reflexivity |]. split; [discriminate |].
intros src' tree' [= <-] [= <-]. exists start.
split; [exact Hs |]. do 3 (split; [reflexivity |]).
split; [exact Hp' |].
intros Hn. destruct Hp' as [k Hk]. rewrite Hn in Hk.
symmetry in Hk. apply app_eq_nil in Hk as [Hk _]. auto.
Qed.

(** One turn of the orchestrator's loop on a unit that could not be read or
  parsed adds one to the error count and nothing else. *)
Lemma process_file_unreadable w limit repo_path progress p :
parsed (mkUnit p (file_text w p) (file_tree w p)) = false ->
process_file w limit repo_path progress p = Returned (count_error progress).
Proof.
intros Hu. unfold process_file. rewrite extract_file_unfold.
unfold parsed in Hu. cbn [unit_text unit_tree] in *.
destruct (file_text w p) as [src|]; [| reflexivity].
destruct (file_tree w p) as [tree|]; [discriminate | reflexivity].
Qed.

Lemma process_files_app w limit repo_path (pre post : list Path) progress :
process_files w limit repo_path (pre ++ post) progress
= match process_files w limit repo_path pre progress with
  | Returned st1 => process_files w limit repo_path post st1
  | Raised e => Raised e
  end.
Proof.
revert progress. induction pre as [|p pre IH]; intros progress; simpl;
  [reflexivity |].
destruct (process_file w limit repo_path progress p); [apply IH | reflexivity].
Qed.

End ExtractFile.

(** ** The run goes on *)

Lemma fs_dir_ind' (P : fs_dir -> Prop) :
  (forall name subdirs files, Forall P subdirs -> P (Dir name subdirs files)) ->
  forall d, P d.
Proof.
  intros Hd. fix IH 1. intros [name subdirs files]. apply Hd.
  induction subdirs as [|sub subs IHs]; constructor; [apply IH | exact IHs].
Qed.

Lemma is_prefix_of_app (root x : Path) : is_prefix_of root (root ++ x) = true.
Proof.
  induction root as [|r root IH]; simpl; [reflexivity |].
  rewrite String.eqb_refl. exact IH.
Qed.

Lemma os_walk_paths keep d :
  forall dirpath,
    Forall (fun t => exists x, t.1.1 = dirpath ++ x) (os_walk keep dirpath d).
Proof.
  induction d as [name subdirs files IH] using fs_dir_ind'. intros dirpath.
  simpl. constructor; [exists []; simpl; now rewrite app_nil_r |].
  induction IH as [|sub subs Hsub _ IHs]; simpl; [constructor |].
  apply Forall_app. split; [| exact IHs].
  destruct (keep (fs_name sub)); [| constructor].
  eapply Forall_impl; [apply Hsub |].
  intros t [x Hx]. exists ([fs_name sub] ++ x). rewrite Hx.
  now rewrite <- app_assoc.
Qed.

Lemma find_python_files_under_root root fs exclude :
  Forall (fun p => is_prefix_of root p = true) (find_python_files root fs exclude).
Proof.
  unfold find_python_files.
  generalize (os_walk_paths
    (keep_dir match exclude with None => default_exclude_files | Some e => e end)
    fs root).
  generalize (os_walk (keep_dir match exclude with None => default_exclude_files | Some e => e end) root fs).
  intros l Hl. induction Hl as [|[[dirpath dirnames] filenames] l [x Hx] _ IH];
    simpl; [constructor |].
  apply Forall_app. split; [| exact IH].
  simpl in Hx. subst dirpath.
  apply Forall_forall. intros p Hp.
  apply list_elem_of_In, in_map_iff in Hp as (f & <- & _).
  rewrite <- app_assoc. apply is_prefix_of_app.
Qed.

(** ** Expressions *)

Lemma append_nonempty_r (s t : string) : nonempty t = true -> nonempty (s +:+ t) = true.
Proof.
  destruct s as [|c s]; [rewrite append_empty_l; auto |].
  rewrite append_String. reflexivity.
Qed.

Lemma hex_nonempty n x : nonempty (Sha1.hex (S n) x) = true.
Proof. simpl Sha1.hex. apply append_nonempty_r. reflexivity. Qed.

(** Identifiers are never empty, so the truth tests on them succeed. *)
Lemma stable_id_nonempty parts : nonempty (stable_id parts) = true.
Proof.
  unfold stable_id, sha1_hex, Sha1.hexdigest.
  destruct (Sha1.digest _) as [a b c d e].
  do 4 apply append_nonempty_r. apply hex_nonempty.
Qed.

Lemma expr_like_children n : expr_like n -> Forall expr_like (iter_child_nodes n).
Proof.
  destruct n as [b|st|e|h|o|a|a|k|a|w]; simpl; try contradiction; intros _.
  - destruct e; simpl; repeat (constructor; simpl; auto);
      repeat (apply Forall_app; split);
      try (apply Forall_forall; intros x Hx;
           apply list_elem_of_In, in_map_iff in Hx as (y & <- & _); exact I).
  - constructor.
  - destruct k. repeat constructor.
Qed.

Section Exprs.
Context `{PyLib}.

Lemma record_call_nodes lineno func args keywords s :
nodes (record_call lineno func args keywords s) = nodes s.
Proof.
unfold record_call. cbv zeta.
destruct (match func with
          | Name _ id => Some id
          | Attribute _ _ _ => Some (_get_full_name func)
          | _ => None
          end) as [callee|]; [| reflexivity].
destruct (nonempty callee && nonempty (_get_current_scope s)); reflexivity.
Qed.

Lemma for_each_nodes {A} (P : A -> Prop) (f : A -> Visit) (l : list A) :
(forall x s, P x -> nodes (f x s).1 = nodes s) ->
Forall P l -> forall s, nodes (for_each f l s).1 = nodes s.
Proof.
intros Hf Hl. induction Hl as [|x l Hx _ IH]; intros s; simpl; [reflexivity |].
pose proof (Hf x s Hx) as Hn. destruct (f x s) as [s1 [e|]]; simpl in *; [exact Hn |].
rewrite IH. exact Hn.
Qed.

(** Visiting an expression records no node. *)
Lemma visit_expr_nodes depth :
forall n s, expr_like n -> nodes (visit depth n s).1 = nodes s.
Proof.
induction depth as [|depth IH]; intros n s Hn; [reflexivity |].
rewrite visit_S. cbv zeta.
pose proof (fun s => for_each_nodes expr_like (visit depth) (iter_child_nodes n)
                       IH (expr_like_children n Hn) s) as Hg.
destruct n as [b|st|e|h|o|a|a|k|a|w]; try contradiction; try apply Hg.
destruct e; try apply Hg.
rewrite Hg. apply record_call_nodes.
Qed.
End Exprs.

(** ** Import aliases and calls *)

Section OsPath.
Context `{PyLib}.

Lemma record_call_p_join l1 l2 l3 args keywords s :
imports_map s !! "p" = Some "os.path" ->
defined_names s !! "p" = None ->
nonempty (_get_current_scope s) = true ->
record_call l1 (Attribute l2 (Name l3 "p") "join") args keywords s
= bump "calls"
    (append_edge
       [("type", VStr "CALLS");
        ("from_id", VStr (_get_current_scope s));
        ("to_name", VStr "p.join");
        ("lineno", VInt l1);
        ("resolved_name", VStr "os.path.join");
        ("num_args", VInt (len args));
        ("num_kwargs", VInt (len keywords));
        ("inferred", VBool true)] s).
Proof.
intros Hi Hd Hc. unfold record_call. cbv zeta.
change (_get_full_name (Attribute l2 (Name l3 "p") "join")) with "p.join".
change (split_head "." "p.join") with "p".
rewrite Hc, Hi, Hd. reflexivity.
Qed.

(** C7: a unit made of [from os import path as p] and a call [p.join(...)],
  whatever the arguments of the call, for a file under the root with a
  path that UTF-8 can encode (for any other file the extractor raises
  before the traversal). *)
Theorem os_path_alias_resolution limit root path text args keywords
(Hlimit : (3 <= limit)%nat)
(Hunder : is_prefix_of root path = true)
(Hpath : has_surrogate (path_str path) = false) :
exists ns es st imp call,
  extract_file limit root
    (mkUnit path (Returned text) (Returned (os_path_tree args keywords)))
    = Returned (ns, es, st)
  /\ List.filter (has_type "Import") ns = [imp]
  /\ str_field "name" imp = Some "path"
  /\ str_field "alias" imp = Some "p"
  /\ str_field "module" imp = Some "os"
  /\ str_field "full_name" imp = Some "os.path"
  /\ dict_get "is_stdlib" imp = Some (VBool true)
  /\ es !! 1%nat = Some call
  /\ has_type "CALLS" call = true
  /\ dict_get "lineno" call = Some (VInt 2)
  /\ str_field "to_name" call = Some "p.join"
  /\ str_field "resolved_name" call = Some "os.path.join".
Proof.
destruct limit as [|[|[|d]]]; try lia.
unfold extract_file. cbn [unit_text unit_tree unit_path].
rewrite new_extractor_encodable by exact Hpath.
unfold record_file_node, relative_to.
cbn [file_path repo_root]. rewrite Hunder.
match goal with
| |- context [visit _ _ ?s] => set (s0 := s)
end.
unfold os_path_tree.
rewrite visit_S. cbv zeta. cbn [iter_child_nodes map for_each].
rewrite (visit_S (S d)). cbv zeta. cbn [iter_child_nodes map for_each].
rewrite (visit_S d (NAlias _)). cbv zeta. cbn [iter_child_nodes for_each].
rewrite (visit_S (S d)). cbv zeta. cbn [iter_child_nodes map for_each].
rewrite (visit_S d (NExpr _)). cbv zeta.
set (s1 := visit_ImportFrom_names 1 (Some "os") [Alias "path" (Some "p")] 0 s0).
rewrite (record_call_p_join 2 2 2 args keywords s1);
  [| reflexivity | reflexivity | apply stable_id_nonempty].
match goal with
| |- context [for_each (visit d) ?l ?s] =>
    set (kids := l); set (s2 := s);
    pose proof (for_each_nodes expr_like (visit d) kids
                  (visit_expr_nodes d)
                  (expr_like_children (NExpr (Call 2 (Attribute 2 (Name 2 "p") "join")
                                                args keywords)) I) s2) as Hn;
    pose proof (for_each_good (visit d) kids (visit_good d) s2)
      as [(_ & [more He] & _) _];
    destruct (for_each (visit d) kids s2) as [s3 r]
end.
cbn [fst] in Hn, He.
destruct r as [e|]; (eexists _, _, _, _, _; split; [reflexivity |]);
  cbn [nodes edges]; rewrite Hn, He;
  (split; [reflexivity |]); do 5 (split; [reflexivity |]);
  (split; [reflexivity |]); repeat split; reflexivity.
Qed.
End OsPath.

(** * The loader *)

(** ** Grouping by type *)

Lemma dict_get_set {K V} `{EqDecision K} (k k' : K) (v : V) (d : list (K * V)) :
  dict_get k (dict_set k' v d) = if decide (k = k') then Some v else dict_get k d.
Proof.
  induction d as [|[k0 v0] d IH]; simpl.
  - destruct (decide (k = k')); reflexivity.
  - destruct (decide (k' = k0)) as [->|Hne]; simpl.
    + destruct (decide (k = k0)); reflexivity.
    + destruct (decide (k = k0)) as [->|Hne'].
      * destruct (decide (k0 = k')); [congruence | reflexivity].
      * exact IH.
Qed.

Lemma dict_keys_set {K V} `{EqDecision K} (k : K) (v : V) (d : list (K * V)) :
  map fst (dict_set k v d)
  = match dict_get k d with
    | Some _ => map fst d
    | None => map fst d ++ [k]
    end.
Proof.
  induction d as [|[k0 v0] d IH]; simpl; [reflexivity |].
  destruct (decide (k = k0)) as [->|Hne]; simpl; [reflexivity |].
  rewrite IH. destruct (dict_get k d); reflexivity.
Qed.

Lemma dict_get_key {K V} `{EqDecision K} (k : K) (d : list (K * V)) :
  k ∈ map fst d <-> dict_get k d <> None.
Proof.
  induction d as [|[k0 v0] d IH]; simpl.
  - split; [intros Hin; inversion Hin | congruence].
  - destruct (decide (k = k0)) as [->|Hne].
    + split; [discriminate | intros _; constructor].
    + rewrite <- IH. split.
      * intros Hin. inversion Hin; subst; [congruence | assumption].
      * intros Hin. now constructor.
Qed.

Lemma record_type_typed r t : str_field "type" r = Some t -> record_type r = Returned t.
Proof.
  unfold str_field, record_type. destruct (dict_get "type" r) as [[]|]; congruence.
Qed.

Lemma has_type_eq t r t' : str_field "type" r = Some t' -> has_type t r = String.eqb t t'.
Proof. intros Ht. unfold has_type. now rewrite Ht. Qed.

Lemma group_fold_spec prep rs :
  Forall typed rs ->
  forall g0, exists g,
    fold_left (group_step prep) rs (Returned g0) = Returned g
    /\ grouped prep rs g0 g.
Proof.
  induction 1 as [|r rs [t Ht] _ IH]; intros g0; simpl.
  - exists g0. split; [reflexivity |]. split; [| split]; auto.
    + intros t. simpl. now rewrite app_nil_r.
    + intros t. split; [auto |].
      intros [Hin | (r & Hr & _)]; [assumption | inversion Hr].
  - rewrite (record_type_typed r t Ht).
    destruct (IH (group_append t (prep r) g0)) as (g & Hg & H1 & H2 & H3).
    exists g. split; [exact Hg |]. split; [| split; [intros t'; split |]].
    + intros t'. rewrite H1. unfold group_append. rewrite dict_get_set.
      cbn [List.filter]. rewrite (has_type_eq t' r t Ht).
      destruct (decide (t' = t)) as [->|Hne].
      * rewrite String.eqb_refl. simpl. now rewrite <- app_assoc.
      * destruct (String.eqb_spec t' t); [congruence | reflexivity].
    + intros Hin. apply H2 in Hin as [Hin | (r' & Hr' & Ht')].
      * unfold group_append in Hin. rewrite dict_keys_set in Hin.
        destruct (dict_get t g0) eqn:Eg; [auto |].
        apply elem_of_app in Hin as [Hin | Hin]; [auto |].
        apply list_elem_of_singleton in Hin as ->.
        right. exists r. split; [constructor | assumption].
      * right. exists r'. split; [now constructor | assumption].
    + intros [Hin | (r' & Hr' & Ht')]; apply H2.
      * left. unfold group_append. rewrite dict_keys_set.
        destruct (dict_get t g0); [assumption |]. apply elem_of_app. auto.
      * inversion Hr'; subst.
        -- left. unfold group_append. rewrite dict_keys_set.
           assert (t' = t) by congruence. subst t'.
           destruct (dict_get t g0) eqn:Eg.
           ++ apply dict_get_key. congruence.
           ++ apply elem_of_app. right. constructor.
        -- right. eauto.
    + intros Hnd. apply H3. unfold group_append. rewrite dict_keys_set.
      destruct (dict_get t g0) eqn:Eg; [assumption |].
      apply NoDup_app. repeat split; [assumption | | apply NoDup_singleton].
      intros x Hx Hx'. apply list_elem_of_singleton in Hx' as ->.
      apply dict_get_key in Hx. congruence.
Qed.

(** ** Batches *)

Lemma chunks_concat {A} (n : nat) (fuel : nat) :
  (0 < n)%nat -> forall l : list A, (length l <= fuel)%nat ->
  concat (chunks_from fuel n l) = l.
Proof.
  intros Hn. induction fuel as [|fuel IH]; intros l Hl.
  - destruct l; [reflexivity | simpl in Hl; lia].
  - destruct l as [|x l]; [reflexivity |].
    cbn [chunks_from concat]. rewrite IH.
    + apply firstn_skipn.
    + rewrite length_skipn. simpl in *. lia.
Qed.

Lemma batches_positive {A} (batch_size : Z) (l : list A) :
  0 < batch_size ->
  exists bs, batches batch_size l = Returned bs /\ concat bs = l.
Proof.
  intros Hb. unfold batches.
  destruct (Z.eqb_spec batch_size 0); [lia |].
  destruct (Z.ltb_spec batch_size 0); [lia |].
  eexists. split; [reflexivity |]. apply chunks_concat; lia.
Qed.

Lemma filter_all {A} (p : A -> bool) (l : list A) :
  forallb p l = true -> List.filter p l = l.
Proof.
  induction l as [|x l IH]; simpl; [reflexivity |].
  intros [Hx Hl]%andb_true_iff. rewrite Hx, IH; auto.
Qed.

Lemma len_map {A B} (f : A -> B) (l : list A) : len (map f l) = len l.
Proof. unfold len. now rewrite length_map. Qed.

Lemma filter_concat {A} (p : A -> bool) (ls : list (list A)) :
  List.filter p (concat ls) = concat (map (List.filter p) ls).
Proof.
  induction ls as [|l ls IH]; simpl; [reflexivity |].
  now rewrite List.filter_app, IH.
Qed.

Section CheckingStore.

Context `{PyLib}.
Variables valid_node valid_edge : string -> record -> bool.

Local Hint Extern 0 (Neo4jSession GraphDb) =>
  exact (checking_session valid_node valid_edge) : typeclass_instances.

Lemma add_nodes_nil t d : add_nodes valid_node t [] d = d.
Proof. destruct d. unfold add_nodes. simpl. now rewrite app_nil_r. Qed.

Lemma add_nodes_app t rs rs' d :
  add_nodes valid_node t (rs ++ rs') d = add_nodes valid_node t rs' (add_nodes valid_node t rs d).
Proof.
  unfold add_nodes. simpl. now rewrite List.filter_app, map_app, app_assoc.
Qed.

Lemma single_nodes_spec t (l : list record) (d : GraphDb) total :
  fold_left (fun st single_node =>
    let '(d, total_inserted) := st in
    match run_create_nodes t [single_node] d with
    | (d, true) => (d, total_inserted + 1)
    | (d, false) => (d, total_inserted)
    end) l (d, total)
  = (add_nodes valid_node t l d, total + len (List.filter (valid_node t) l)).
Proof.
  revert d total. induction l as [|x l IH]; intros d total.
  - simpl. rewrite add_nodes_nil. unfold len. simpl. f_equal. lia.
  - cbn [fold_left]. cbn [run_create_nodes checking_session forallb].
    change (x :: l) with ([x] ++ l). rewrite add_nodes_app.
    rewrite List.filter_app, len_app.
    destruct (valid_node t x) eqn:Ex; cbn [andb].
    + rewrite IH. f_equal.
      * f_equal. unfold add_nodes. simpl. now rewrite Ex.
      * simpl. rewrite Ex. unfold len at 2. simpl. lia.
    + rewrite IH. f_equal.
      * f_equal. unfold add_nodes. simpl. rewrite Ex. simpl.
        destruct d. simpl. now rewrite app_nil_r.
      * simpl. rewrite Ex. unfold len at 2. simpl. lia.
Qed.

(** One batch: every valid record of the batch is created and counted,
    whether the batch went through at once or one record at a time. *)
Lemma insert_node_batch_spec t (d : GraphDb) total batch :
  insert_node_batch t (d, total) batch
  = (add_nodes valid_node t (map clean_record batch) d,
     total + len (List.filter (valid_node t) (map clean_record batch))).
Proof.
  unfold insert_node_batch.
  cbn [run_create_nodes checking_session].
  destruct (forallb (valid_node t) (map clean_record batch)) eqn:Ef.
  - unfold add_nodes. rewrite (filter_all _ _ Ef), len_map. reflexivity.
  - apply single_nodes_spec.
Qed.

Lemma insert_node_batches_spec t bs (d : GraphDb) total :
  fold_left (insert_node_batch t) bs (d, total)
  = (add_nodes valid_node t (map clean_record (concat bs)) d,
     total + len (List.filter (valid_node t) (map clean_record (concat bs)))).
Proof.
  revert d total. induction bs as [|b bs IH]; intros d total.
  - simpl. rewrite add_nodes_nil. unfold len. simpl. f_equal. lia.
  - cbn [fold_left concat]. rewrite insert_node_batch_spec, IH.
    rewrite map_app, add_nodes_app, List.filter_app, len_app.
    f_equal. lia.
Qed.


Lemma batch_insert_nodes_spec nodes batch_size (d : GraphDb) :
  Forall typed nodes -> 0 < batch_size ->
  exists d1,
    batch_insert_nodes nodes batch_size d
      = Returned (d1, len (inserted_nodes valid_node nodes type_order))
    /\ db_nodes d1 = db_nodes d ++ inserted_nodes valid_node nodes type_order
    /\ db_rels d1 = db_rels d.
Proof.
  intros Ht Hb. unfold batch_insert_nodes.
  change (group_nodes nodes)
    with (fold_left (group_step (dict_remove "type")) nodes (Returned [])).
  destruct (group_fold_spec (dict_remove "type") nodes Ht []) as (g & -> & Hg & _).
  assert (Hgen : forall ts d total,
    exists d1,
      fold_left (fun acc node_type =>
        match acc with
        | Raised e => Raised e
        | Returned st =>
            match dict_get node_type g with
            | None => Returned st
            | Some type_nodes =>
                match batches batch_size type_nodes with
                | Raised e => Raised e
                | Returned bs =>
                    Returned (fold_left (insert_node_batch node_type) bs st)
                end
            end
        end) ts (Returned (d, total))
      = Returned (d1, total + len (inserted_nodes valid_node nodes ts))
      /\ db_nodes d1 = db_nodes d ++ inserted_nodes valid_node nodes ts
      /\ db_rels d1 = db_rels d).
  { clear d. induction ts as [|t ts IH]; intros d total.
    - exists d. simpl. unfold len. simpl. rewrite app_nil_r.
      split; [| split]; try reflexivity. do 2 f_equal. lia.
    - cbn [fold_left]. specialize (Hg t). simpl in Hg.
      unfold inserted_nodes. cbn [flat_map]. fold (inserted_nodes valid_node nodes ts).
      rewrite len_app, len_map.
      destruct (dict_get t g) as [type_nodes|]; simpl in Hg.
      + destruct (batches_positive batch_size type_nodes Hb) as (bs & -> & Hbs).
        rewrite insert_node_batches_spec, Hbs, Hg.
        destruct (IH (add_nodes valid_node t
                        (map clean_record
                           (map (dict_remove "type")
                              (List.filter (has_type t) nodes))) d)
                     (total + len (List.filter (valid_node t)
                                     (map clean_record
                                        (map (dict_remove "type")
                                           (List.filter (has_type t) nodes))))))
          as (d1 & Hd1 & Hn & Hr).
        exists d1. split; [| split].
        * rewrite Hd1. do 2 f_equal. lia.
        * rewrite Hn. simpl. now rewrite app_assoc.
        * rewrite Hr. reflexivity.
      + rewrite <- Hg. simpl.
        destruct (IH d total) as (d1 & Hd1 & Hn & Hr).
        exists d1. split; [| split]; auto. }
  destruct (Hgen type_order d 0) as (d1 & Hd1 & Hn & Hr).
  exists d1. split; [| split]; auto.
Qed.

End CheckingStore.

(** ** The loop over edge types *)

Section EdgeLoop.

Context `{PyLib} {db : Type} `{Neo4jSession db}.

Lemma batch_insert_edges_unfold edges batch_size d :
  batch_insert_edges edges batch_size d
  = match fold_left (group_step (fun e => e)) edges (Returned []) with
    | Raised e => Raised e
    | Returned g =>
        fold_left (edges_step g batch_size) (sorted (map fst g))
          (Returned (mkEdgeLoad d 0 0))
    end.
Proof. reflexivity. Qed.

Lemma batches_nonzero {A} (batch_size : Z) (l : list A) :
  batch_size <> 0 ->
  exists bs, batches batch_size l = Returned bs
             /\ Forall (fun b => forall x, x ∈ b -> x ∈ l) bs.
Proof.
  intros Hb. unfold batches.
  destruct (Z.eqb_spec batch_size 0); [contradiction |].
  destruct (Z.ltb_spec batch_size 0).
  - eexists. split; [reflexivity | constructor].
  - eexists. split; [reflexivity |].
    assert (Hc : concat (chunks_from (length l) (Z.to_nat batch_size) l) = l)
      by (apply chunks_concat; lia).
    apply Forall_forall. intros b Hb' x Hx. rewrite <- Hc.
    apply list_elem_of_In, in_concat. exists b.
    split; apply list_elem_of_In; assumption.
Qed.

Lemma edges_fold_inv (Inv : list string -> db -> Z -> Prop) g batch_size :
  batch_size <> 0 ->
  (forall done t d total bs,
      Inv done d total ->
      Forall (fun b => forall x, x ∈ b ->
                x ∈ List.filter has_destination (default [] (dict_get t g))) bs ->
      batches batch_size (List.filter has_destination (default [] (dict_get t g)))
        = Returned bs ->
      Inv (done ++ [t]) (fold_left (insert_edge_batch t) bs (d, total)).1
          (fold_left (insert_edge_batch t) bs (d, total)).2) ->
  forall ks done acc,
    Inv done (edge_db acc) (total_inserted acc) ->
    exists r,
      fold_left (edges_step g batch_size) ks (Returned acc) = Returned r
      /\ Inv (done ++ ks) (edge_db r) (total_inserted r)
      /\ skipped_external r
         = skipped_external acc + sumZ (map (inferred_of g) ks).
Proof.
  intros Hb Hstep. induction ks as [|t ks IH]; intros done acc Hi.
  - exists acc. rewrite app_nil_r. simpl. repeat split; auto. lia.
  - cbn [fold_left]. unfold edges_step at 2. cbv zeta.
    destruct (batches_nonzero batch_size
                (List.filter has_destination (default [] (dict_get t g))) Hb)
      as (bs & Hbs & Hsub).
    rewrite Hbs.
    pose proof (Hstep done t _ _ bs Hi Hsub Hbs) as Hi'.
    destruct (fold_left (insert_edge_batch t) bs (edge_db acc, total_inserted acc))
      as [d' total'].
    cbn [fst snd] in Hi'.
    destruct (IH (done ++ [t])
                (mkEdgeLoad d' total'
                   (skipped_external acc
                    + (len (default [] (dict_get t g))
                       - len (List.filter has_destination
                                (default [] (dict_get t g))))))
                Hi') as (r & Hr & Hinv & Hsk).
    exists r. split; [exact Hr |]. split.
    + rewrite <- app_assoc in Hinv. exact Hinv.
    + rewrite Hsk. cbn [skipped_external].
      change (sumZ (map (inferred_of g) (t :: ks)))
        with (inferred_of g t + sumZ (map (inferred_of g) ks)).
      unfold inferred_of at 2. lia.
Qed.

End EdgeLoop.

Lemma insert_sorted_perm x l : insert_sorted x l ≡ₚ x :: l.
Proof.
  induction l as [|y l IH]; simpl; [reflexivity |].
  destruct (String.leb x y); [reflexivity |].
  rewrite IH. apply Permutation_swap.
Qed.

Lemma sorted_perm l : sorted l ≡ₚ l.
Proof.
  induction l as [|x l IH]; simpl; [reflexivity |].
  rewrite insert_sorted_perm. now rewrite IH.
Qed.

Lemma sumZ_cons x l : sumZ (x :: l) = x + sumZ l.
Proof. reflexivity. Qed.

Lemma sumZ_add {A} (f g : A -> Z) (l : list A) :
  sumZ (map (fun x => f x + g x) l) = sumZ (map f l) + sumZ (map g l).
Proof. induction l as [|x l IH]; simpl; [reflexivity |]. unfold sumZ in *. simpl. lia. Qed.

Lemma sumZ_zero {A} (l : list A) : sumZ (map (fun _ => 0) l) = 0.
Proof. induction l as [|x l IH]; simpl; auto. Qed.

Lemma sumZ_pick (f : string -> Z) (t0 : string) (ks : list string) :
  NoDup ks -> t0 ∈ ks ->
  sumZ (map (fun t => if String.eqb t t0 then f t else 0) ks) = f t0.
Proof.
  induction 1 as [|k ks Hk Hnd IH]; intros Hin; [inversion Hin |].
  cbn [map]. rewrite sumZ_cons.
  destruct (String.eqb_spec k t0) as [->|Hne].
  - assert (Hz : sumZ (map (fun t => if String.eqb t t0 then f t else 0) ks) = 0).
    { clear IH Hin Hnd. induction ks as [|k ks IH]; [reflexivity |].
      cbn [map]. rewrite sumZ_cons.
      destruct (String.eqb_spec k t0) as [->|Hne].
      - exfalso. apply Hk. constructor.
      - rewrite IH; [lia |]. intros Hin. apply Hk. now constructor. }
    rewrite Hz. lia.
  - inversion Hin; subst; [congruence |]. rewrite IH; auto.
Qed.

(** Sums taken type by type add up to the sum over all records. *)
Lemma sum_by_type (F : string -> record -> Z) (ks : list string) (l : list record) :
  NoDup ks ->
  Forall (fun e => exists t, str_field "type" e = Some t /\ t ∈ ks) l ->
  sumZ (map (fun t => sumZ (map (F t) (List.filter (has_type t) l))) ks)
  = sumZ (map (fun e => F (record_type_of e) e) l).
Proof.
  intros Hnd. induction 1 as [|e l (t0 & Ht0 & Hin) _ IH].
  - simpl. apply sumZ_zero.
  - cbn [map]. rewrite sumZ_cons, <- IH.
    unfold record_type_of. rewrite Ht0. simpl default.
    rewrite <- (sumZ_pick (fun t => F t e) t0 ks Hnd Hin), <- sumZ_add.
    f_equal. apply map_ext. intros t. cbn [List.filter].
    rewrite (has_type_eq t e t0 Ht0).
    destruct (String.eqb t t0); [apply sumZ_cons | reflexivity].
Qed.

Lemma len_filter_complement {A} (p : A -> bool) (l : list A) :
  len l - len (List.filter p l) = sumZ (map (fun x => if p x then 0 else 1) l).
Proof.
  induction l as [|x l IH]; [reflexivity |].
  cbn [List.filter map]. rewrite sumZ_cons, <- IH.
  destruct (p x); rewrite ?len_cons; lia.
Qed.

Lemma len_filter_negb {A} (p : A -> bool) (l : list A) :
  len (List.filter (fun x => negb (p x)) l)
  = sumZ (map (fun x => if p x then 0 else 1) l).
Proof.
  induction l as [|x l IH]; [reflexivity |].
  cbn [List.filter map]. rewrite sumZ_cons, <- IH.
  destruct (p x); simpl; rewrite ?len_cons; lia.
Qed.

Lemma typed_keys rs g :
  Forall typed rs -> grouped (fun e => e) rs [] g ->
  NoDup (sorted (map fst g))
  /\ Forall (fun e => exists t, str_field "type" e = Some t
                                /\ t ∈ sorted (map fst g)) rs
  /\ (forall t, default [] (dict_get t g) = List.filter (has_type t) rs).
Proof.
  intros Ht (H1 & H2 & H3). split; [| split].
  - rewrite sorted_perm. apply H3. constructor.
  - apply Forall_forall. intros e He.
    rewrite Forall_forall in Ht. destruct (Ht e He) as [t Hte].
    exists t. split; [exact Hte |]. rewrite sorted_perm. apply H2. eauto.
  - intros t. rewrite H1. simpl. now rewrite map_id.
Qed.

(** ** Edges without a destination *)

Section Recording.

Context `{PyLib}.
Variable fails : CallLog -> string -> list record -> bool.
Variable created : CallLog -> string -> list record -> option Z.

Local Hint Extern 0 (Neo4jSession CallLog) =>
  exact (recording_session fails created) : typeclass_instances.

Lemma single_edges_log t (l : list record) :
  forall (log : CallLog) (total : Z),
    exists new,
      (fold_left (fun st single_edge =>
         let '(d, total_inserted) := st in
         match run_create_edges t [single_edge] d with
         | (d, Some c) => (d, total_inserted + c)
         | (d, None) => (d, total_inserted)
         end) l (log, total)).1 = log ++ new
      /\ Forall (fun call => forall x, x ∈ call.2 -> x ∈ l) new.
Proof.
  induction l as [|x l IH]; intros log total.
  - exists []. simpl. rewrite app_nil_r. auto.
  - cbn [fold_left].
    match goal with
    | |- context [fold_left _ l ?st] => remember st as st' eqn:Est
    end.
    assert (Hl : st'.1 = log ++ [(t, [x])]).
    { subst st'. cbn [run_create_edges recording_session].
      destruct (created log t [x]); reflexivity. }
    clear Est. destruct st' as [log' total']. cbn [fst] in Hl. subst log'.
    destruct (IH (log ++ [(t, [x])]) total') as (new & Hn & Hf).
    exists ((t, [x]) :: new). split.
    + rewrite Hn, <- app_assoc. reflexivity.
    + constructor.
      * simpl. intros y Hy. apply list_elem_of_singleton in Hy as ->. constructor.
      * eapply Forall_impl; [exact Hf |].
        intros call Hc y Hy. constructor. auto.
Qed.

Lemma insert_edge_batch_log t (log : CallLog) total batch :
  exists new,
    (insert_edge_batch t (log, total) batch).1 = log ++ new
    /\ Forall (fun call => forall x, x ∈ call.2 ->
                 x ∈ map normalize_edge batch) new.
Proof.
  unfold insert_edge_batch.
  destruct (run_create_edges t (map normalize_edge batch) log) as [log1 o] eqn:Er.
  cbn [run_create_edges recording_session] in Er.
  injection Er as <- <-.
  destruct (created log t (map normalize_edge batch)) as [c|].
  - exists [(t, map normalize_edge batch)]. split; [reflexivity |].
    constructor; [auto | constructor].
  - destruct (single_edges_log t (map normalize_edge batch)
                (log ++ [(t, map normalize_edge batch)]) total)
      as (new & Hn & Hf).
    exists ((t, map normalize_edge batch) :: new). split.
    + rewrite Hn, <- app_assoc. reflexivity.
    + constructor; [auto | exact Hf].
Qed.

Lemma insert_edge_batches_log t (l : list record) bs :
  Forall (fun b => forall x, x ∈ b -> x ∈ l) bs ->
  forall (log : CallLog) (total : Z),
    exists new,
      (fold_left (insert_edge_batch t) bs (log, total)).1 = log ++ new
      /\ Forall (fun call => forall x, x ∈ call.2 ->
                   x ∈ map normalize_edge l) new.
Proof.
  induction 1 as [|b bs Hb _ IH]; intros log total.
  - exists []. simpl. rewrite app_nil_r. auto.
  - cbn [fold_left].
    destruct (insert_edge_batch_log t log total b) as (new1 & Hn1 & Hf1).
    destruct (insert_edge_batch t (log, total) b) as [log1 total1].
    cbn [fst] in Hn1. subst log1.
    destruct (IH (log ++ new1) total1) as (new2 & Hn2 & Hf2).
    exists (new1 ++ new2). split; [rewrite Hn2, app_assoc; reflexivity |].
    apply Forall_app. split; [| exact Hf2].
    eapply Forall_impl; [exact Hf1 |]. intros call Hc x Hx.
    apply Hc in Hx. apply list_elem_of_In, in_map_iff in Hx as (e & <- & He).
    apply list_elem_of_In, in_map. apply list_elem_of_In, Hb, list_elem_of_In, He.
Qed.

(** C5: edges without a destination are counted and never reach the
    store, whatever the store answers. *)
Theorem edges_without_destination_are_skipped edges batch_size (log : CallLog)
  (Htyped : Forall typed edges) (Hbatch : batch_size <> 0) :
  exists r new,
    batch_insert_edges edges batch_size log = Returned r
    /\ skipped_external r
       = len (List.filter (fun e => negb (has_destination e)) edges)
    /\ edge_db r = log ++ new
    /\ Forall (direct_call edges) new.
Proof.
  rewrite batch_insert_edges_unfold.
  destruct (group_fold_spec (fun e => e) edges Htyped []) as (g & -> & Hg).
  destruct (typed_keys edges g Htyped Hg) as (Hnd & Hks & Hty).
  destruct (edges_fold_inv
              (fun _ d _ => exists new, d = log ++ new
                                        /\ Forall (direct_call edges) new)
              g batch_size Hbatch) with (ks := sorted (map fst g))
              (done := @nil string) (acc := mkEdgeLoad log 0 0)
    as (r & Hr & (new & Hdb & Hnew) & Hsk).
  - intros done t d total bs (new & -> & Hnew) Hsub _.
    destruct (insert_edge_batches_log t _ bs Hsub (log ++ new) total)
      as (new' & Hn' & Hf').
    exists (new ++ new'). split; [rewrite Hn', app_assoc; reflexivity |].
    apply Forall_app. split; [exact Hnew |].
    eapply Forall_impl; [exact Hf' |]. intros call Hc.
    apply Forall_forall. intros x Hx. apply Hc in Hx.
    apply list_elem_of_In, in_map_iff in Hx as (e & <- & He).
    rewrite Hty in He. apply filter_In in He as (He & Hd).
    apply filter_In in He as (He & _).
    exists e. split; [apply list_elem_of_In, He | auto].
  - exists []. simpl. rewrite app_nil_r. auto.
  - exists r, new. split; [exact Hr |]. split; [| auto].
    rewrite Hsk. cbn [skipped_external].
    rewrite len_filter_negb.
    rewrite <- (sum_by_type (fun _ e => if has_destination e then 0 else 1)
                  (sorted (map fst g)) edges Hnd Hks).
    rewrite Z.add_0_l. f_equal. apply map_ext. intros t. unfold inferred_of.
    rewrite len_filter_complement, Hty. reflexivity.
Qed.

End Recording.

(** ** Loading into a store that checks records *)

Lemma sumZ_app (l k : list Z) : sumZ (l ++ k) = sumZ l + sumZ k.
Proof. induction l as [|x l IH]; simpl; [reflexivity |]. unfold sumZ in *. simpl. lia. Qed.

Lemma list_sum_Z {A} (f : A -> nat) (l : list A) :
  Z.of_nat (list_sum (map f l)) = sumZ (map (fun x => Z.of_nat (f x)) l).
Proof.
  induction l as [|x l IH]; [reflexivity |].
  cbn [map]. rewrite sumZ_cons, <- IH.
  change (list_sum (f x :: map f l)) with (f x + list_sum (map f l))%nat. lia.
Qed.

Lemma sumZ_filter_map {A B} (hd : A -> bool) (n : A -> B) (v : B -> bool)
  (w : B -> Z) (l : list A) :
  sumZ (map w (List.filter v (map n (List.filter hd l))))
  = sumZ (map (fun e => if hd e && v (n e) then w (n e) else 0) l).
Proof.
  induction l as [|e l IH]; [reflexivity |].
  cbn [List.filter map]. rewrite sumZ_cons, <- IH. clear IH.
  destruct (hd e); cbn [andb map List.filter].
  - destruct (v (n e)); cbn [map]; rewrite ?sumZ_cons; lia.
  - lia.
Qed.

Section CheckingEdges.

Context `{PyLib}.
Variables valid_node valid_edge : string -> record -> bool.

Local Hint Extern 0 (Neo4jSession GraphDb) =>
  exact (checking_session valid_node valid_edge) : typeclass_instances.

Lemma weight_nodes d d' x : db_nodes d' = db_nodes d -> weight d' x = weight d x.
Proof.
  intros Hn. unfold weight, rels_for, matching. now rewrite Hn.
Qed.

Lemma single_edges_spec t (l : list record) (d0 : GraphDb) :
  forall (d : GraphDb) (total : Z), db_nodes d = db_nodes d0 ->
    exists d',
      fold_left (fun st single_edge =>
        let '(d, total_inserted) := st in
        match run_create_edges t [single_edge] d with
        | (d, Some c) => (d, total_inserted + c)
        | (d, None) => (d, total_inserted)
        end) l (d, total)
      = (d', total + sumZ (map (weight d0) (List.filter (valid_edge t) l)))
      /\ db_nodes d' = db_nodes d0.
Proof.
  induction l as [|x l IH]; intros d total Hd.
  - exists d. simpl. split; [f_equal; lia | exact Hd].
  - cbn [fold_left].
    match goal with
    | |- context [fold_left _ l ?st] => remember st as st' eqn:Est
    end.
    assert (Hst : db_nodes st'.1 = db_nodes d0
                  /\ st'.2 = total + (if valid_edge t x then weight d0 x else 0)).
    { subst st'. cbn [run_create_edges checking_session forallb].
      destruct (valid_edge t x); cbn [andb fst snd db_nodes].
      - split; [exact Hd |].
        rewrite <- (weight_nodes d0 d x Hd). unfold weight.
        change (list_sum (map (rels_for d) [x])) with (rels_for d x + 0)%nat.
        lia.
      - split; [exact Hd | lia]. }
    clear Est. destruct st' as [d1 total1]. cbn [fst snd] in Hst.
    destruct Hst as [Hd1 ->].
    destruct (IH d1 (total + (if valid_edge t x then weight d0 x else 0)) Hd1)
      as (d' & Hf & Hd').
    exists d'. split; [| exact Hd'].
    rewrite Hf. f_equal. cbn [List.filter].
    destruct (valid_edge t x); cbn [map]; rewrite ?sumZ_cons; lia.
Qed.

Lemma insert_edge_batch_spec t (d0 d : GraphDb) total batch :
  db_nodes d = db_nodes d0 ->
  exists d',
    insert_edge_batch t (d, total) batch
    = (d', total + sumZ (map (weight d0)
                           (List.filter (valid_edge t) (map normalize_edge batch))))
    /\ db_nodes d' = db_nodes d0.
Proof.
  intros Hd. unfold insert_edge_batch.
  destruct (run_create_edges t (map normalize_edge batch) d) as [d1 o] eqn:Er.
  cbn [run_create_edges checking_session] in Er.
  destruct (forallb (valid_edge t) (map normalize_edge batch)) eqn:Ef;
    injection Er as <- <-.
  - eexists. split.
    + rewrite (filter_all _ _ Ef), list_sum_Z.
      apply f_equal2; [reflexivity |]. f_equal. f_equal.
      apply map_ext. intros x. symmetry. now apply weight_nodes.
    + exact Hd.
  - apply single_edges_spec. exact Hd.
Qed.

Lemma insert_edge_batches_spec t (d0 : GraphDb) bs :
  forall (d : GraphDb) (total : Z), db_nodes d = db_nodes d0 ->
    exists d',
      fold_left (insert_edge_batch t) bs (d, total)
      = (d', total + sumZ (map (weight d0)
                             (List.filter (valid_edge t)
                                (map normalize_edge (concat bs)))))
      /\ db_nodes d' = db_nodes d0.
Proof.
  induction bs as [|b bs IH]; intros d total Hd.
  - exists d. simpl. split; [f_equal; lia | exact Hd].
  - cbn [fold_left concat].
    destruct (insert_edge_batch_spec t d0 d total b Hd) as (d1 & -> & Hd1).
    match goal with
    | |- context [fold_left _ bs (d1, ?tot)] =>
        destruct (IH d1 tot Hd1) as (d' & -> & Hd')
    end.
    exists d'. split; [| exact Hd'].
    f_equal. rewrite map_app, List.filter_app, map_app, sumZ_app. lia.
Qed.

Lemma batch_insert_edges_spec edges batch_size (d : GraphDb) :
  Forall typed edges -> 0 < batch_size ->
  exists r,
    batch_insert_edges edges batch_size d = Returned r
    /\ total_inserted r = sumZ (map (created_for valid_edge d) edges)
    /\ skipped_external r
       = len (List.filter (fun e => negb (has_destination e)) edges)
    /\ db_nodes (edge_db r) = db_nodes d.
Proof.
  intros Htyped Hb. rewrite batch_insert_edges_unfold.
  destruct (group_fold_spec (fun e => e) edges Htyped []) as (g & -> & Hg).
  destruct (typed_keys edges g Htyped Hg) as (Hnd & Hks & Hty).
  set (F := fun (t : string) (e : record) =>
              if has_destination e && valid_edge t (normalize_edge e)
              then weight d (normalize_edge e) else 0).
  destruct (edges_fold_inv
              (fun done d' total =>
                 db_nodes d' = db_nodes d
                 /\ total = sumZ (map (fun t =>
                              sumZ (map (F t) (List.filter (has_type t) edges)))
                              done))
              g batch_size ltac:(lia)) with (ks := sorted (map fst g))
              (done := @nil string) (acc := mkEdgeLoad d 0 0)
    as (r & Hr & (Hdb & Htot) & Hsk).
  - intros done t d' total bs (Hd' & ->) _ Hbs.
    destruct (batches_positive batch_size
                (List.filter has_destination (default [] (dict_get t g))) Hb)
      as (bs' & Hbs' & Hc).
    rewrite Hbs in Hbs'. injection Hbs' as <-.
    match goal with
    | |- context [fold_left _ bs (d', ?tot)] =>
        destruct (insert_edge_batches_spec t d bs d' tot Hd') as (d1 & -> & Hd1)
    end.
    cbn [fst snd]. split; [exact Hd1 |].
    rewrite map_app, sumZ_app. f_equal. cbn [map]. rewrite sumZ_cons.
    rewrite Hc, Hty, sumZ_filter_map.
    change (sumZ []) with 0. rewrite Z.add_0_r. reflexivity.
  - split; reflexivity.
  - exists r. split; [exact Hr |]. split; [| split; [| exact Hdb]].
    + rewrite Htot. cbn [app].
      rewrite (sum_by_type F (sorted (map fst g)) edges Hnd Hks).
      reflexivity.
    + rewrite Hsk. cbn [skipped_external]. rewrite Z.add_0_l, len_filter_negb.
      rewrite <- (sum_by_type (fun _ e => if has_destination e then 0 else 1)
                    (sorted (map fst g)) edges Hnd Hks).
      f_equal. apply map_ext. intros t. unfold inferred_of.
      rewrite len_filter_complement, Hty. reflexivity.
Qed.

End CheckingEdges.

Section RecordLevelErrors.

Context `{PyLib}.
Variables valid_node valid_edge : string -> record -> bool.

Local Hint Extern 0 (Neo4jSession GraphDb) =>
  exact (checking_session valid_node valid_edge) : typeclass_instances.

(** Whatever the store, a batch that fails is retried record by record,
    from the store as the failed call left it. *)
Lemma failed_batch_is_retried {db : Type} `{Neo4jSession db}
  (t : string) (d d' : db) (total : Z) (batch : list record) :
  run_create_nodes t (map clean_record batch) d = (d', false) ->
  insert_node_batch t (d, total) batch
  = fold_left (fun st single_node =>
      let '(d, total_inserted) := st in
      match run_create_nodes t [single_node] d with
      | (d, true) => (d, total_inserted + 1)
      | (d, false) => (d, total_inserted)
      end) (map clean_record batch) (d', total).
Proof. intros Hr. unfold insert_node_batch. now rewrite Hr. Qed.

Lemma inserted_nodes_spec nodes labels t x :
  (t, x) ∈ inserted_nodes valid_node nodes labels <->
  t ∈ labels /\ valid_node t x = true
  /\ exists n, n ∈ nodes /\ str_field "type" n = Some t
               /\ x = clean_record (dict_remove "type" n).
Proof.
  unfold inserted_nodes. rewrite list_elem_of_In, in_flat_map. split.
  - intros (t' & Ht' & Hin). apply in_map_iff in Hin as (x' & [= <- <-] & Hx).
    apply filter_In in Hx as (Hx & Hv).
    apply in_map_iff in Hx as (y & <- & Hy).
    apply in_map_iff in Hy as (n & <- & Hn).
    apply filter_In in Hn as (Hn & Ht).
    split; [now apply list_elem_of_In |]. split; [exact Hv |].
    exists n. split; [now apply list_elem_of_In |]. split; [| reflexivity].
    unfold has_type in Ht. destruct (str_field "type" n) as [t''|]; [| discriminate].
    apply String.eqb_eq in Ht. now subst.
  - intros (Ht & Hv & n & Hn & Hty & ->). exists t.
    split; [now apply list_elem_of_In |].
    apply in_map. apply filter_In. split; [| exact Hv].
    apply in_map, in_map. apply filter_In.
    split; [now apply list_elem_of_In |].
    rewrite (has_type_eq t n t Hty). apply String.eqb_refl.
Qed.


End RecordLevelErrors.


(** C5 at four edges, two of them without a destination, loaded into a store
    that raises at every call. *)
Lemma edges_without_destination_are_skipped_witness :
  Forall typed sample_edges /\ 1000 <> 0
  /\ exists r new,
      batch_insert_edges (H := plain_lib) (H0 := always_raising)
        sample_edges 1000 [] = Returned r
      /\ skipped_external r = 2
      /\ edge_db r = [] ++ new
      /\ Forall (direct_call (H := plain_lib) sample_edges) new.
Proof.
  assert (He : Forall typed sample_edges)
    by (repeat constructor; eexists; reflexivity).
  split; [exact He |]. split; [discriminate |].
  destruct (edges_without_destination_are_skipped (H := plain_lib)
              (fun _ _ _ => true) (fun _ _ _ => None) sample_edges 1000 []
              He ltac:(discriminate))
    as (r & new & Hr & Hsk & Hdb & Hnew).
  exists r, new. split; [exact Hr |]. split; [| split; [exact Hdb | exact Hnew]].
  rewrite Hsk. reflexivity.
Defined.

(** ** The theorems at concrete units *)

(** C8 at [class_unit]: an Inherits edge to a class of the unit, one to an
    unknown base, a Raises, a Calls and a Returns edge. *)
Lemma reference_edges_have_a_target_witness :
  exists ns es st,
    extract_file (H := plain_lib) 100 ["repo"] class_unit = Returned (ns, es, st)
    /\ map (str_field "type") (List.filter is_reference_edge es)
       = [Some "INHERITS"; Some "INHERITS"; Some "RAISES"; Some "CALLS";
          Some "RETURNS"]
    /\ Forall (fun e =>
         is_reference_edge e = true ->
         refers_to_node ns "to_id" e
         \/ (dict_get "to_id" e = None
             /\ exists name, dict_get "to_name" e = Some (VStr name))) es.
Proof.
  do 3 eexists. split; [vm_compute; reflexivity |].
  split; [vm_compute; reflexivity |].
  eapply (reference_edges_have_a_target (H := plain_lib) 100 ["repo"] class_unit).
  vm_compute. reflexivity.
Defined.

(** C4, as stated, fails: a unit that is read and parsed makes
    [extract_file] raise when its path lies outside the repository root
    ([relative_to], in [record_file_node]) and when its name is not UTF-8
    ([stable_id], in [__init__]); neither call is inside a [try]. *)
Lemma extract_file_raises_counterexample :
  parsed outside_unit = true
  /\ extract_file (H := plain_lib) 100 ["repo"] outside_unit = Raised ValueError
  /\ parsed latin1_name_unit = true
  /\ is_prefix_of ["repo"] (unit_path latin1_name_unit) = true
  /\ extract_file (H := plain_lib) 100 ["repo"] latin1_name_unit
     = Raised UnicodeEncodeError.
Proof. repeat split; vm_compute; reflexivity. Qed.


(** C7 at [p.join(a, b)]. *)
Lemma os_path_alias_resolution_witness :
  (3 <= 100)%nat /\ is_prefix_of ["repo"] ["repo"; "m.py"] = true
  /\ has_surrogate (path_str ["repo"; "m.py"]) = false
  /\ exists ns es st imp call,
      extract_file (H := plain_lib) 100 ["repo"]
        (mkUnit ["repo"; "m.py"] (Returned "from os import path as p")
           (Returned (os_path_tree [Name 2 "a"; Name 2 "b"] [])))
        = Returned (ns, es, st)
      /\ List.filter (has_type "Import") ns = [imp]
      /\ str_field "name" imp = Some "path"
      /\ str_field "alias" imp = Some "p"
      /\ str_field "module" imp = Some "os"
      /\ str_field "full_name" imp = Some "os.path"
      /\ dict_get "is_stdlib" imp = Some (VBool true)
      /\ es !! 1%nat = Some call
      /\ has_type "CALLS" call = true
      /\ dict_get "lineno" call = Some (VInt 2)
      /\ str_field "to_name" call = Some "p.join"
      /\ str_field "resolved_name" call = Some "os.path.join".
Proof.
  split; [lia |]. split; [reflexivity |]. split; [reflexivity |].
  apply (os_path_alias_resolution (H := plain_lib)); [lia | reflexivity | reflexivity].
Defined.

(** * Further properties of the pipeline *)

Lemma os_walk_files keep d :
  forall dirpath p name,
    (exists t, t ∈ os_walk keep dirpath d /\ t.1.1 = p /\ name ∈ t.2)
    <-> exists dirs, p = dirpath ++ dirs
                     /\ Forall (fun x => keep x = true) dirs
                     /\ file_at d dirs name.
Proof.
  induction d as [dname subdirs files IH] using fs_dir_ind'.
  intros dirpath p name. cbn [os_walk]. split.
  - intros (t & Ht & <- & Hn). apply elem_of_cons in Ht as [-> | Ht].
    + exists []. cbn. rewrite app_nil_r. auto.
    + apply list_elem_of_In, in_flat_map in Ht as (sub & Hsub & Ht).
      apply list_elem_of_In in Hsub.
      destruct (keep (fs_name sub)) eqn:Hk; [| now apply in_nil in Ht].
      rewrite Forall_forall in IH. specialize (IH sub Hsub).
      destruct (proj1 (IH (dirpath ++ [fs_name sub]) t.1.1 name)) as (dirs & Hp & Hf & Hat).
      { exists t. split; [now apply list_elem_of_In | auto]. }
      exists (fs_name sub :: dirs). split; [| split].
      * rewrite Hp, <- app_assoc. reflexivity.
      * constructor; assumption.
      * cbn. eauto.
  - intros (dirs & -> & Hf & Hat). destruct dirs as [|x rest].
    + eexists. split; [apply list_elem_of_here |]. cbn. rewrite app_nil_r. auto.
    + cbn in Hat. destruct Hat as (sub & Hsub & <- & Hat).
      apply Forall_cons in Hf as [Hk Hf].
      rewrite Forall_forall in IH. specialize (IH sub Hsub).
      destruct (proj2 (IH (dirpath ++ [fs_name sub]) ((dirpath ++ [fs_name sub]) ++ rest) name))
        as (t & Ht & Hp & Hn); [eauto |].
      exists t. split; [| split; [rewrite Hp, <- app_assoc; reflexivity | exact Hn]].
      apply list_elem_of_further, list_elem_of_In, in_flat_map.
      exists sub. split; [now apply list_elem_of_In |]. rewrite Hk.
      now apply list_elem_of_In.
Qed.

(** X1: [find_python_files] returns exactly the files named [*.py], not
    hidden, that are reached from the root through directories that are
    neither excluded nor hidden. *)
Theorem find_python_files_spec (root : Path) (fs : fs_dir)
  (exclude : option (list string)) (p : Path) :
  p ∈ find_python_files root fs exclude
  <-> exists dirs name,
        p = root ++ dirs ++ [name]
        /\ file_at fs dirs name
        /\ Forall (fun d => keep_dir (default default_exclude_files exclude) d = true) dirs
        /\ is_python_file name = true.
Proof.
  unfold find_python_files.
  set (ex := match exclude with None => default_exclude_files | Some e => e end).
  replace (default default_exclude_files exclude) with ex by (destruct exclude; reflexivity).
  split.
  - intros Hp. apply list_elem_of_In, in_flat_map in Hp as ([[dirpath dn] files] & Ht & Hp).
    apply in_map_iff in Hp as (name & <- & Hn).
    apply filter_In in Hn as [Hn Hpy].
    destruct (proj1 (os_walk_files (keep_dir ex) fs root dirpath name))
      as (dirs & -> & Hf & Hat).
    { eexists. split; [apply list_elem_of_In, Ht |]. split; [reflexivity |].
      now apply list_elem_of_In. }
    exists dirs, name. rewrite <- app_assoc. auto.
  - intros (dirs & name & -> & Hat & Hf & Hpy).
    destruct (proj2 (os_walk_files (keep_dir ex) fs root (root ++ dirs) name))
      as ([[dirpath dn] files] & Ht & Hp & Hn); [eauto |].
    cbn in Hp, Hn. subst dirpath.
    apply list_elem_of_In, in_flat_map. eexists. split; [apply list_elem_of_In, Ht |].
    cbn. rewrite app_assoc. apply in_map_iff. exists name. split; [reflexivity |].
    apply filter_In. split; [| exact Hpy]. now apply list_elem_of_In.
Qed.

Lemma tree_dirnames_fold (root current_path : Path) (current_id : string)
  (dirnames : list string) (st : TreeState) :
  let st' :=
    fold_left (fun st dirname =>
      let dir_path := current_path ++ [dirname] in
      let dir_id := stable_id [path_str dir_path] in
      mkTreeState (<[dir_path := dir_id]> (dir_to_id st))
        (tree_nodes st ++ [directory_node root dir_path dir_id dirname])
        (tree_edges st ++ [contains_edge current_id dir_id "contains_directory"]))
      dirnames st in
  tree_nodes st' = tree_nodes st
    ++ map (fun dirname =>
              directory_node root (current_path ++ [dirname])
                (path_id (current_path ++ [dirname])) dirname) dirnames
  /\ tree_edges st' = tree_edges st
       ++ map (fun dirname =>
                 contains_edge current_id (path_id (current_path ++ [dirname]))
                   "contains_directory") dirnames
  /\ (ids_by_path (dir_to_id st) -> ids_by_path (dir_to_id st'))
  /\ (forall k, is_Some (dir_to_id st !! k) -> is_Some (dir_to_id st' !! k))
  /\ (forall d, d ∈ dirnames -> is_Some (dir_to_id st' !! (current_path ++ [d]))).
Proof.
  revert st. induction dirnames as [|d dirnames IH]; intros st; cbn [fold_left map].
  - rewrite !app_nil_r. repeat split; auto. intros d Hd. now apply elem_of_nil in Hd.
  - specialize (IH (mkTreeState
        (<[current_path ++ [d] := stable_id [path_str (current_path ++ [d])]]> (dir_to_id st))
        (tree_nodes st ++ [directory_node root (current_path ++ [d])
                             (stable_id [path_str (current_path ++ [d])]) d])
        (tree_edges st ++ [contains_edge current_id
                             (stable_id [path_str (current_path ++ [d])])
                             "contains_directory"]))).
    cbn [tree_nodes tree_edges dir_to_id] in IH.
    destruct IH as (Hn & He & Hids & Hmono & Hin).
    split; [rewrite Hn, <- app_assoc; reflexivity |].
    split; [rewrite He, <- app_assoc; reflexivity |].
    split; [| split].
    + intros Hok. apply Hids. intros k v Hk.
      destruct (decide (k = current_path ++ [d])) as [-> | Hne].
      * rewrite lookup_insert_eq in Hk. now injection Hk as <-.
      * rewrite lookup_insert_ne in Hk by congruence. now apply Hok.
    + intros k Hk. apply Hmono.
      destruct (decide (k = current_path ++ [d])) as [-> | Hne].
      * rewrite lookup_insert_eq. eauto.
      * rewrite lookup_insert_ne by congruence. exact Hk.
    + intros d' Hd'. apply elem_of_cons in Hd' as [-> | Hd']; [| now apply Hin].
      apply Hmono. rewrite lookup_insert_eq. eauto.
Qed.

Lemma tree_files_fold (current_path : Path) (current_id : string)
  (filenames : list string) (st : TreeState) :
  fold_left (fun st filename =>
    if is_python_file filename then
      let file_path := current_path ++ [filename] in
      let file_id := stable_id [path_str file_path] in
      mkTreeState (dir_to_id st) (tree_nodes st)
        (tree_edges st ++ [contains_edge current_id file_id "contains_file"])
    else st) filenames st
  = mkTreeState (dir_to_id st) (tree_nodes st)
      (tree_edges st
       ++ map (fun filename =>
                 contains_edge current_id (path_id (current_path ++ [filename]))
                   "contains_file") (List.filter is_python_file filenames)).
Proof.
  revert st. induction filenames as [|f filenames IH]; intros st; cbn [fold_left List.filter map].
  - rewrite app_nil_r. now destruct st.
  - destruct (is_python_file f); rewrite IH; [| reflexivity].
    cbn [dir_to_id tree_nodes tree_edges map]. now rewrite <- app_assoc.
Qed.

(** One triple whose directory is already known: the branch that would
    create a node for the directory itself is not taken. *)
Lemma tree_step_known (root : Path) (st : TreeState)
  (triple : Path * list string * list string) :
  ids_by_path (dir_to_id st) ->
  is_Some (dir_to_id st !! triple.1.1) ->
  let st' := tree_step root st triple in
  tree_nodes st' = tree_nodes st ++ listed_directory_nodes root triple
  /\ tree_edges st' = tree_edges st ++ listed_edges triple
  /\ ids_by_path (dir_to_id st')
  /\ (forall k, is_Some (dir_to_id st !! k) -> is_Some (dir_to_id st' !! k))
  /\ (forall d, d ∈ triple.1.2 -> is_Some (dir_to_id st' !! (triple.1.1 ++ [d]))).
Proof.
  destruct triple as [[current_path dirnames] filenames]. cbn [fst snd].
  intros Hok [cid Hid]. pose proof (Hok _ _ Hid) as ->.
  assert (Hne : nonempty (path_id current_path) = true) by apply stable_id_nonempty.
  unfold tree_step. rewrite Hid. cbn [truthy default from_option]. rewrite Hne.
  unfold id. rewrite tree_files_fold.
  pose proof (tree_dirnames_fold root current_path (path_id current_path)
                dirnames st) as (Hn & He & Hids & Hmono & Hin).
  cbn [tree_nodes tree_edges dir_to_id].
  unfold listed_directory_nodes, listed_edges. cbn [fst snd].
  cbv zeta in Hn, He, Hids, Hmono, Hin. fold (path_id current_path).
  rewrite Hn, He, <- app_assoc. auto.
Qed.

Lemma tree_fold keep (root : Path) (d : fs_dir) :
  forall (dirpath : Path) (st : TreeState),
    ids_by_path (dir_to_id st) ->
    is_Some (dir_to_id st !! dirpath) ->
    let walked := os_walk keep dirpath d in
    let st' := fold_left (tree_step root) walked st in
    tree_nodes st' = tree_nodes st ++ flat_map (listed_directory_nodes root) walked
    /\ tree_edges st' = tree_edges st ++ flat_map listed_edges walked
    /\ ids_by_path (dir_to_id st')
    /\ (forall k, is_Some (dir_to_id st !! k) -> is_Some (dir_to_id st' !! k)).
Proof.
  induction d as [dname subdirs files IH] using fs_dir_ind'.
  intros dirpath st Hok Hin. cbv zeta. cbn [os_walk fold_left flat_map].
  pose proof (tree_step_known root st
                (dirpath, List.filter keep (map fs_name subdirs), files) Hok Hin)
    as (Hn & He & Hok1 & Hmono1 & Hkids).
  cbn [fst snd] in Hkids.
  remember (tree_step root st (dirpath, List.filter keep (map fs_name subdirs), files))
    as st1 eqn:E1. clear E1 Hok Hin.
  assert (Hkept : forall sub, sub ∈ subdirs -> keep (fs_name sub) = true ->
                    is_Some (dir_to_id st1 !! (dirpath ++ [fs_name sub]))).
  { intros sub Hsub Hk. apply Hkids. apply list_elem_of_In, filter_In.
    split; [| exact Hk]. apply in_map. now apply list_elem_of_In. }
  clear Hkids.
  assert (Hgen : forall st1,
    ids_by_path (dir_to_id st1) ->
    (forall sub, sub ∈ subdirs -> keep (fs_name sub) = true ->
        is_Some (dir_to_id st1 !! (dirpath ++ [fs_name sub]))) ->
    let rest := flat_map (fun sub =>
         if keep (fs_name sub)
         then os_walk keep (dirpath ++ [fs_name sub]) sub else []) subdirs in
    let st' := fold_left (tree_step root) rest st1 in
    tree_nodes st' = tree_nodes st1 ++ flat_map (listed_directory_nodes root) rest
    /\ tree_edges st' = tree_edges st1 ++ flat_map listed_edges rest
    /\ ids_by_path (dir_to_id st')
    /\ (forall k, is_Some (dir_to_id st1 !! k) -> is_Some (dir_to_id st' !! k))).
  { clear st1 Hok1 Hmono1 Hkept Hn He st.
    induction subdirs as [|sub subdirs IHs]; intros st1 Hok1 Hkept; cbn [flat_map fold_left].
    - rewrite !app_nil_r. auto.
    - apply Forall_cons in IH as [IHsub IHrest].
      rewrite fold_left_app, !flat_map_app.
      destruct (keep (fs_name sub)) eqn:Hk.
      + destruct (IHsub (dirpath ++ [fs_name sub]) st1 Hok1) as (Hn & He & Hok2 & Hmono2).
        { apply Hkept; [apply list_elem_of_here | exact Hk]. }
        destruct (IHs IHrest
                    (fold_left (tree_step root)
                       (os_walk keep (dirpath ++ [fs_name sub]) sub) st1) Hok2)
          as (Hn' & He' & Hok3 & Hmono3).
        { intros sub' Hsub' Hk'. apply Hmono2, Hkept; [| exact Hk'].
          now apply list_elem_of_further. }
        rewrite Hn', He', Hn, He, <- !app_assoc.
        split; [reflexivity |]. split; [reflexivity |]. split; [exact Hok3 |].
        intros k Hsome. apply Hmono3, Hmono2, Hsome.
      + cbn [fold_left flat_map app].
        apply (IHs IHrest st1 Hok1). intros sub' Hsub' Hk'.
        apply Hkept; [| exact Hk']. now apply list_elem_of_further. }
  destruct (Hgen st1 Hok1 Hkept) as (Hn' & He' & Hok2 & Hmono2).
  rewrite Hn', He', Hn, He, <- !app_assoc.
  split; [reflexivity |]. split; [reflexivity |]. split; [exact Hok2 |].
  intros k Hk. apply Hmono2, Hmono1, Hk.
Qed.

Lemma build_directory_tree_unfold (root : Path) (fs : fs_dir)
  (exclude : option (list string)) :
  let walked :=
    os_walk (keep_dir (default default_exclude_tree exclude)) root fs in
  tree_nodes (build_directory_tree root fs exclude)
    = repository_node root :: flat_map (listed_directory_nodes root) walked
  /\ tree_edges (build_directory_tree root fs exclude)
     = flat_map listed_edges walked.
Proof.
  unfold build_directory_tree.
  replace (match exclude with None => default_exclude_tree | Some e => e end)
    with (default default_exclude_tree exclude) by (destruct exclude; reflexivity).
  cbv zeta.
  destruct (tree_fold (keep_dir (default default_exclude_tree exclude)) root fs root
              (mkTreeState {[ root := stable_id [path_str root] ]}
                 [repository_node root] []))
    as (Hn & He & _).
  - intros k v Hk. cbn [dir_to_id] in Hk.
    apply lookup_singleton_Some in Hk as [<- <-]. reflexivity.
  - cbn [dir_to_id]. rewrite lookup_singleton_eq. eauto.
  - cbv zeta in Hn, He. split; [exact Hn | exact He].
Qed.

(** Every directory the walk arrives at is the root or was listed, and
    kept, by a triple of the same walk. *)
Lemma os_walk_parents keep (d : fs_dir) :
  forall dirpath t,
    t ∈ os_walk keep dirpath d ->
    t.1.1 = dirpath
    \/ exists t' x, t' ∈ os_walk keep dirpath d /\ x ∈ t'.1.2
                    /\ t.1.1 = t'.1.1 ++ [x].
Proof.
  induction d as [dname subdirs files IH] using fs_dir_ind'.
  intros dirpath t Ht. cbn [os_walk] in *.
  apply elem_of_cons in Ht as [-> | Ht]; [now left |]. right.
  apply list_elem_of_In, in_flat_map in Ht as (sub & Hsub & Ht).
  destruct (keep (fs_name sub)) eqn:Hk; [| now apply in_nil in Ht].
  rewrite Forall_forall in IH.
  apply list_elem_of_In in Hsub, Ht.
  destruct (IH sub Hsub _ _ Ht) as [Hroot | (t' & x & Ht' & Hx & Hp)].
  - eexists _, (fs_name sub). split; [apply list_elem_of_here |]. cbn [fst snd].
    split; [| exact Hroot].
    apply list_elem_of_In, filter_In. split; [| exact Hk].
    apply in_map. now apply list_elem_of_In.
  - exists t', x. split; [| auto].
    apply list_elem_of_further, list_elem_of_In, in_flat_map.
    exists sub. split; [now apply list_elem_of_In |]. rewrite Hk.
    now apply list_elem_of_In.
Qed.

Lemma known_elem (ns : list record) (n : record) (id : string) :
  n ∈ ns -> str_field "id" n = Some id -> known ns id.
Proof.
  intros Hn Hid. unfold known, node_ids. apply list_elem_of_omap. eauto.
Qed.

Lemma walked_directory_known keep (root : Path) (fs : fs_dir) t :
  t ∈ os_walk keep root fs ->
  known (repository_node root
           :: flat_map (listed_directory_nodes root) (os_walk keep root fs))
        (path_id t.1.1).
Proof.
  intros Ht. destruct (os_walk_parents keep fs root t Ht)
    as [-> | (t' & x & Ht' & Hx & ->)].
  - eapply known_elem; [apply list_elem_of_here | reflexivity].
  - apply (known_elem _ (directory_node root (t'.1.1 ++ [x])
                           (path_id (t'.1.1 ++ [x])) x)); [| reflexivity].
    apply list_elem_of_further, list_elem_of_In, in_flat_map.
    exists t'. split; [now apply list_elem_of_In |].
    unfold listed_directory_nodes. apply in_map_iff. exists x.
    split; [reflexivity | now apply list_elem_of_In].
Qed.

Lemma os_walk_dirs keep d :
  forall dirpath p x,
    (exists t, t ∈ os_walk keep dirpath d /\ t.1.1 = p /\ x ∈ t.1.2)
    <-> exists dirs, p = dirpath ++ dirs
                     /\ Forall (fun x => keep x = true) (dirs ++ [x])
                     /\ dir_at d (dirs ++ [x]).
Proof.
  induction d as [dname subdirs files IH] using fs_dir_ind'.
  intros dirpath p x. cbn [os_walk]. split.
  - intros (t & Ht & <- & Hx). apply elem_of_cons in Ht as [-> | Ht].
    + cbn [fst snd] in *. exists []. rewrite app_nil_r. cbn [app dir_at].
      apply list_elem_of_In, filter_In in Hx as [Hx Hk].
      apply in_map_iff in Hx as (sub & <- & Hsub).
      split; [reflexivity |]. split; [repeat constructor; exact Hk |].
      exists sub. split; [now apply list_elem_of_In |]. split; [reflexivity |].
      destruct sub; exact I.
    + apply list_elem_of_In, in_flat_map in Ht as (sub & Hsub & Ht).
      apply list_elem_of_In in Hsub.
      destruct (keep (fs_name sub)) eqn:Hk; [| now apply in_nil in Ht].
      rewrite Forall_forall in IH. specialize (IH sub Hsub).
      destruct (proj1 (IH (dirpath ++ [fs_name sub]) t.1.1 x))
        as (dirs & Hp & Hf & Hat).
      { exists t. split; [now apply list_elem_of_In | auto]. }
      exists (fs_name sub :: dirs). split; [| split].
      * rewrite Hp, <- app_assoc. reflexivity.
      * cbn [app]. constructor; assumption.
      * cbn [app dir_at]. eauto.
  - intros (dirs & -> & Hf & Hat). destruct dirs as [|y rest].
    + cbn [app dir_at] in Hat. destruct Hat as (sub & Hsub & <- & _).
      apply Forall_cons in Hf as [Hk _].
      eexists. split; [apply list_elem_of_here |]. cbn [fst snd].
      rewrite app_nil_r. split; [reflexivity |].
      apply list_elem_of_In, filter_In. split; [| exact Hk].
      apply in_map. now apply list_elem_of_In.
    + cbn [app dir_at] in Hat. destruct Hat as (sub & Hsub & <- & Hat).
      cbn [app] in Hf. apply Forall_cons in Hf as [Hk Hf].
      rewrite Forall_forall in IH. specialize (IH sub Hsub).
      destruct (proj2 (IH (dirpath ++ [fs_name sub])
                         ((dirpath ++ [fs_name sub]) ++ rest) x))
        as (t & Ht & Hp & Hx); [eauto |].
      exists t. split; [| split; [rewrite Hp, <- app_assoc; reflexivity | exact Hx]].
      apply list_elem_of_further, list_elem_of_In, in_flat_map.
      exists sub. split; [now apply list_elem_of_In |]. rewrite Hk.
      now apply list_elem_of_In.
Qed.





(** ** A relation kept by every handler is kept by the traversal *)

Section Preserved.

Context `{PyLib}.
Variable R : Extractor -> Extractor -> Prop.
Hypothesis R_refl : forall s, R s s.
Hypothesis R_trans : forall s1 s2 s3, R s1 s2 -> R s2 s3 -> R s1 s3.
Hypothesis R_function : forall v s, R s (set_current_function v s).
Hypothesis R_class : forall v s, R s (set_current_class v s).
Hypothesis R_push : forall id s, R s (push_scope id s).
Hypothesis R_pop : forall s, R s (pop_scope s).
Hypothesis R_Import : forall lineno names s, R s (visit_Import_names lineno names s).
Hypothesis R_ImportFrom :
  forall lineno module names level s,
    R s (visit_ImportFrom_names lineno module names level s).
Hypothesis R_record_function :
  forall is_async lineno end_lineno name fargs body decorator_list returns s,
    R s (_record_function
           (FunctionDef is_async lineno end_lineno name fargs body
              decorator_list returns) s).2.
Hypothesis R_record_class :
  forall lineno end_lineno name bases keywords body decorator_list s,
    R s (record_class
           (ClassDef lineno end_lineno name bases keywords body decorator_list) s).2.
Hypothesis R_record_assign :
  forall lineno targets value s, R s (record_assign lineno targets value s).1.
Hypothesis R_record_call :
  forall lineno func args keywords s, R s (record_call lineno func args keywords s).
Hypothesis R_raises : forall lineno e s, R s (record_flow "RAISES" lineno e s).
Hypothesis R_returns : forall lineno e s, R s (record_flow "RETURNS" lineno e s).

Lemma for_each_preserved {A} (f : A -> Visit) (l : list A) :
  (forall x s, R s (f x s).1) -> forall s, R s (for_each f l s).1.
Proof.
  intros Hf. induction l as [|x l IH]; intros s; simpl.
  - apply R_refl.
  - pose proof (Hf x s) as Hx. destruct (f x s) as [s1 [e|]]; [exact Hx |].
    eapply R_trans; [exact Hx | apply IH].
Qed.

Lemma and_then_preserved (m : Visit) (k : Extractor -> Extractor) s0 s :
  R s0 (m s).1 -> (forall s', R s' (k s')) -> R s0 (and_then m k s).1.
Proof.
  intros Hm Hk. unfold and_then. destruct (m s) as [s1 [e|]]; simpl in *; auto.
  eapply R_trans; [exact Hm | apply Hk].
Qed.

Lemma visit_preserved depth : forall node s, R s (visit depth node s).1.
Proof.
  induction depth as [|depth IH]; intros node s.
  - apply R_refl.
  - rewrite visit_S. cbv zeta.
    pose proof (fun n => for_each_preserved (visit depth) (iter_child_nodes n) IH) as Hg.
    destruct node as [b|st|e|h|o|a|a|k|a|w]; try apply Hg.
    + destruct st; try apply Hg.
      * pose proof (R_record_function is_async lineno end_lineno name fargs
                      body decorator_list returns s) as Hr.
        destruct (_record_function _ s) as [fn_id s1]. cbn [fst snd] in *.
        apply and_then_preserved.
        -- eapply R_trans; [| apply Hg].
           eapply R_trans; [exact Hr |].
           eapply R_trans; [apply R_function | apply R_push].
        -- intros s'. eapply R_trans; [apply R_pop | apply R_function].
      * pose proof (R_record_class lineno end_lineno name bases keywords
                      body decorator_list s) as Hr.
        destruct (record_class _ s) as [class_id s1]. cbn [fst snd] in *.
        apply and_then_preserved.
        -- eapply R_trans; [| apply Hg].
           eapply R_trans; [exact Hr |].
           eapply R_trans; [apply R_class | apply R_push].
        -- intros s'. eapply R_trans; [apply R_pop | apply R_class].
      * eapply R_trans; [apply R_returns | apply Hg].
      * match goal with
        | |- context [record_assign ?l ?t ?v s] =>
            pose proof (R_record_assign l t v s) as Ha;
            destruct (record_assign l t v s) as [s1 [e|]]
        end; [exact Ha | eapply R_trans; [exact Ha | apply Hg]].
      * eapply R_trans; [apply R_raises | apply Hg].
      * eapply R_trans; [apply R_Import | apply Hg].
      * eapply R_trans; [apply R_ImportFrom | apply Hg].
    + destruct e; try apply Hg.
      eapply R_trans; [apply R_record_call | apply Hg].
Qed.

End Preserved.

(** ** Counters and record types are kept by every handler *)

Lemma count_type_app t (l k : list record) :
  count_type t (l ++ k) = count_type t l + count_type t k.
Proof. unfold count_type. now rewrite List.filter_app, len_app. Qed.

Lemma count_type_single t (n : record) :
  count_type t [n] = if has_type t n then 1 else 0.
Proof. unfold count_type. cbn [List.filter]. now destruct (has_type t n). Qed.

Lemma stat_bump k k' (st : list (string * Z)) :
  stat k (dict_set k' (default 0 (dict_get k' st) + 1) st)
  = stat k st + (if decide (k = k') then 1 else 0).
Proof.
  unfold stat. rewrite dict_get_set.
  destruct (decide (k = k')) as [-> | _]; cbn [default from_option id]; [reflexivity | lia].
Qed.

Lemma surplus_append_node c n s :
  surplus c (append_node n s)
  = surplus c s - (if c.2 then 0 else if has_type c.1.2 n then 1 else 0).
Proof.
  unfold surplus, counted. cbn [append_node set_nodes nodes edges stats].
  destruct c.2; [lia |]. rewrite count_type_app, count_type_single. lia.
Qed.

Lemma surplus_append_edge c e s :
  surplus c (append_edge e s)
  = surplus c s - (if c.2 then if has_type c.1.2 e then 1 else 0 else 0).
Proof.
  unfold surplus, counted. cbn [append_edge set_edges nodes edges stats].
  destruct c.2; [| lia]. rewrite count_type_app, count_type_single. lia.
Qed.

Lemma surplus_bump c k s :
  surplus c (bump k s) = surplus c s + (if decide (c.1.1 = k) then 1 else 0).
Proof.
  unfold surplus. cbn [bump set_stats nodes edges stats]. rewrite stat_bump. lia.
Qed.

Lemma files_append_node n s :
  files (append_node n s) = files s + (if has_type "File" n then 1 else 0).
Proof.
  unfold files. cbn [append_node set_nodes nodes].
  now rewrite count_type_app, count_type_single.
Qed.

Lemma node_records_append_node n s :
  node_records (append_node n s) = node_records s && node_record n.
Proof.
  unfold node_records. cbn [append_node set_nodes nodes].
  rewrite forallb_app. cbn [forallb]. now rewrite andb_true_r.
Qed.

Lemma edge_records_append_edge e s :
  edge_records (append_edge e s) = edge_records s && edge_record e.
Proof.
  unfold edge_records. cbn [append_edge set_edges edges].
  rewrite forallb_app. cbn [forallb]. now rewrite andb_true_r.
Qed.

Lemma steady_refl s : steady s s.
Proof. constructor; auto. Qed.

Lemma steady_trans s1 s2 s3 : steady s1 s2 -> steady s2 s3 -> steady s1 s3.
Proof.
  intros [A1 A2 A3 A4] [B1 B2 B3 B4]. constructor.
  - intros c Hc. now rewrite B1, A1.
  - now rewrite B2.
  - now rewrite B3.
  - now rewrite B4.
Qed.

Lemma steady_fold {A} (f : Extractor -> A -> Extractor) (l : list A) :
  (forall s a, steady s (f s a)) -> forall s, steady s (fold_left f l s).
Proof.
  intros Hf. induction l as [|a l IH]; intros s; cbn [fold_left].
  - apply steady_refl.
  - eapply steady_trans; [apply Hf | apply IH].
Qed.

Lemma steady_fold_snd {A B} (f : B * Extractor -> A -> B * Extractor)
  (l : list A) :
  (forall acc a, steady acc.2 (f acc a).2) ->
  forall acc, steady acc.2 (fold_left f l acc).2.
Proof.
  intros Hf. induction l as [|a l IH]; intros acc; cbn [fold_left].
  - apply steady_refl.
  - eapply steady_trans; [apply Hf | apply IH].
Qed.

(** The tests on literal records and keys are settled by evaluation. *)
Ltac settle_tests :=
  repeat match goal with
  | |- context [has_type ?t ?n] =>
      let b := eval lazy in (has_type t n) in
      first [ constr_eq b true; change (has_type t n) with true
            | constr_eq b false; change (has_type t n) with false ]
  | |- context [node_record ?n] =>
      let b := eval lazy in (node_record n) in
      constr_eq b true; change (node_record n) with true
  | |- context [edge_record ?n] =>
      let b := eval lazy in (edge_record n) in
      constr_eq b true; change (edge_record n) with true
  | |- context [@decide (?a = ?b) ?i] =>
      let r := eval lazy in (bool_decide (a = b)) in
      first [ constr_eq r true;
              replace (@decide (a = b) i) with (@left (a = b) (a <> b) eq_refl)
                by reflexivity
            | constr_eq r false;
              destruct (@decide (a = b) i) as [Heq | _]; [discriminate Heq |] ]
  end.

Ltac steady_rewrite :=
  repeat first
    [ rewrite surplus_bump | rewrite surplus_append_node
    | rewrite surplus_append_edge
    | rewrite files_append_node
    | rewrite node_records_append_node
    | rewrite edge_records_append_edge
    | progress change (surplus ?c (set_imports_map ?f ?s)) with (surplus c s)
    | progress change (surplus ?c (set_defined_names ?f ?s)) with (surplus c s)
    | progress change (surplus ?c (set_scope_vars ?f ?s)) with (surplus c s)
    | progress change (files (set_imports_map ?f ?s)) with (files s)
    | progress change (files (set_defined_names ?f ?s)) with (files s)
    | progress change (files (set_scope_vars ?f ?s)) with (files s)
    | progress change (files (append_edge ?e ?s)) with (files s)
    | progress change (files (bump ?k ?s)) with (files s)
    | progress change (node_records (set_imports_map ?f ?s)) with (node_records s)
    | progress change (node_records (set_defined_names ?f ?s)) with (node_records s)
    | progress change (node_records (set_scope_vars ?f ?s)) with (node_records s)
    | progress change (node_records (append_edge ?e ?s)) with (node_records s)
    | progress change (node_records (bump ?k ?s)) with (node_records s)
    | progress change (edge_records (set_imports_map ?f ?s)) with (edge_records s)
    | progress change (edge_records (set_defined_names ?f ?s)) with (edge_records s)
    | progress change (edge_records (set_scope_vars ?f ?s)) with (edge_records s)
    | progress change (edge_records (append_node ?e ?s)) with (edge_records s)
    | progress change (edge_records (bump ?k ?s)) with (edge_records s) ].

(** A handler made of appends, bumps and map updates. *)
Ltac steady_steps :=
  constructor;
  [ let c := fresh "c" in let Hc := fresh "Hc" in
    intros c Hc; cbn [In counters] in Hc;
    repeat (destruct Hc as [<- | Hc]); [.. | contradiction];
    steady_rewrite; cbn [fst snd]; settle_tests; cbv iota; lia
  | steady_rewrite; settle_tests; cbv iota; lia
  | steady_rewrite; settle_tests; rewrite ?andb_true_r; reflexivity
  | steady_rewrite; settle_tests; rewrite ?andb_true_r; reflexivity ].

Lemma steady_set_current_function v s : steady s (set_current_function v s).
Proof. constructor; reflexivity. Qed.

Lemma steady_set_current_class v s : steady s (set_current_class v s).
Proof. constructor; reflexivity. Qed.

Lemma steady_push_scope id s : steady s (push_scope id s).
Proof. constructor; reflexivity. Qed.

Lemma steady_pop_scope s : steady s (pop_scope s).
Proof. constructor; reflexivity. Qed.

Section SteadyHandlers.

Context `{PyLib}.

Lemma steady_visit_Import_names lineno names s :
  steady s (visit_Import_names lineno names s).
Proof.
  unfold visit_Import_names. apply steady_fold. clear. intros s a. cbv zeta.
  steady_steps.
Qed.

Lemma steady_visit_ImportFrom_names lineno module names level s :
  steady s (visit_ImportFrom_names lineno module names level s).
Proof.
  unfold visit_ImportFrom_names. cbv zeta. apply steady_fold. clear.
  intros s a. steady_steps.
Qed.

Lemma steady_extract_decorators decorator_list s :
  steady s (_extract_decorators decorator_list s).2.
Proof.
  unfold _extract_decorators.
  refine (steady_fold_snd _ decorator_list _ ([], s)). clear.
  intros [decorators s] dec. cbv zeta. cbn [fst snd].
  destruct (dec_name (decorator_info dec)) as [name|]; [| apply steady_refl].
  destruct (nonempty name); [| apply steady_refl].
  cbn [snd]. steady_steps.
Qed.

Lemma steady_record_flow edge_type lineno e s :
  edge_type = "RAISES" \/ edge_type = "RETURNS" ->
  steady s (record_flow edge_type lineno e s).
Proof.
  intros Ht. unfold record_flow.
  destruct e as [e|]; [| apply steady_refl].
  destruct (current_function s) as [fn|]; [| apply steady_refl].
  destruct (nonempty fn); [| apply steady_refl].
  destruct (_safe_unparse e) as [text|]; [| apply steady_refl].
  destruct (nonempty text); [| apply steady_refl].
  destruct Ht as [-> | ->]; steady_steps.
Qed.

Lemma steady_record_call lineno func args keywords s :
  steady s (record_call lineno func args keywords s).
Proof.
  unfold record_call. cbv zeta.
  destruct (match func with
            | Name _ id => Some id
            | Attribute _ _ _ => Some (_get_full_name func)
            | _ => None
            end) as [callee|]; [| apply steady_refl].
  destruct (nonempty callee && nonempty (_get_current_scope s));
    [| apply steady_refl].
  destruct (defined_names s !! split_head "." callee) as [t|];
    [destruct (nonempty t) |]; steady_steps.
Qed.

Lemma steady_record_assign lineno targets value s :
  steady s (record_assign lineno targets value s).1.
Proof.
  unfold record_assign. cbv zeta.
  generalize (String.eqb (_get_current_scope s) (file_id s)) as is_global.
  generalize (_get_current_scope s) as scope.
  intros scope is_global.
  apply (for_each_preserved steady steady_refl steady_trans). clear.
  intros target s.
  destruct target; try apply steady_refl.
  match goal with
  | |- context [match ?X with Returned _ => _ | Raised _ => _ end] =>
      destruct X as [[value_str value_type]|e]
  end; [| apply steady_refl].
  cbn [fst]. steady_steps.
Qed.

Lemma steady_record_class lineno end_lineno name bases keywords body
  decorator_list s :
  steady s (record_class
              (ClassDef lineno end_lineno name bases keywords body decorator_list)
              s).2.
Proof.
  unfold record_class. cbv zeta. cbn [snd].
  match goal with
  | |- steady _ (bump _ (fold_left ?f ?l ?X0)) =>
      set (X := X0); assert (HY : steady X (fold_left f l X))
  end.
  { apply steady_fold. clear. intros s' base.
    destruct (defined_names s' !! base); steady_steps. }
  destruct HY as [Y1 Y2 Y3 Y4].
  constructor.
  - intros c Hc. rewrite surplus_bump, (Y1 c Hc). subst X.
    cbn [In counters] in Hc.
    repeat (destruct Hc as [<- | Hc]); [.. | contradiction];
      steady_rewrite; cbn [fst snd]; settle_tests; cbv iota; lia.
  - change (files (bump ?k ?s)) with (files s). rewrite Y2. subst X.
    steady_rewrite. settle_tests. cbv iota. lia.
  - change (node_records (bump ?k ?s)) with (node_records s). rewrite Y3. subst X.
    steady_rewrite. settle_tests. rewrite ?andb_true_r. reflexivity.
  - change (edge_records (bump ?k ?s)) with (edge_records s). rewrite Y4. subst X.
    steady_rewrite. settle_tests. rewrite ?andb_true_r. reflexivity.
Qed.

Lemma steady_record_function is_async lineno end_lineno name fargs body
  decorator_list returns s :
  steady s (_record_function
              (FunctionDef is_async lineno end_lineno name fargs body
                 decorator_list returns) s).2.
Proof.
  unfold _record_function. cbv zeta.
  pose proof (steady_extract_decorators decorator_list s) as Hd.
  destruct (_extract_decorators decorator_list s) as [decorators s1].
  cbn [fst snd] in *.
  eapply steady_trans; [exact Hd |]. clear Hd.
  match goal with
  | |- steady _ (bump _ (fold_left ?g ?k (fold_left ?f ?l ?X0))) =>
      set (X := X0);
      assert (HZ : steady X (fold_left f l X));
      [| assert (HY : steady (fold_left f l X) (fold_left g k (fold_left f l X)))]
  end.
  { apply steady_fold. clear. intros s' param. steady_steps. }
  { apply steady_fold. clear. intros s' dec.
    destruct (dec_name dec) as [dname|]; [| apply steady_refl].
    destruct (nonempty dname); [| apply steady_refl]. steady_steps. }
  destruct (steady_trans _ _ _ HZ HY) as [Y1 Y2 Y3 Y4]. clear HZ HY.
  destruct (bool_decide (current_class s <> None)) eqn:Em.
  - constructor.
    + intros c Hc. rewrite surplus_bump, (Y1 c Hc). subst X.
      cbn [In counters] in Hc.
      repeat (destruct Hc as [<- | Hc]); [.. | contradiction];
        steady_rewrite; cbn [fst snd]; settle_tests; cbv iota; lia.
    + change (files (bump ?k ?s)) with (files s). rewrite Y2. subst X.
      steady_rewrite. settle_tests. cbv iota. lia.
    + change (node_records (bump ?k ?s)) with (node_records s). rewrite Y3.
      subst X.
      steady_rewrite. settle_tests. rewrite ?andb_true_r. reflexivity.
    + change (edge_records (bump ?k ?s)) with (edge_records s). rewrite Y4.
      subst X.
      steady_rewrite. settle_tests. rewrite ?andb_true_r. reflexivity.
  - constructor.
    + intros c Hc. rewrite surplus_bump, (Y1 c Hc). subst X.
      cbn [In counters] in Hc.
      repeat (destruct Hc as [<- | Hc]); [.. | contradiction];
        steady_rewrite; cbn [fst snd]; settle_tests; cbv iota; lia.
    + change (files (bump ?k ?s)) with (files s). rewrite Y2. subst X.
      steady_rewrite. settle_tests. cbv iota. lia.
    + change (node_records (bump ?k ?s)) with (node_records s). rewrite Y3.
      subst X.
      steady_rewrite. settle_tests. rewrite ?andb_true_r. reflexivity.
    + change (edge_records (bump ?k ?s)) with (edge_records s). rewrite Y4.
      subst X.
      steady_rewrite. settle_tests. rewrite ?andb_true_r. reflexivity.
Qed.

(** The traversal keeps counters and record types, whether it completes or
    stops at a fault. *)
Lemma visit_steady depth node s : steady s (visit depth node s).1.
Proof.
  apply (visit_preserved steady steady_refl steady_trans
           steady_set_current_function steady_set_current_class
           steady_push_scope (fun s => steady_pop_scope s)
           steady_visit_Import_names steady_visit_ImportFrom_names
           steady_record_function steady_record_class steady_record_assign
           steady_record_call).
  - intros. apply steady_record_flow. now left.
  - intros. apply steady_record_flow. now right.
Qed.

End SteadyHandlers.

Section Tallies.

Context `{PyLib}.

Lemma file_node_state root path text s :
  first_state root path text = Returned s ->
  (forall c, In c counters -> surplus c s = 0)
  /\ files s = 1 /\ node_records s = true /\ edge_records s = true
  /\ exists n, nodes s = [n] /\ has_type "File" n = true
               /\ str_field "id" n = Some (path_id path).
Proof.
  unfold first_state.
  destruct (new_extractor root path text) as [x|] eqn:Ex; [| discriminate].
  apply new_extractor_inv in Ex as [_ ->].
  unfold record_file_node. cbn [file_path repo_root].
  destruct (relative_to path root) as [rel|e]; [| discriminate].
  intros [= <-]. cbn [file_path src file_id].
  split; [| split; [| split; [| split]]].
  - intros c Hc. cbn [In counters] in Hc.
    repeat (destruct Hc as [<- | Hc]); [.. | contradiction]; reflexivity.
  - reflexivity.
  - reflexivity.
  - reflexivity.
  - eexists. split; [reflexivity |]. split; reflexivity.
Qed.

Lemma extract_file_cases limit root u ns es st :
  extract_file limit root u = Returned (ns, es, st) ->
  (ns = [] /\ es = [] /\ st = [])
  \/ exists src tree start,
       unit_text u = Returned src /\ unit_tree u = Returned tree
       /\ first_state root (unit_path u) src = Returned start
       /\ ns = nodes (visit limit (NModule tree) start).1
       /\ es = edges (visit limit (NModule tree) start).1
       /\ st = stats (visit limit (NModule tree) start).1.
Proof.
  rewrite extract_file_unfold.
  destruct (unit_text u) as [text|e]; [| intros [= <- <- <-]; now left].
  destruct (unit_tree u) as [tree|e]; [| intros [= <- <- <-]; now left].
  destruct (first_state _ _ _) as [start|e] eqn:Es; [| discriminate].
  cbv zeta. intros [= <- <- <-]. right. exists text, tree, start.
  repeat split; try reflexivity. exact Es.
Qed.

Lemma extract_file_steady limit root u ns es st :
  extract_file limit root u = Returned (ns, es, st) ->
  ns <> [] ->
  exists start final,
    first_state root (unit_path u)
      match unit_text u with Returned t => t | Raised _ => "" end
      = Returned start
    /\ steady start final /\ grows start final
    /\ ns = nodes final /\ es = edges final /\ st = stats final.
Proof.
  intros Hex Hne.
  destruct (extract_file_cases _ _ _ _ _ _ Hex)
    as [(-> & _) | (text & tree & start & Ht & _ & Hs & -> & -> & ->)];
    [contradiction |].
  rewrite Ht. exists start, (visit limit (NModule tree) start).1.
  split; [exact Hs |]. split; [apply visit_steady |].
  split; [apply visit_good | auto].
Qed.

(** X6: the statistics of an extraction count its records.  Each of the
    seven counters equals the number of node records of its type (the
    number of CALLS edges, for [calls]) that the extraction returns, also
    when the traversal stopped at a fault. *)
Theorem statistics_count_the_records limit root u ns es st
  (Hex : extract_file limit root u = Returned (ns, es, st)) :
  stats_agree ns es st.
Proof.
  destruct (extract_file_cases _ _ _ _ _ _ Hex)
    as [(-> & -> & ->) | (text & tree & start & _ & _ & Hs & -> & -> & ->)].
  - intros c Hc. cbn [In counters] in Hc.
    repeat (destruct Hc as [<- | Hc]); [.. | contradiction]; reflexivity.
  - destruct (file_node_state _ _ _ _ Hs) as (H0 & _).
    destruct (visit_steady limit (NModule tree) start) as [Hv _ _ _].
    intros c Hc. specialize (Hv c Hc). rewrite (H0 c Hc) in Hv.
    unfold surplus in Hv. lia.
Qed.

(** X7: every node record of an extraction has a string [id] and one of the
    node types File, Import, Decorator, Function, Method, Parameter, Class
    and Variable; every edge record has a string [from_id] and one of the
    edge types IMPORTS, DEFINES, HAS_PARAMETER, DECORATES, INHERITS, CALLS,
    RAISES and RETURNS.  The extractor writes no Module node and no USES
    edge. *)
Theorem extracted_records_are_typed limit root u ns es st
  (Hex : extract_file limit root u = Returned (ns, es, st)) :
  forallb node_record ns = true /\ forallb edge_record es = true.
Proof.
  destruct (extract_file_cases _ _ _ _ _ _ Hex)
    as [(-> & -> & ->) | (text & tree & start & _ & _ & Hs & -> & -> & ->)];
    [split; reflexivity |].
  destruct (file_node_state _ _ _ _ Hs) as (_ & _ & Hn & He & _).
  destruct (visit_steady limit (NModule tree) start) as [_ _ Vn Ve].
  unfold node_records, edge_records in *. now rewrite Vn, Ve.
Qed.

Lemma count_type_zero t (l : list record) :
  count_type t l = 0 -> Forall (fun n => has_type t n = false) l.
Proof.
  unfold count_type. induction l as [|n l IH]; [constructor |].
  cbn [List.filter]. destruct (has_type t n) eqn:E.
  - rewrite len_cons. unfold len. lia.
  - intros Hl. constructor; auto.
Qed.

(** X8: an extraction that returns records returns the File node first, under
    the id made from the path of the unit, and no other File node. *)
Theorem file_node_comes_first limit root u ns es st
  (Hex : extract_file limit root u = Returned (ns, es, st))
  (Hne : ns <> []) :
  exists file_node rest,
    ns = file_node :: rest
    /\ has_type "File" file_node = true
    /\ str_field "id" file_node = Some (path_id (unit_path u))
    /\ Forall (fun n => has_type "File" n = false) rest.
Proof.
  destruct (extract_file_steady _ _ _ _ _ _ Hex Hne)
    as (start & final & Hs & [_ Hf _ _] & (Hp & _) & -> & _).
  destruct (file_node_state _ _ _ _ Hs) as (_ & H1 & _ & _ & n & Hn & Ht & Hid).
  destruct Hp as [rest Hp]. rewrite Hn in Hp. cbn [app] in Hp.
  exists n, rest. split; [exact Hp |]. split; [exact Ht |]. split; [exact Hid |].
  apply count_type_zero. rewrite H1 in Hf. unfold files in Hf. rewrite Hp in Hf.
  change (n :: rest) with ([n] ++ rest) in Hf.
  rewrite count_type_app, count_type_single, Ht in Hf. lia.
Qed.

End Tallies.

(** ** The counters stay in place *)

Lemma keeps_counters_refl s : keeps_counters s s.
Proof. intros Hs. exact Hs. Qed.

Lemma keeps_counters_trans s1 s2 s3 :
  keeps_counters s1 s2 -> keeps_counters s2 s3 -> keeps_counters s1 s3.
Proof. unfold keeps_counters. auto. Qed.

Lemma keeps_counters_stats s s' : stats s' = stats s -> keeps_counters s s'.
Proof. unfold keeps_counters, has_counters. now intros ->. Qed.

Lemma keeps_counters_bump k s :
  In k (map fst initial_stats) -> keeps_counters s (bump k s).
Proof.
  intros Hk Hs. unfold has_counters in *. cbn [bump set_stats stats].
  rewrite dict_keys_set.
  destruct (dict_get k (stats s)) eqn:E; [exact Hs |].
  exfalso. apply (proj1 (dict_get_key k (stats s))); [| exact E].
  rewrite Hs. now apply list_elem_of_In.
Qed.

Lemma keeps_counters_fold {A} (f : Extractor -> A -> Extractor) (l : list A) :
  (forall s a, keeps_counters s (f s a)) ->
  forall s, keeps_counters s (fold_left f l s).
Proof.
  intros Hf. induction l as [|a l IH]; intros s; cbn [fold_left].
  - apply keeps_counters_refl.
  - eapply keeps_counters_trans; [apply Hf | apply IH].
Qed.

Lemma keeps_counters_fold_snd {A B} (f : B * Extractor -> A -> B * Extractor)
  (l : list A) :
  (forall acc a, keeps_counters acc.2 (f acc a).2) ->
  forall acc, keeps_counters acc.2 (fold_left f l acc).2.
Proof.
  intros Hf. induction l as [|a l IH]; intros acc; cbn [fold_left].
  - apply keeps_counters_refl.
  - eapply keeps_counters_trans; [apply Hf | apply IH].
Qed.

Lemma keeps_counters_append_node n s : keeps_counters s (append_node n s).
Proof. now apply keeps_counters_stats. Qed.

Lemma keeps_counters_append_edge e s : keeps_counters s (append_edge e s).
Proof. now apply keeps_counters_stats. Qed.

Lemma keeps_counters_set_imports_map f s : keeps_counters s (set_imports_map f s).
Proof. now apply keeps_counters_stats. Qed.

Lemma keeps_counters_set_defined_names f s :
  keeps_counters s (set_defined_names f s).
Proof. now apply keeps_counters_stats. Qed.

Lemma keeps_counters_set_scope_vars f s : keeps_counters s (set_scope_vars f s).
Proof. now apply keeps_counters_stats. Qed.

Ltac counters_step :=
  lazymatch goal with
  | |- keeps_counters ?s ?s => apply keeps_counters_refl
  | |- keeps_counters _ (bump _ _) =>
      eapply keeps_counters_trans;
      [| apply keeps_counters_bump; cbn [In map fst initial_stats];
         repeat first [left; reflexivity | right]]
  | |- keeps_counters _ (fold_left _ _ _) =>
      eapply keeps_counters_trans; [| apply keeps_counters_fold; intros]
  | |- keeps_counters _ (append_node _ _) =>
      eapply keeps_counters_trans; [| apply keeps_counters_append_node]
  | |- keeps_counters _ (append_edge _ _) =>
      eapply keeps_counters_trans; [| apply keeps_counters_append_edge]
  | |- keeps_counters _ (set_imports_map _ _) =>
      eapply keeps_counters_trans; [| apply keeps_counters_set_imports_map]
  | |- keeps_counters _ (set_defined_names _ _) =>
      eapply keeps_counters_trans; [| apply keeps_counters_set_defined_names]
  | |- keeps_counters _ (set_scope_vars _ _) =>
      eapply keeps_counters_trans; [| apply keeps_counters_set_scope_vars]
  end.

Section CounterHandlers.

Context `{PyLib}.

Lemma counters_visit_Import_names lineno names s :
  keeps_counters s (visit_Import_names lineno names s).
Proof.
  unfold visit_Import_names. apply keeps_counters_fold. clear. intros s a.
  cbv zeta. repeat counters_step.
Qed.

Lemma counters_visit_ImportFrom_names lineno module names level s :
  keeps_counters s (visit_ImportFrom_names lineno module names level s).
Proof.
  unfold visit_ImportFrom_names. cbv zeta. apply keeps_counters_fold. clear.
  intros s a. repeat counters_step.
Qed.

Lemma counters_extract_decorators decorator_list s :
  keeps_counters s (_extract_decorators decorator_list s).2.
Proof.
  unfold _extract_decorators.
  refine (keeps_counters_fold_snd _ decorator_list _ ([], s)). clear.
  intros [decorators s] dec. cbv zeta. cbn [fst snd].
  destruct (dec_name (decorator_info dec)) as [name|]; [| apply keeps_counters_refl].
  destruct (nonempty name); [| apply keeps_counters_refl].
  cbn [snd]. repeat counters_step.
Qed.

Lemma counters_record_flow edge_type lineno e s :
  keeps_counters s (record_flow edge_type lineno e s).
Proof.
  apply keeps_counters_stats. unfold record_flow.
  destruct e as [e|]; [| reflexivity].
  destruct (current_function s) as [fn|]; [| reflexivity].
  destruct (nonempty fn); [| reflexivity].
  destruct (_safe_unparse e) as [text|]; [| reflexivity].
  destruct (nonempty text); reflexivity.
Qed.

Lemma counters_record_call lineno func args keywords s :
  keeps_counters s (record_call lineno func args keywords s).
Proof.
  unfold record_call. cbv zeta.
  destruct (match func with
            | Name _ id => Some id
            | Attribute _ _ _ => Some (_get_full_name func)
            | _ => None
            end) as [callee|]; [| apply keeps_counters_refl].
  destruct (nonempty callee && nonempty (_get_current_scope s));
    [| apply keeps_counters_refl].
  repeat counters_step.
Qed.

Lemma counters_record_assign lineno targets value s :
  keeps_counters s (record_assign lineno targets value s).1.
Proof.
  unfold record_assign. cbv zeta.
  generalize (String.eqb (_get_current_scope s) (file_id s)) as is_global.
  generalize (_get_current_scope s) as scope.
  intros scope is_global.
  apply (for_each_preserved keeps_counters keeps_counters_refl
           keeps_counters_trans). clear.
  intros target s.
  destruct target; try apply keeps_counters_refl.
  match goal with
  | |- context [match ?X with Returned _ => _ | Raised _ => _ end] =>
      destruct X as [[value_str value_type]|e]
  end; [| apply keeps_counters_refl].
  cbn [fst]. repeat counters_step.
Qed.

Lemma counters_record_class lineno end_lineno name bases keywords body
  decorator_list s :
  keeps_counters s
    (record_class
       (ClassDef lineno end_lineno name bases keywords body decorator_list) s).2.
Proof.
  unfold record_class. cbv zeta. cbn [snd].
  repeat counters_step.
  match goal with
  | |- keeps_counters _ (match ?x with _ => _ end) => destruct x
  end; repeat counters_step.
Qed.

Lemma counters_record_function is_async lineno end_lineno name fargs body
  decorator_list returns s :
  keeps_counters s
    (_record_function
       (FunctionDef is_async lineno end_lineno name fargs body
          decorator_list returns) s).2.
Proof.
  unfold _record_function. cbv zeta.
  pose proof (counters_extract_decorators decorator_list s) as Hd.
  destruct (_extract_decorators decorator_list s) as [decorators s1].
  cbn [fst snd] in *.
  eapply keeps_counters_trans; [exact Hd |]. clear Hd.
  destruct (bool_decide (current_class s <> None)); repeat counters_step.
  all: match goal with
       | |- keeps_counters _ (match ?x with _ => _ end) =>
           destruct x as [dname|]; [destruct (nonempty dname) |]
       end; repeat counters_step.
Qed.

Lemma visit_keeps_counters depth node s :
  keeps_counters s (visit depth node s).1.
Proof.
  apply (visit_preserved keeps_counters keeps_counters_refl keeps_counters_trans);
    try (intros; apply keeps_counters_stats; reflexivity).
  - apply counters_visit_Import_names.
  - apply counters_visit_ImportFrom_names.
  - apply counters_record_function.
  - apply counters_record_class.
  - apply counters_record_assign.
  - apply counters_record_call.
  - intros. apply counters_record_flow.
  - intros. apply counters_record_flow.
Qed.

End CounterHandlers.

(** ** The loop over the files *)

Section Files.

Context `{PyLib}.

Lemma parsed_unit_of w p : parsed (unit_of w p) = negb (unreadable w p).
Proof.
  unfold parsed, unreadable, unit_of. cbn [unit_text unit_tree].
  destruct (file_text w p), (file_tree w p); reflexivity.
Qed.

Lemma extraction_of_unreadable w limit root p :
  unreadable w p = true -> extraction_of w limit root p = ([], [], []).
Proof.
  unfold extraction_of. rewrite extract_file_unfold.
  unfold unreadable, unit_of. cbn [unit_text unit_tree].
  destruct (file_text w p), (file_tree w p); try discriminate; reflexivity.
Qed.

Lemma extraction_of_returned w limit root p x :
  extract_file limit root (unit_of w p) = Returned x ->
  extraction_of w limit root p = x
  /\ (unreadable w p = false ->
      x.1.1 <> [] /\ has_surrogate (path_str p) = false).
Proof.
  intros Hex. unfold extraction_of. rewrite Hex. split; [reflexivity |].
  intros Hu. rewrite extract_file_unfold in Hex.
  unfold unreadable, unit_of in *. cbn [unit_text unit_tree unit_path] in *.
  destruct (file_text w p) as [text|]; [| discriminate].
  destruct (file_tree w p) as [tree|]; [| discriminate].
  destruct (first_state root p text) as [start|] eqn:Es; [| discriminate].
  cbv zeta in Hex. injection Hex as <-. cbn [fst]. split.
  - eapply first_nodes_kept; eauto.
  - unfold first_state in Es.
    destruct (new_extractor root p text) as [y|] eqn:Ey; [| discriminate].
    now apply new_extractor_inv in Ey as [Hy _].
Qed.

(** One turn of the loop, when it completes. *)
Lemma process_file_inv w limit root st p st' :
  process_file w limit root st p = Returned st' ->
  st' = (if unreadable w p
         then count_error st
         else mkProgress
                (mkOutput
                   (Some (default [] (nodes_jsonl (out st))
                          ++ nodes_of w limit root p))
                   (Some (default [] (edges_jsonl (out st))
                          ++ edges_of w limit root p))
                   (stats_json (out st)))
                (add_stats (total_stats st) (stats_of w limit root p))
                (errors st))
  /\ (unreadable w p = false -> has_surrogate (path_str p) = false)
  /\ forallb record_encodable (nodes_of w limit root p) = true
  /\ forallb record_encodable (edges_of w limit root p) = true.
Proof.
  unfold process_file.
  change (mkUnit p (file_text w p) (file_tree w p)) with (unit_of w p).
  destruct (extract_file limit root (unit_of w p)) as [[[ns es] stats]|]
    eqn:Hex; [| discriminate].
  destruct (extraction_of_returned _ _ _ _ _ Hex) as [Hx Hgood].
  unfold nodes_of, edges_of, stats_of. rewrite Hx. cbn [fst snd] in *.
  destruct (unreadable w p) eqn:Eu.
  - rewrite (extraction_of_unreadable w limit root p Eu) in Hx.
    injection Hx as <- <- <-. intros [= <-].
    repeat split; try reflexivity. discriminate.
  - destruct (Hgood eq_refl) as [Hne Hp].
    destruct ns as [|n ns]; [contradiction |].
    unfold write_jsonl.
    destruct (forallb record_encodable (n :: ns)); [| discriminate].
    destruct (forallb record_encodable es); [| discriminate].
    intros [= <-]. repeat split; auto.
Qed.

(** One turn of the loop completes when the path of the file, if the file
    is parsed, and its records can be encoded. *)
Lemma process_file_total w limit root st p :
  is_prefix_of root p = true ->
  (unreadable w p = false -> has_surrogate (path_str p) = false) ->
  forallb record_encodable (nodes_of w limit root p) = true ->
  forallb record_encodable (edges_of w limit root p) = true ->
  exists st', process_file w limit root st p = Returned st'.
Proof.
  intros Hp Hpath Hn He.
  destruct (extract_file_returns limit root (unit_of w p))
    as (ns & es & stats & Hex & _).
  { rewrite parsed_unit_of. intros Hu. apply negb_true_iff in Hu. auto. }
  unfold nodes_of, edges_of, extraction_of in Hn, He. rewrite Hex in Hn, He.
  cbn [fst snd] in Hn, He.
  unfold process_file.
  change (mkUnit p (file_text w p) (file_tree w p)) with (unit_of w p).
  rewrite Hex. unfold write_jsonl. rewrite Hn, He.
  destruct ns, es; eauto.
Qed.

Lemma process_files_inv w limit root files :
  forall st st' n0 e0,
    process_files w limit root files st = Returned st' ->
    nodes_jsonl (out st) = Some n0 -> edges_jsonl (out st) = Some e0 ->
    out st'
    = mkOutput (Some (n0 ++ flat_map (nodes_of w limit root) files))
        (Some (e0 ++ flat_map (edges_of w limit root) files))
        (stats_json (out st))
    /\ total_stats st'
       = fold_left add_stats
           (map (stats_of w limit root)
              (List.filter (fun p => negb (unreadable w p)) files))
           (total_stats st)
    /\ errors st' = errors st + len (List.filter (unreadable w) files)
    /\ forallb (fun p => unreadable w p || negb (has_surrogate (path_str p)))
         files = true
    /\ forallb record_encodable (flat_map (nodes_of w limit root) files) = true
    /\ forallb record_encodable (flat_map (edges_of w limit root) files) = true.
Proof.
  induction files as [|p files IH]; intros st st' n0 e0 Hrun Hn He;
    cbn [process_files] in Hrun.
  - injection Hrun as <-. cbn [flat_map List.filter map fold_left forallb].
    rewrite !app_nil_r, <- Hn, <- He. unfold len. cbn [length].
    split; [now destruct st as [[] ? ?] |].
    split; [reflexivity |]. split; [lia |]. auto.
  - destruct (process_file w limit root st p) as [st1|] eqn:E1; [| discriminate].
    destruct (process_file_inv _ _ _ _ _ _ E1) as (-> & Hpath & Hns & Hes).
    cbn [flat_map List.filter forallb]. rewrite !forallb_app, Hns, Hes.
    destruct (unreadable w p) eqn:Eu.
    + destruct (IH _ _ n0 e0 Hrun Hn He) as (Ho & Ht & Herr & Hf & Hfn & Hfe).
      cbn [out total_stats errors negb count_error orb andb] in *.
      unfold nodes_of, edges_of at 1.
      rewrite (extraction_of_unreadable w limit root p Eu). cbn [fst snd app].
      split; [exact Ho |]. split; [exact Ht |].
      split; [rewrite Herr, len_cons; lia |]. auto.
    + rewrite (Hpath eq_refl).
      destruct (IH _ _ (n0 ++ nodes_of w limit root p)
                  (e0 ++ edges_of w limit root p) Hrun)
        as (Ho & Ht & Herr & Hf & Hfn & Hfe).
      { cbn [out nodes_jsonl]. rewrite Hn. reflexivity. }
      { cbn [out edges_jsonl]. rewrite He. reflexivity. }
      cbn [out total_stats errors negb stats_json orb andb default from_option id]
        in *.
      cbn [map fold_left]. rewrite <- !app_assoc in Ho. auto 10.
Qed.

Lemma process_files_total w limit root files :
  Forall (fun p => is_prefix_of root p = true) files ->
  forallb (fun p => unreadable w p || negb (has_surrogate (path_str p)))
    files = true ->
  forallb record_encodable (flat_map (nodes_of w limit root) files) = true ->
  forallb record_encodable (flat_map (edges_of w limit root) files) = true ->
  forall st, exists st', process_files w limit root files st = Returned st'.
Proof.
  induction 1 as [|p files Hp _ IH]; intros Hf Hn He st; cbn [process_files];
    [eauto |].
  cbn [forallb flat_map] in Hf, Hn, He. rewrite forallb_app in Hn, He.
  apply andb_true_iff in Hf as [Hf1 Hf], Hn as [Hn1 Hn], He as [He1 He].
  destruct (process_file_total w limit root st p Hp) as [st1 ->]; auto.
  intros Hu. rewrite Hu in Hf1. now apply negb_true_iff in Hf1.
Qed.

(** The loop raises nothing but [UnicodeEncodeError]. *)
Lemma process_files_raised w limit root files :
  Forall (fun p => is_prefix_of root p = true) files ->
  forall st e,
    process_files w limit root files st = Raised e -> e = UnicodeEncodeError.
Proof.
  induction 1 as [|p files Hp _ IH]; intros st e; cbn [process_files];
    [discriminate |].
  destruct (process_file w limit root st p) as [st1|e1] eqn:E1; [apply IH |].
  intros [= <-]. unfold process_file in E1.
  destruct (extract_file _ _ _) as [[[ns es] stats]|e0] eqn:Hex.
  - unfold write_jsonl in E1.
    destruct ns, es; try discriminate;
      repeat match type of E1 with
             | context [if ?c then _ else _] => destruct c
             end; congruence.
  - injection E1 as <-.
    apply extract_file_raised in Hex as (_ & [[-> _] | [_ Hc]]);
      [reflexivity |].
    cbn [unit_path] in Hc. congruence.
Qed.

End Files.

(** ** Totals *)

Lemma stat_add_stats k (stats total : list (string * Z)) :
  stat k (add_stats total stats) = stat k total + sum_key k stats.
Proof.
  unfold add_stats, sum_key. revert total.
  induction stats as [|[k' v] stats IH]; intros total; cbn [fold_left map fst snd].
  - unfold sumZ. cbn. lia.
  - rewrite IH, sumZ_cons. unfold stat at 1. rewrite dict_get_set.
    destruct (decide (k = k')) as [-> | _]; cbn [default from_option id];
      unfold stat; lia.
Qed.

Lemma sum_key_absent k (st : list (string * Z)) :
  ~ In k (map fst st) -> sum_key k st = 0.
Proof.
  unfold sum_key. induction st as [|[k' v] st IH]; intros Hk; [reflexivity |].
  cbn [map fst snd]. rewrite sumZ_cons. cbn [map fst In] in Hk.
  destruct (decide (k = k')) as [-> | _]; [tauto |]. rewrite IH; tauto.
Qed.

Lemma sum_key_nodup k (st : list (string * Z)) :
  List.NoDup (map fst st) -> sum_key k st = stat k st.
Proof.
  induction st as [|[k' v] st IH]; intros Hnd; [reflexivity |].
  cbn [map fst] in Hnd. apply List.NoDup_cons_iff in Hnd as [Hk' Hnd].
  unfold sum_key in *. cbn [map fst snd]. rewrite sumZ_cons.
  unfold stat in *. cbn [dict_get].
  destruct (decide (k = k')) as [-> | _].
  - cbn [default from_option id]. fold (sum_key k' st). rewrite sum_key_absent by exact Hk'. lia.
  - rewrite IH by exact Hnd. lia.
Qed.

Lemma stat_fold_add_stats k (l : list (list (string * Z))) :
  Forall (fun st => List.NoDup (map fst st)) l ->
  forall total,
    stat k (fold_left add_stats l total)
    = stat k total + sumZ (map (stat k) l).
Proof.
  induction 1 as [|st l Hst _ IH]; intros total; cbn [fold_left map].
  - unfold sumZ. cbn. lia.
  - rewrite IH, stat_add_stats, sum_key_nodup, sumZ_cons by exact Hst. lia.
Qed.

Lemma count_type_flat_map {A} t (f : A -> list record) (l : list A) :
  count_type t (flat_map f l) = sumZ (map (fun x => count_type t (f x)) l).
Proof.
  induction l as [|x l IH]; [reflexivity |].
  cbn [flat_map map]. now rewrite count_type_app, sumZ_cons, IH.
Qed.

Lemma sumZ_map_ext {A} (f g : A -> Z) (l : list A) :
  (forall x, In x l -> f x = g x) -> sumZ (map f l) = sumZ (map g l).
Proof.
  induction l as [|x l IH]; intros Hfg; [reflexivity |].
  cbn [map]. rewrite !sumZ_cons, IH.
  - rewrite (Hfg x); [reflexivity | now left].
  - intros y Hy. apply Hfg. now right.
Qed.

Lemma sumZ_filter {A} (p : A -> bool) (f : A -> Z) (l : list A) :
  (forall x, In x l -> p x = false -> f x = 0) ->
  sumZ (map f (List.filter p l)) = sumZ (map f l).
Proof.
  induction l as [|x l IH]; intros H0; [reflexivity |].
  assert (Hl : forall y, In y l -> p y = false -> f y = 0)
    by (intros y Hy; apply H0; now right).
  cbn [List.filter map]. destruct (p x) eqn:E; cbn [map]; rewrite ?sumZ_cons, (IH Hl).
  - reflexivity.
  - rewrite (H0 x); [reflexivity | now left | exact E].
Qed.

Section Totals.

Context `{PyLib}.

Lemma extraction_counters w limit root p :
  List.NoDup (map fst (stats_of w limit root p))
  /\ stats_agree (nodes_of w limit root p) (edges_of w limit root p)
       (stats_of w limit root p).
Proof.
  unfold stats_of, nodes_of, edges_of, extraction_of.
  destruct (extract_file limit root (unit_of w p)) as [[[ns es] st]|e] eqn:Hex;
    cbn [fst snd].
  - destruct (extract_file_cases _ _ _ _ _ _ Hex)
      as [(-> & -> & ->) | (text & tree & start & _ & _ & Hs & -> & -> & ->)].
    + split; [constructor |]. intros c Hc. cbn [In counters] in Hc.
      repeat (destruct Hc as [<- | Hc]); [.. | contradiction]; reflexivity.
    + split.
      * rewrite (visit_keeps_counters limit (NModule tree) start).
        -- cbn [map fst initial_stats]. repeat constructor; cbn; intuition discriminate.
        -- unfold first_state in Hs.
           destruct (new_extractor _ _ _) as [y|] eqn:Ey; [| discriminate].
           apply new_extractor_inv in Ey as [_ ->].
           unfold record_file_node in Hs.
           destruct (relative_to _ _); [| discriminate]. now injection Hs as <-.
      * destruct (file_node_state _ _ _ _ Hs) as (H0 & _).
        destruct (visit_steady limit (NModule tree) start) as [Hv _ _ _].
        intros c Hc. specialize (Hv c Hc). rewrite (H0 c Hc) in Hv.
        unfold surplus in Hv. lia.
  - split; [constructor |]. intros c Hc. cbn [In counters] in Hc.
    repeat (destruct Hc as [<- | Hc]); [.. | contradiction]; reflexivity.
Qed.

(** The totals of the run count the records of its files. *)
Lemma totals_count_the_records w limit root files c :
  In c counters ->
  stat c.1.1
    (fold_left add_stats
       (map (stats_of w limit root)
          (List.filter (fun p => negb (unreadable w p)) files)) [])
  = counted c (flat_map (nodes_of w limit root) files)
      (flat_map (edges_of w limit root) files).
Proof.
  intros Hc. rewrite stat_fold_add_stats.
  2: { apply Forall_forall. intros st Hst.
       apply list_elem_of_In, in_map_iff in Hst as (p & <- & _).
       apply extraction_counters. }
  change (stat c.1.1 []) with 0. rewrite Z.add_0_l, map_map.
  rewrite (sumZ_map_ext _ (fun p => counted c (nodes_of w limit root p)
                                      (edges_of w limit root p))).
  2: { intros p _. now apply extraction_counters. }
  rewrite sumZ_filter.
  2: { intros p Hp Hu. apply negb_false_iff in Hu.
       unfold nodes_of, edges_of.
       rewrite (extraction_of_unreadable w limit root p Hu).
       unfold counted. now destruct c.2. }
  unfold counted. destruct c.2; now rewrite count_type_flat_map.
Qed.

End Totals.

(** ** The analysis as a whole *)

Section Analysis.

Context `{PyLib}.

(** What a run that completes has returned and written. *)
Lemma analyze_repository_inv w limit root o exclude clean b o' :
  repo_exists w = true ->
  reuses w o clean = false ->
  analyze_repository w limit root o exclude clean = Returned (b, o') ->
  let tree := build_directory_tree root (fs w) (Some exclude) in
  let files := find_python_files root (fs w) (Some exclude) in
  let written_nodes := kept clean o (nodes_jsonl o) ++ tree_nodes tree in
  let written_edges := kept clean o (edges_jsonl o) ++ tree_edges tree in
  (b, o')
  = if len files =? 0
    then (false, mkOutput (Some written_nodes) (Some written_edges)
                   (kept_stats clean o))
    else (true,
          mkOutput
            (Some (written_nodes ++ flat_map (nodes_of w limit root) files))
            (Some (written_edges ++ flat_map (edges_of w limit root) files))
            (Some (final_stats_of w root files (tree_nodes tree)
                     (fold_left add_stats
                        (map (stats_of w limit root)
                           (List.filter (fun p => negb (unreadable w p)) files))
                        [])
                     (len (List.filter (unreadable w) files))))).
Proof.
  intros Hex Hre. cbv zeta. unfold analyze_repository. rewrite Hex. cbn [negb].
  set (o1 := if clean then mkOutput None None None else o).
  set (existing := bool_decide (nodes_jsonl o1 <> None)
                   && bool_decide (edges_jsonl o1 <> None) && negb clean).
  assert (Hexisting : existing = negb clean && both_exist o).
  { subst existing o1. unfold both_exist. destruct clean; cbn [negb nodes_jsonl edges_jsonl].
    - rewrite andb_false_r. reflexivity.
    - rewrite andb_true_r. reflexivity. }
  assert (Hno : (existing && String.eqb (lower (answer w)) "yes") = false).
  { rewrite Hexisting. unfold reuses in Hre.
    destruct clean, (both_exist o), (String.eqb (lower (answer w)) "yes");
      try reflexivity; discriminate Hre. }
  rewrite Hno.
  set (o2 := if existing then mkOutput None None None else o1).
  assert (Hn2 : default [] (nodes_jsonl o2) = kept clean o (nodes_jsonl o)).
  { subst o2 o1. rewrite Hexisting. unfold kept.
    destruct clean, (both_exist o); reflexivity. }
  assert (He2 : default [] (edges_jsonl o2) = kept clean o (edges_jsonl o)).
  { subst o2 o1. rewrite Hexisting. unfold kept.
    destruct clean, (both_exist o); reflexivity. }
  assert (Hs2 : stats_json o2 = kept_stats clean o).
  { subst o2 o1. rewrite Hexisting. unfold kept_stats.
    destruct clean, (both_exist o); reflexivity. }
  unfold write_jsonl at 1 2. rewrite Hn2, He2, Hs2.
  destruct (forallb record_encodable (tree_nodes _)); [| discriminate].
  destruct (forallb record_encodable (tree_edges _)); [| discriminate].
  destruct (len (find_python_files root (fs w) (Some exclude)) =? 0);
    [now intros [= <- <-] |].
  destruct (process_files _ _ _ _ _) as [st'|] eqn:Hr; [| discriminate].
  destruct (process_files_inv _ _ _ _ _ _ _ _ Hr eq_refl eq_refl)
    as (Ho & Ht & Herr & _).
  intros [= <- <-]. rewrite Ho, Ht, Herr.
  cbn [nodes_jsonl edges_jsonl out total_stats errors].
  rewrite Z.add_0_l. reflexivity.
Qed.

(** The run completes when everything it hashes and writes can be
    encoded. *)
Lemma analyze_repository_total w limit root o exclude clean :
  encodable_run w limit root exclude = true ->
  exists b o', analyze_repository w limit root o exclude clean = Returned (b, o').
Proof.
  unfold encodable_run. cbv zeta. intros Henc.
  apply andb_true_iff in Henc as [Henc He]. apply andb_true_iff in Henc as [Henc Hn].
  apply andb_true_iff in Henc as [Henc Hp]. apply andb_true_iff in Henc as [Htn Hte].
  unfold analyze_repository.
  destruct (negb (repo_exists w)); [eauto |].
  match goal with |- context [if ?c then Returned (true, _) else _] => destruct c end;
    [eauto |].
  unfold write_jsonl at 1 2. rewrite Htn, Hte.
  match goal with |- context [if ?c then Returned (false, _) else _] => destruct c end;
    [eauto |].
  match goal with
  | |- context [process_files w limit root ?l ?p] =>
      destruct (process_files_total w limit root l
                  (find_python_files_under_root _ _ _)) with (st := p)
        as [st' Hst]
  end; auto.
  - eapply forallb_forall. intros p Hin.
    rewrite forallb_forall in Hp. rewrite (Hp p Hin). apply orb_true_r.
  - rewrite Hst. eauto.
Qed.

End Analysis.

Lemma count_type_all t (l : list record) :
  Forall (fun n => has_type t n = true) l -> count_type t l = len l.
Proof.
  unfold count_type. induction 1 as [|n l Hn _ IH]; [reflexivity |].
  cbn [List.filter]. rewrite Hn, !len_cons, IH. reflexivity.
Qed.

Lemma directory_count (root : Path) (fs : fs_dir) (exclude : option (list string)) :
  count_type "Directory" (tree_nodes (build_directory_tree root fs exclude))
  = len (tree_nodes (build_directory_tree root fs exclude)) - 1.
Proof.
  destruct (build_directory_tree_unfold root fs exclude) as [-> _].
  change (repository_node root :: ?l) with ([repository_node root] ++ l).
  rewrite count_type_app, len_app, count_type_single.
  change (has_type "Directory" (repository_node root)) with false.
  rewrite count_type_all; [unfold len; cbn [length]; lia |].
  apply Forall_forall. intros n Hn.
  apply list_elem_of_In, in_flat_map in Hn as (t & _ & Hn).
  apply in_map_iff in Hn as (x & <- & _). reflexivity.
Qed.

Lemma len_filter_split {A} (p : A -> bool) (l : list A) :
  len l - len (List.filter p l) = len (List.filter (fun x => negb (p x)) l).
Proof.
  induction l as [|x l IH]; [reflexivity |].
  cbn [List.filter]. destruct (p x); cbn [negb]; rewrite ?len_cons; lia.
Qed.

Section AnalysisTheorems.

Context `{PyLib}.


(** A run that returns True without reusing the record files has found the
    repository and at least one Python file. *)
Lemma completed_run w limit root o exclude clean o' :
  reuses w o clean = false ->
  analyze_repository w limit root o exclude clean = Returned (true, o') ->
  let tree := build_directory_tree root (fs w) (Some exclude) in
  let files := find_python_files root (fs w) (Some exclude) in
  o' = mkOutput
         (Some (kept clean o (nodes_jsonl o) ++ tree_nodes tree
                ++ flat_map (nodes_of w limit root) files))
         (Some (kept clean o (edges_jsonl o) ++ tree_edges tree
                ++ flat_map (edges_of w limit root) files))
         (Some (final_stats_of w root files (tree_nodes tree)
                  (fold_left add_stats
                     (map (stats_of w limit root)
                        (List.filter (fun p => negb (unreadable w p)) files))
                     [])
                  (len (List.filter (unreadable w) files)))).
Proof.
  intros Hnew Hrun. cbv zeta.
  assert (Hrepo : repo_exists w = true).
  { destruct (repo_exists w) eqn:E; [reflexivity |].
    unfold analyze_repository in Hrun. rewrite E in Hrun. discriminate Hrun. }
  apply (analyze_repository_inv w limit root o exclude clean true o' Hrepo Hnew)
    in Hrun.
  cbv zeta in Hrun.
  destruct (len (find_python_files root (fs w) (Some exclude)) =? 0);
    [discriminate Hrun |].
  injection Hrun as ->. now rewrite <- !app_assoc.
Qed.

(** X10: the statistics file of a run that returned True accounts for every
    file found: [total_files] is their number, [files_with_errors] the
    number of those that could not be read or parsed, and
    [files_processed] the number of the others. *)
Theorem analysis_accounts_for_every_file w limit root o exclude clean o'
  (Hnew : reuses w o clean = false)
  (Hrun : analyze_repository w limit root o exclude clean = Returned (true, o')) :
  let files := find_python_files root (fs w) (Some exclude) in
  exists stats,
    stats_json o' = Some stats
    /\ dict_get "total_files" stats = Some (VInt (len files))
    /\ dict_get "files_with_errors" stats
       = Some (VInt (len (List.filter (unreadable w) files)))
    /\ dict_get "files_processed" stats
       = Some (VInt (len (List.filter (fun p => negb (unreadable w p)) files))).
Proof.
  cbv zeta. rewrite (completed_run w limit root o exclude clean o' Hnew Hrun).
  eexists. cbn [stats_json].
  split; [reflexivity |]. split; [reflexivity |]. split; [reflexivity |].
  rewrite <- len_filter_split. reflexivity.
Qed.

(** X11: the totals in the statistics file of a run that returned True count
    the records the run wrote for its files: each [total_] counter is the
    number of node records of its type (of CALLS edges, for [total_calls])
    among them, and [total_directories] is the number of Directory nodes of
    the tree. *)
Theorem analysis_totals_count_the_records w limit root o exclude clean o'
  (Hnew : reuses w o clean = false)
  (Hrun : analyze_repository w limit root o exclude clean = Returned (true, o')) :
  let tree := build_directory_tree root (fs w) (Some exclude) in
  let files := find_python_files root (fs w) (Some exclude) in
  exists stats ns es,
    stats_json o' = Some stats
    /\ nodes_jsonl o'
       = Some (kept clean o (nodes_jsonl o) ++ tree_nodes tree ++ ns)
    /\ edges_jsonl o'
       = Some (kept clean o (edges_jsonl o) ++ tree_edges tree ++ es)
    /\ ns = flat_map (nodes_of w limit root) files
    /\ es = flat_map (edges_of w limit root) files
    /\ (forall c, In c counters ->
          dict_get (total_key c) stats = Some (VInt (counted c ns es)))
    /\ dict_get "total_directories" stats
       = Some (VInt (count_type "Directory" (tree_nodes tree))).
Proof.
  cbv zeta. rewrite (completed_run w limit root o exclude clean o' Hnew Hrun).
  eexists _, _, _. cbn [stats_json nodes_jsonl edges_jsonl].
  split; [reflexivity |]. split; [reflexivity |]. split; [reflexivity |].
  split; [reflexivity |]. split; [reflexivity |]. split.
  - intros c Hc.
    rewrite <- (totals_count_the_records w limit root _ c Hc).
    cbn [In counters] in Hc.
    repeat (destruct Hc as [<- | Hc]); [.. | contradiction]; reflexivity.
  - rewrite directory_count. reflexivity.
Qed.

(** X12: on a repository without a Python file, where the records of the
    directory tree hold no character that UTF-8 cannot encode, the analysis
    reports failure, but only after it has written the records of the
    directory tree; the statistics file is not written. *)
Theorem analysis_without_python_files w limit root o exclude clean
  (Hrepo : repo_exists w = true)
  (Hnew : reuses w o clean = false)
  (Hfiles : find_python_files root (fs w) (Some exclude) = [])
  (Henc : encodable_run w limit root exclude = true) :
  let tree := build_directory_tree root (fs w) (Some exclude) in
  analyze_repository w limit root o exclude clean
  = Returned
      (false,
       mkOutput (Some (kept clean o (nodes_jsonl o) ++ tree_nodes tree))
         (Some (kept clean o (edges_jsonl o) ++ tree_edges tree))
         (kept_stats clean o)).
Proof.
  cbv zeta.
  destruct (analyze_repository_total w limit root o exclude clean Henc)
    as (b & o' & Hrun).
  rewrite Hrun.
  apply (analyze_repository_inv w limit root o exclude clean b o' Hrepo Hnew)
    in Hrun.
  cbv zeta in Hrun. rewrite Hfiles in Hrun. now rewrite Hrun.
Qed.

End AnalysisTheorems.

(** ** Batches, in full *)

Lemma chunks_spec {A} (n : nat) (fuel : nat) :
  (0 < n)%nat -> forall l : list A, (length l <= fuel)%nat ->
  Forall (fun b => (0 < length b <= n)%nat) (chunks_from fuel n l)
  /\ Z.of_nat (length (chunks_from fuel n l))
     = (Z.of_nat (length l) + Z.of_nat n - 1) / Z.of_nat n.
Proof.
  intros Hn. induction fuel as [|fuel IH]; intros l Hl.
  - destruct l; [| simpl in Hl; lia]. cbn [chunks_from length].
    split; [constructor |]. symmetry. apply Z.div_small. lia.
  - destruct l as [|x l].
    { cbn [chunks_from length]. split; [constructor |].
      symmetry. apply Z.div_small. lia. }
    cbn [chunks_from].
    assert (Hm : (0 < length (x :: l))%nat) by (simpl; lia).
    remember (x :: l) as xl eqn:Exl. clear Exl x l.
    destruct (IH (skipn n xl)) as [Hf Hc].
    { rewrite length_skipn. lia. }
    split.
    + constructor; [| exact Hf]. rewrite length_firstn. lia.
    + change (length (firstn n xl :: chunks_from fuel n (skipn n xl)))
        with (S (length (chunks_from fuel n (skipn n xl)))).
      rewrite Nat2Z.inj_succ, Hc, length_skipn.
      remember (length xl) as m eqn:Em. clear Em.
      destruct (Nat.le_gt_cases m n) as [Hle | Hgt].
      * replace (m - n)%nat with 0%nat by lia.
        rewrite (Z.div_small (Z.of_nat 0 + Z.of_nat n - 1)) by lia.
        apply Z.div_unique with (r := Z.of_nat m - 1); lia.
      * replace (Z.of_nat m + Z.of_nat n - 1)
          with ((Z.of_nat (m - n) + Z.of_nat n - 1) + 1 * Z.of_nat n) by lia.
        rewrite Z.div_add by lia. lia.
Qed.

(** X13: for a positive batch size the batches are the list cut into
    consecutive pieces of that size, the last one possibly shorter: put end
    to end they give the list back, none is empty or longer than the batch
    size, and their number is the length divided by the batch size, rounded
    up. *)
Theorem batches_cover_the_list {A} (batch_size : Z) (l : list A)
  (Hpos : 0 < batch_size) :
  exists bs,
    batches batch_size l = Returned bs
    /\ concat bs = l
    /\ Forall (fun b => 0 < len b <= batch_size) bs
    /\ len bs = (len l + batch_size - 1) / batch_size.
Proof.
  unfold batches.
  destruct (batch_size =? 0) eqn:E0; [apply Z.eqb_eq in E0; lia |].
  destruct (batch_size <? 0) eqn:E1; [apply Z.ltb_lt in E1; lia |].
  eexists. split; [reflexivity |].
  assert (Hn : (0 < Z.to_nat batch_size)%nat) by lia.
  destruct (chunks_spec (Z.to_nat batch_size) (length l) Hn l (le_n _)) as [Hf Hc].
  split; [now apply chunks_concat |]. split.
  - eapply Forall_impl; [exact Hf |]. intros b Hb. unfold len. cbn beta in Hb. lia.
  - unfold len. rewrite Hc, Z2Nat.id by lia. reflexivity.
Qed.

(** ** Records the loader cannot group *)

Lemma group_step_raised prep rs e :
  fold_left (group_step prep) rs (Raised e) = Raised e.
Proof. induction rs as [|r rs IH]; [reflexivity | exact IH]. Qed.

Lemma group_fold_untyped prep pre r post g0 :
  Forall typed pre -> dict_get "type" r = None ->
  fold_left (group_step prep) (pre ++ r :: post) (Returned g0) = Raised KeyError.
Proof.
  intros Hpre Hr. rewrite fold_left_app.
  destruct (group_fold_spec prep pre Hpre g0) as (g & -> & _).
  cbn [fold_left group_step]. unfold record_type. rewrite Hr.
  apply group_step_raised.
Qed.

Section AnyStore.

Context `{PyLib} {db : Type} `{Neo4jSession db}.

(** X14: a record without a [type] stops the load.  Whatever the store, if the
    records before it have a type, [batch_insert_nodes] and
    [batch_insert_edges] raise [KeyError]; this happens while the records
    are grouped, before the first statement is sent. *)
Theorem record_without_type_raises (pre post : list record) (r : record)
  (batch_size : Z) (d : db)
  (Hpre : Forall typed pre) (Hr : dict_get "type" r = None) :
  batch_insert_nodes (pre ++ r :: post) batch_size d = Raised KeyError
  /\ batch_insert_edges (pre ++ r :: post) batch_size d = Raised KeyError
  /\ group_nodes (pre ++ r :: post) = Raised KeyError
  /\ group_edges (pre ++ r :: post) = Raised KeyError.
Proof.
  assert (Hn : group_nodes (pre ++ r :: post) = Raised KeyError)
    by exact (group_fold_untyped (dict_remove "type") pre r post [] Hpre Hr).
  assert (He : group_edges (pre ++ r :: post) = Raised KeyError)
    by exact (group_fold_untyped (fun e => e) pre r post [] Hpre Hr).
  unfold batch_insert_nodes, batch_insert_edges. rewrite Hn, He. auto.
Qed.

Lemma fold_raised {A B} (f : result B -> A -> result B) (l : list A) e :
  (forall a, f (Raised e) a = Raised e) -> fold_left f l (Raised e) = Raised e.
Proof. intros Hf. induction l as [|a l IH]; cbn [fold_left]; [| rewrite Hf]; auto. Qed.

(** X15: a batch size that is not positive.  With a negative one the loader
    sends nothing to the store and reports zero nodes inserted; with zero it
    raises [ValueError] as soon as it meets a label that has nodes. *)
Theorem batch_size_not_positive (nodes : list record) (batch_size : Z) (d : db)
  (Htyped : Forall typed nodes) :
  (batch_size < 0 -> batch_insert_nodes nodes batch_size d = Returned (d, 0))
  /\ (batch_size = 0 ->
      (exists n t, n ∈ nodes /\ str_field "type" n = Some t /\ t ∈ type_order) ->
      batch_insert_nodes nodes batch_size d = Raised ValueError).
Proof.
  unfold batch_insert_nodes.
  destruct (group_fold_spec (dict_remove "type") nodes Htyped []) as (g & Hg & Hgr).
  change (fold_left (group_step (dict_remove "type")) nodes (Returned []))
    with (group_nodes nodes) in Hg. rewrite Hg. split.
  - intros Hneg. generalize type_order as ks. intros ks.
    induction ks as [|k ks IH] using rev_ind; [reflexivity |].
    rewrite fold_left_app, IH. cbn [fold_left].
    destruct (dict_get k g); [| reflexivity].
    unfold batches. destruct (batch_size =? 0) eqn:E0; [apply Z.eqb_eq in E0; lia |].
    destruct (batch_size <? 0) eqn:E1; [reflexivity | apply Z.ltb_ge in E1; lia].
  - intros -> (n & t & Hn & Ht & Hin).
    destruct Hgr as (Hget & Hkeys & _).
    assert (Hsome : dict_get t g <> None).
    { apply dict_get_key. apply Hkeys. right. eauto. }
    apply list_elem_of_In, in_split in Hin as (k1 & k2 & ->).
    rewrite fold_left_app. cbn [fold_left].
    match goal with
    | |- fold_left ?f k2 ?X = _ =>
        assert (HX : X = Raised ValueError); [| rewrite HX; apply fold_raised; reflexivity]
    end.
    assert (Hk1 : forall e, fold_left
              (fun acc node_type =>
                 match acc with
                 | Raised e => Raised e
                 | Returned st =>
                     match dict_get node_type g with
                     | None => Returned st
                     | Some type_nodes =>
                         match batches 0 type_nodes with
                         | Raised e => Raised e
                         | Returned bs =>
                             Returned (fold_left (insert_node_batch node_type) bs st)
                         end
                     end
                 end) k1 (Returned (d, 0)) = Raised e -> e = ValueError).
    { clear. induction k1 as [|k k1 IH] using rev_ind; [discriminate |].
      intros e. rewrite fold_left_app. cbn [fold_left].
      destruct (fold_left _ k1 _) as [st|e'].
      - destruct (dict_get k g); [| discriminate]. cbn. now intros [= <-].
      - intros [= <-]. now apply IH. }
    destruct (fold_left _ k1 _) as [st|e].
    + destruct (dict_get t g); [reflexivity | contradiction].
    + now rewrite (Hk1 e eq_refl).
Qed.

End AnyStore.

(** ** What is sent to the store *)

Section Properties.

Context `{PyLib}.

Lemma clean_value_scalar v : is_VNone v = false -> is_scalar (clean_value v) = true.
Proof. destruct v; cbn; congruence. Qed.

(** X16: the properties the loader sends for a node are the entries of the
    record whose value is not [None], in their order, with every list and
    dict replaced by its JSON text: every value sent is a string, a number
    or a boolean, and scalar values are sent unchanged. *)
Theorem node_properties_are_scalars (r : record) :
  map fst (clean_record r)
    = map fst (List.filter (fun kv => negb (is_VNone kv.2)) r)
  /\ Forall (fun kv => is_scalar kv.2 = true) (clean_record r)
  /\ (forall k v, In (k, v) r -> is_scalar v = true -> In (k, v) (clean_record r)).
Proof.
  unfold clean_record. split; [| split].
  - rewrite map_map. reflexivity.
  - apply Forall_forall. intros kv Hkv.
    apply list_elem_of_In, in_map_iff in Hkv as ([k v] & <- & Hin).
    apply filter_In in Hin as [_ Hv]. cbn [fst snd] in *.
    apply clean_value_scalar. now apply negb_true_iff.
  - intros k v Hin Hs. apply in_map_iff. exists (k, v). split.
    + cbn [fst snd]. destruct v; try discriminate; reflexivity.
    + apply filter_In. split; [exact Hin |]. destruct v; try discriminate; reflexivity.
Qed.

(** X17: the record the loader sends for an edge.  Its source is the edge's
    [from_id], or its [from] when there is no [from_id]; its destination
    likewise [to_id] before [to]; its properties are scalars and hold none
    of the keys [type], [from], [to], [from_id], [to_id] and [to_name]. *)
Theorem normalized_edge_spec (e : record) :
  dict_get "from" (normalize_edge e)
    = match dict_get "from_id" e with
      | Some v => Some v
      | None => dict_get "from" e
      end
  /\ dict_get "to" (normalize_edge e)
     = match dict_get "to_id" e with
       | Some v => Some v
       | None => dict_get "to" e
       end
  /\ exists props,
       dict_get "properties" (normalize_edge e) = Some (VDict props)
       /\ Forall (fun kv => is_scalar kv.2 = true
                            /\ ~ In kv.1 edge_reserved_keys
                            /\ exists v, In (kv.1, v) e) props.
Proof.
  unfold normalize_edge. cbv zeta.
  set (props := map _ (List.filter _ e)).
  assert (Hprops : Forall (fun kv => is_scalar kv.2 = true
                            /\ ~ In kv.1 edge_reserved_keys
                            /\ exists v, In (kv.1, v) e) props).
  { subst props. apply Forall_forall. intros kv Hkv.
    apply list_elem_of_In, in_map_iff in Hkv as ([k v] & <- & Hin).
    apply filter_In in Hin as [Hin Hv]. cbn [fst snd] in *.
    apply andb_true_iff in Hv as [Hres Hnone].
    split; [apply clean_value_scalar; now apply negb_true_iff |]. split; [| eauto].
    intros Hk. apply negb_true_iff in Hres.
    rewrite <- not_true_iff_false in Hres. apply Hres.
    apply existsb_exists. exists k. split; [exact Hk | apply String.eqb_refl]. }
  destruct (dict_get "from_id" e) as [f|]; [| destruct (dict_get "from" e) as [f|]];
    (destruct (dict_get "to_id" e) as [t|]; [| destruct (dict_get "to" e) as [t|]]);
    (split; [reflexivity |]; split; [reflexivity |]; exists props;
     split; [reflexivity | exact Hprops]).
Qed.

End Properties.

(** ** From the analysis to the store *)

Lemma node_record_typed (n : record) :
  node_record n = true ->
  exists t, str_field "type" n = Some t /\ t ∈ type_order.
Proof.
  unfold node_record. destruct (str_field "id" n); [| discriminate].
  destruct (str_field "type" n) as [t|]; [| discriminate].
  intros Ht. exists t. split; [reflexivity |].
  apply existsb_exists in Ht as (t' & Hin & Heq).
  apply String.eqb_eq in Heq as <-. cbn [In extractor_node_types] in Hin.
  apply list_elem_of_In. cbn [In type_order].
  repeat (destruct Hin as [<- | Hin]; [tauto |]). contradiction.
Qed.

Lemma edge_record_typed (e : record) : edge_record e = true -> typed e.
Proof.
  unfold edge_record, typed. destruct (str_field "from_id" e); [| discriminate].
  destruct (str_field "type" e) as [t|]; [eauto | discriminate].
Qed.

Lemma len_flat_map {A B} (f : A -> list B) (l : list A) :
  len (flat_map f l) = sumZ (map (fun x => len (f x)) l).
Proof.
  induction l as [|x l IH]; [reflexivity |].
  cbn [flat_map map]. now rewrite len_app, sumZ_cons, IH.
Qed.

Lemma sumZ_ones {A} (l : list A) : sumZ (map (fun _ => 1) l) = len l.
Proof.
  induction l as [|x l IH]; [reflexivity |].
  cbn [map]. rewrite sumZ_cons, IH, len_cons. reflexivity.
Qed.

Lemma type_order_NoDup : NoDup type_order.
Proof.
  apply NoDup_ListNoDup. unfold type_order.
  repeat (constructor; [cbn; intuition discriminate |]). constructor.
Qed.

Section Pipeline.

Context `{PyLib}.

Lemma known_labels_all_inserted (nodes : list record) :
  Forall (fun n => exists t, str_field "type" n = Some t /\ t ∈ type_order) nodes ->
  len (inserted_nodes accept_all nodes type_order) = len nodes.
Proof.
  intros Hn. unfold inserted_nodes. rewrite len_flat_map.
  rewrite (sumZ_map_ext _ (fun t => sumZ (map (fun _ => 1) (List.filter (has_type t) nodes)))).
  2: { intros t _. rewrite len_map, filter_all, !len_map, sumZ_ones; [reflexivity |].
       apply forallb_forall. reflexivity. }
  rewrite (sum_by_type (fun _ _ => 1) type_order nodes type_order_NoDup Hn).
  apply sumZ_ones.
Qed.

Lemma tree_records_typed (root : Path) (fs : fs_dir) (exclude : option (list string)) :
  Forall (fun n => exists t, str_field "type" n = Some t /\ t ∈ type_order)
    (tree_nodes (build_directory_tree root fs exclude))
  /\ Forall typed (tree_edges (build_directory_tree root fs exclude)).
Proof.
  destruct (build_directory_tree_unfold root fs exclude) as [-> ->]. split.
  - constructor.
    + exists "Repository". split; [reflexivity |]. apply list_elem_of_In. cbn. tauto.
    + apply Forall_forall. intros n Hn.
      apply list_elem_of_In, in_flat_map in Hn as (t & _ & Hn).
      apply in_map_iff in Hn as (x & <- & _).
      exists "Directory". split; [reflexivity |]. apply list_elem_of_In. cbn. tauto.
  - apply Forall_forall. intros e He.
    apply list_elem_of_In, in_flat_map in He as (t & _ & He).
    unfold listed_edges in He.
    apply in_app_or in He as [He | He]; apply in_map_iff in He as (x & <- & _);
      eexists; reflexivity.
Qed.

Lemma extraction_records_typed w limit root p :
  Forall (fun n => exists t, str_field "type" n = Some t /\ t ∈ type_order)
    (nodes_of w limit root p)
  /\ Forall typed (edges_of w limit root p).
Proof.
  unfold nodes_of, edges_of, extraction_of.
  destruct (extract_file limit root (unit_of w p)) as [[[ns es] st]|e] eqn:Hex;
    cbn [fst snd]; [| split; constructor].
  assert (Ht : forallb node_record ns = true /\ forallb edge_record es = true).
  { destruct (extract_file_cases _ _ _ _ _ _ Hex)
      as [(-> & -> & ->) | (text & tree & start & _ & _ & Hs & -> & -> & ->)];
      [split; reflexivity |].
    destruct (file_node_state _ _ _ _ Hs) as (_ & _ & Hn & He & _).
    destruct (visit_steady limit (NModule tree) start) as [_ _ Vn Ve].
    unfold node_records, edge_records in *. now rewrite Vn, Ve. }
  destruct Ht as [Hn He]. rewrite forallb_forall in Hn, He. split.
  - apply Forall_forall. intros n Hin. apply node_record_typed, Hn.
    now apply list_elem_of_In.
  - apply Forall_forall. intros e Hin. apply edge_record_typed, He.
    now apply list_elem_of_In.
Qed.

(** X18: from the analysis to the store.  After an analysis with [--clean]
    that succeeded, loading the two record files into a store that accepts
    every record completes: every node record of the file is created (none
    has a label the loader does not know), and the edges skipped as
    external are exactly those without a destination. *)
Theorem analysis_output_is_loaded w limit root o exclude o' batch_size
  (d : GraphDb)
  (Hrun : analyze_repository w limit root o exclude true = Returned (true, o'))
  (Hbatch : 0 < batch_size) :
  exists ns es d1 r,
    nodes_jsonl o' = Some ns /\ edges_jsonl o' = Some es
    /\ batch_insert_nodes (H0 := checking_session accept_all accept_all)
         ns batch_size d = Returned (d1, len ns)
    /\ len (db_nodes d1) = len (db_nodes d) + len ns
    /\ batch_insert_edges (H0 := checking_session accept_all accept_all)
         es batch_size d1 = Returned r
    /\ skipped_external r
       = len (List.filter (fun e => negb (has_destination e)) es).
Proof.
  assert (Hnew : reuses w o true = false).
  { unfold reuses. cbn [negb]. now rewrite andb_false_r. }
  apply (completed_run w limit root o exclude true o' Hnew) in Hrun.
  cbv zeta in Hrun. subst o'.
  cbn [nodes_jsonl edges_jsonl]. unfold kept. cbn [orb app].
  set (ns := tree_nodes _ ++ flat_map _ _). set (es := tree_edges _ ++ flat_map _ _).
  destruct (tree_records_typed root (fs w) (Some exclude)) as [Htn Hte].
  assert (Hns : Forall (fun n => exists t, str_field "type" n = Some t /\ t ∈ type_order) ns).
  { subst ns. apply Forall_app. split; [exact Htn |].
    apply Forall_forall. intros n Hn.
    apply list_elem_of_In, in_flat_map in Hn as (p & _ & Hn).
    destruct (extraction_records_typed w limit root p) as [Hp _].
    rewrite Forall_forall in Hp. apply Hp. now apply list_elem_of_In. }
  assert (Hes : Forall typed es).
  { subst es. apply Forall_app. split; [exact Hte |].
    apply Forall_forall. intros e He.
    apply list_elem_of_In, in_flat_map in He as (p & _ & He).
    destruct (extraction_records_typed w limit root p) as [_ Hp].
    rewrite Forall_forall in Hp. apply Hp. now apply list_elem_of_In. }
  assert (Hnt : Forall typed ns).
  { eapply Forall_impl; [exact Hns |]. intros n (t & Ht & _). exists t. exact Ht. }
  destruct (batch_insert_nodes_spec accept_all accept_all ns batch_size d Hnt Hbatch)
    as (d1 & Hd1 & Hdb & _).
  rewrite (known_labels_all_inserted ns Hns) in Hd1.
  destruct (batch_insert_edges_spec accept_all accept_all es batch_size d1 Hes Hbatch)
    as (r & Hr & _ & Hsk & _).
  exists ns, es, d1, r. repeat split; try assumption; try reflexivity.
  rewrite Hdb, len_app, <- (known_labels_all_inserted ns Hns). reflexivity.
Qed.

End Pipeline.

(** ** A visit that completes restores its context *)

Lemma same_context_refl s : same_context s s.
Proof. reflexivity. Qed.

Lemma same_context_trans s1 s2 s3 :
  same_context s1 s2 -> same_context s2 s3 -> same_context s1 s3.
Proof. unfold same_context. congruence. Qed.

Lemma same_context_fold {A} (f : Extractor -> A -> Extractor) (l : list A) :
  (forall s a, same_context s (f s a)) ->
  forall s, same_context s (fold_left f l s).
Proof.
  intros Hf. induction l as [|a l IH]; intros s; cbn [fold_left].
  - apply same_context_refl.
  - eapply same_context_trans; [apply Hf | apply IH].
Qed.

Lemma same_context_fold_snd {A B} (f : B * Extractor -> A -> B * Extractor)
  (l : list A) :
  (forall acc a, same_context acc.2 (f acc a).2) ->
  forall acc, same_context acc.2 (fold_left f l acc).2.
Proof.
  intros Hf. induction l as [|a l IH]; intros acc; cbn [fold_left].
  - apply same_context_refl.
  - eapply same_context_trans; [apply Hf | apply IH].
Qed.

Lemma same_context_append_node n s : same_context s (append_node n s).
Proof. reflexivity. Qed.

Lemma same_context_append_edge e s : same_context s (append_edge e s).
Proof. reflexivity. Qed.

Lemma same_context_bump k s : same_context s (bump k s).
Proof. reflexivity. Qed.

Lemma same_context_set_imports_map f s : same_context s (set_imports_map f s).
Proof. reflexivity. Qed.

Lemma same_context_set_defined_names f s : same_context s (set_defined_names f s).
Proof. reflexivity. Qed.

Lemma same_context_set_scope_vars f s : same_context s (set_scope_vars f s).
Proof. reflexivity. Qed.

Ltac context_step :=
  lazymatch goal with
  | |- same_context ?s ?s => apply same_context_refl
  | |- same_context _ (bump _ _) =>
      eapply same_context_trans; [| apply same_context_bump]
  | |- same_context _ (fold_left _ _ _) =>
      eapply same_context_trans; [| apply same_context_fold; intros]
  | |- same_context _ (append_node _ _) =>
      eapply same_context_trans; [| apply same_context_append_node]
  | |- same_context _ (append_edge _ _) =>
      eapply same_context_trans; [| apply same_context_append_edge]
  | |- same_context _ (set_imports_map _ _) =>
      eapply same_context_trans; [| apply same_context_set_imports_map]
  | |- same_context _ (set_defined_names _ _) =>
      eapply same_context_trans; [| apply same_context_set_defined_names]
  | |- same_context _ (set_scope_vars _ _) =>
      eapply same_context_trans; [| apply same_context_set_scope_vars]
  end.

Section Context.

Context `{PyLib}.

Lemma context_visit_Import_names lineno names s :
  same_context s (visit_Import_names lineno names s).
Proof.
  unfold visit_Import_names. apply same_context_fold. clear. intros s a.
  cbv zeta. repeat context_step.
Qed.

Lemma context_visit_ImportFrom_names lineno module names level s :
  same_context s (visit_ImportFrom_names lineno module names level s).
Proof.
  unfold visit_ImportFrom_names. cbv zeta. apply same_context_fold. clear.
  intros s a. repeat context_step.
Qed.

Lemma context_extract_decorators decorator_list s :
  same_context s (_extract_decorators decorator_list s).2.
Proof.
  unfold _extract_decorators.
  refine (same_context_fold_snd _ decorator_list _ ([], s)). clear.
  intros [decorators s] dec. cbv zeta. cbn [fst snd].
  destruct (dec_name (decorator_info dec)) as [name|]; [| apply same_context_refl].
  destruct (nonempty name); [| apply same_context_refl].
  cbn [snd]. repeat context_step.
Qed.

Lemma context_record_flow edge_type lineno e s :
  same_context s (record_flow edge_type lineno e s).
Proof.
  unfold record_flow.
  destruct e as [e|]; [| reflexivity].
  destruct (current_function s) as [fn|]; [| reflexivity].
  destruct (nonempty fn); [| reflexivity].
  destruct (_safe_unparse e) as [text|]; [| reflexivity].
  destruct (nonempty text); reflexivity.
Qed.

Lemma context_record_call lineno func args keywords s :
  same_context s (record_call lineno func args keywords s).
Proof.
  unfold record_call. cbv zeta.
  destruct (match func with
            | Name _ id => Some id
            | Attribute _ _ _ => Some (_get_full_name func)
            | _ => None
            end) as [callee|]; [| apply same_context_refl].
  destruct (nonempty callee && nonempty (_get_current_scope s));
    [| apply same_context_refl].
  repeat context_step.
Qed.

Lemma context_record_assign lineno targets value s :
  same_context s (record_assign lineno targets value s).1.
Proof.
  unfold record_assign. cbv zeta.
  generalize (String.eqb (_get_current_scope s) (file_id s)) as is_global.
  generalize (_get_current_scope s) as scope.
  intros scope is_global.
  apply (for_each_preserved same_context same_context_refl same_context_trans).
  clear. intros target s.
  destruct target; try apply same_context_refl.
  match goal with
  | |- context [match ?X with Returned _ => _ | Raised _ => _ end] =>
      destruct X as [[value_str value_type]|e]
  end; [| apply same_context_refl].
  cbn [fst]. repeat context_step.
Qed.

Lemma context_record_class lineno end_lineno name bases keywords body
  decorator_list s :
  same_context s
    (record_class
       (ClassDef lineno end_lineno name bases keywords body decorator_list) s).2.
Proof.
  unfold record_class. cbv zeta. cbn [snd].
  repeat context_step.
  match goal with
  | |- same_context _ (match ?x with _ => _ end) => destruct x
  end; repeat context_step.
Qed.

Lemma context_record_function is_async lineno end_lineno name fargs body
  decorator_list returns s :
  same_context s
    (_record_function
       (FunctionDef is_async lineno end_lineno name fargs body
          decorator_list returns) s).2.
Proof.
  unfold _record_function. cbv zeta.
  pose proof (context_extract_decorators decorator_list s) as Hd.
  destruct (_extract_decorators decorator_list s) as [decorators s1].
  cbn [fst snd] in *.
  eapply same_context_trans; [exact Hd |]. clear Hd.
  destruct (bool_decide (current_class s <> None)); repeat context_step.
  all: match goal with
       | |- same_context _ (match ?x with _ => _ end) =>
           destruct x as [dname|]; [destruct (nonempty dname) |]
       end; repeat context_step.
Qed.

Lemma for_each_context {A} (f : A -> Visit) (l : list A) :
  (forall x s s', f x s = (s', None) -> same_context s s') ->
  forall s s', for_each f l s = (s', None) -> same_context s s'.
Proof.
  intros Hf. induction l as [|x l IH]; intros s s'; cbn [for_each].
  - intros [= <-]. apply same_context_refl.
  - destruct (f x s) as [s1 [e|]] eqn:Ef; [discriminate |].
    intros Hl. eapply same_context_trans; [apply (Hf x s s1 Ef) | apply (IH s1 s' Hl)].
Qed.

Lemma removelast_snoc {A} (l : list A) (x : A) : removelast (l ++ [x]) = l.
Proof. apply removelast_last. Qed.

Lemma visit_context depth :
  forall node s s', visit depth node s = (s', None) -> same_context s s'.
Proof.
  induction depth as [|depth IH]; intros node s s'; [discriminate |].
  rewrite visit_S. cbv zeta.
  pose proof (fun n => for_each_context (visit depth) (iter_child_nodes n) IH) as Hg.
  assert (Hthen : forall s0 s1,
            same_context s0 s1 -> for_each (visit depth) (iter_child_nodes node) s1
                                  = (s', None) -> same_context s0 s').
  { intros s0 s1 H01 Hv. eapply same_context_trans; [exact H01 | eapply Hg, Hv]. }
  destruct node as [b|st|e|h|o|a|a|k|a|w]; try apply Hg.
  - destruct st; try apply Hg.
    + pose proof (context_record_function is_async lineno end_lineno name fargs
                    body decorator_list returns s) as Hr.
      destruct (_record_function _ s) as [fn_id s1]. cbn [fst snd] in *.
      unfold and_then.
      destruct (for_each _ _ _) as [s2 [e|]] eqn:Ev; [discriminate |].
      intros [= <-]. apply Hg in Ev. unfold same_context, context in *.
      cbn [push_scope set_scope_stack set_current_function pop_scope
           current_scope_stack current_function current_class] in *.
      injection Ev as E1 E2 E3. injection Hr as R1 R2 R3.
      rewrite E1, removelast_snoc, R1, E3, R3. reflexivity.
    + pose proof (context_record_class lineno end_lineno name bases keywords
                    body decorator_list s) as Hr.
      destruct (record_class _ s) as [class_id s1]. cbn [fst snd] in *.
      unfold and_then.
      destruct (for_each _ _ _) as [s2 [e|]] eqn:Ev; [discriminate |].
      intros [= <-]. apply Hg in Ev. unfold same_context, context in *.
      cbn [push_scope set_scope_stack set_current_class pop_scope
           current_scope_stack current_function current_class] in *.
      injection Ev as E1 E2 E3. injection Hr as R1 R2 R3.
      rewrite E1, removelast_snoc, R1, E2, R2, R3. reflexivity.
    + apply Hthen, context_record_flow.
    + match goal with
      | |- context [record_assign ?l ?t ?v s] =>
          pose proof (context_record_assign l t v s) as Ha;
          destruct (record_assign l t v s) as [s1 [e|]]
      end; [discriminate |]. now apply Hthen.
    + apply Hthen, context_record_flow.
    + apply Hthen, context_visit_Import_names.
    + apply Hthen, context_visit_ImportFrom_names.
  - destruct e; try apply Hg. apply Hthen, context_record_call.
Qed.

(** X19: a visit that completes leaves the scope stack, the current function
    and the current class as it found them: what a function or class
    definition pushes it pops again, however deep the definitions nest. *)
Theorem completed_visit_restores_context depth node s s'
  (Hdone : visit depth node s = (s', None)) :
  current_scope_stack s' = current_scope_stack s
  /\ current_function s' = current_function s
  /\ current_class s' = current_class s.
Proof.
  pose proof (visit_context depth node s s' Hdone) as Hc.
  unfold same_context, context in Hc. injection Hc as -> -> ->. auto.
Qed.

End Context.

(** ** Room enough for the traversal *)

Lemma list_max_map_le {A} (f : A -> nat) (l : list A) (m : nat) :
  (list_max (map f l) <= m)%nat -> Forall (fun x => (f x <= m)%nat) l.
Proof.
  intros Hm. apply Forall_forall. intros x Hx.
  apply list_max_le in Hm. rewrite List.Forall_forall in Hm.
  apply Hm, in_map. now apply list_elem_of_In.
Qed.

Lemma Forall_map_node {A} (f : A -> ast_node) (g : A -> nat) (l : list A) (m : nat) :
  (forall x, height (f x) = g x) ->
  (list_max (map g l) <= m)%nat ->
  Forall (fun c => (height c <= m)%nat) (map f l).
Proof.
  intros Hfg Hm. apply Forall_map. eapply Forall_impl; [apply (list_max_map_le g l m Hm) |].
  intros x Hx. cbn beta. now rewrite Hfg.
Qed.

Lemma Forall_opt_expr (o : option expr) (m : nat) :
  (height_opt_expr o <= m)%nat -> Forall (fun c => (height c <= m)%nat) (opt_expr o).
Proof. destruct o; cbn; [repeat constructor; assumption | constructor]. Qed.

Ltac split_max :=
  repeat match goal with
  | H : (Nat.max _ _ <= _)%nat |- _ => apply Nat.max_lub_iff in H as [? ?]
  | H : (list_max (_ :: _) <= _)%nat |- _ =>
      cbn [list_max fold_right] in H
  | H : (list_max [] <= _)%nat |- _ => clear H
  end.

(** Every child of a node is less high than the node. *)
Lemma height_children (n : ast_node) (m : nat) :
  (height n <= S m)%nat ->
  Forall (fun c => (height c <= m)%nat) (iter_child_nodes n).
Proof.
  destruct n as [b|st|e|h|o|a|a|k|a|w]; cbn [height iter_child_nodes].
  - intros Hh. apply le_S_n in Hh.
    now apply (Forall_map_node NStmt height_stmt).
  - destruct st; cbn [height_stmt]; intros Hh; apply le_S_n in Hh; split_max;
      repeat first
        [ apply Forall_cons; split
        | apply Forall_app; split
        | apply Forall_nil_2
        | apply Forall_opt_expr; assumption
        | apply (Forall_map_node NStmt height_stmt); [reflexivity | assumption]
        | apply (Forall_map_node NExpr height_expr); [reflexivity | assumption]
        | apply (Forall_map_node NKeyword height_keyword); [reflexivity | assumption]
        | apply (Forall_map_node NHandler height_handler); [reflexivity | assumption]
        | apply (Forall_map_node NWithitem height_withitem); [reflexivity | assumption]
        | apply (Forall_map_node NAlias (fun _ => 1%nat)); [reflexivity | assumption]
        | apply (Forall_map_node child_node height_child);
            [intros []; reflexivity | assumption]
        | assumption ].
  - destruct e; cbn [height_expr]; intros Hh; apply le_S_n in Hh; split_max;
      repeat first
        [ apply Forall_cons; split
        | apply Forall_app; split
        | apply Forall_nil_2
        | apply (Forall_map_node NExpr height_expr); [reflexivity | assumption]
        | apply (Forall_map_node NKeyword height_keyword); [reflexivity | assumption]
        | assumption ].
  - destruct h; cbn [height_handler]; intros Hh; apply le_S_n in Hh; split_max.
    apply Forall_app; split; [now apply Forall_opt_expr |].
    now apply (Forall_map_node NStmt height_stmt).
  - constructor.
  - unfold height_arguments. intros Hh. apply le_S_n in Hh. split_max.
    repeat first
      [ apply Forall_app; split
      | apply (Forall_map_node NArg height_arg); [reflexivity | assumption]
      | apply (Forall_map_node NExpr height_expr); [reflexivity | assumption] ].
    + destruct (vararg a); cbn; [repeat constructor; assumption | constructor].
    + apply Forall_forall. intros c Hc.
      apply list_elem_of_In, in_flat_map in Hc as (o & Ho & Hc).
      pose proof (list_max_map_le height_opt_expr _ m ltac:(eassumption)) as Hk.
      rewrite Forall_forall in Hk. apply list_elem_of_In in Ho.
      specialize (Hk o Ho). apply Forall_opt_expr in Hk.
      rewrite Forall_forall in Hk. apply Hk. now apply list_elem_of_In.
    + destruct (kwarg a); cbn; [repeat constructor; assumption | constructor].
  - unfold height_arg. intros Hh. apply le_S_n in Hh. now apply Forall_opt_expr.
  - destruct k. cbn [height_keyword]. intros Hh. apply le_S_n in Hh.
    repeat constructor. assumption.
  - constructor.
  - unfold height_withitem. intros Hh. apply le_S_n in Hh. split_max.
    constructor; [assumption | now apply Forall_opt_expr].
Qed.

Lemma height_positive (n : ast_node) : (1 <= height n)%nat.
Proof.
  destruct n as [b|[]|[]|[]|o|a|a|[]|a|w];
    unfold height, height_arguments, height_arg, height_withitem;
    cbn [height_stmt height_expr height_handler height_keyword]; lia.
Qed.

Ltac child_cases :=
  repeat match goal with
  | H : In _ (_ ++ _) |- _ => apply in_app_or in H as [H | H]
  | H : In _ (_ :: _) |- _ => destruct H as [<- | H]
  | H : In _ [] |- _ => contradiction
  | H : In _ (map _ _) |- _ => apply in_map_iff in H as (? & <- & ?)
  | H : In _ (opt_expr ?o) |- _ => destruct o as [?|]; cbn [opt_expr] in H
  | H : In _ (from_option _ _ ?o) |- _ =>
      destruct o as [?|]; cbn [from_option] in H
  | H : In _ (flat_map _ _) |- _ => apply in_flat_map in H as (? & ? & ?)
  end.

Lemma walk_child_node (y : child) : walk (child_node y) = walk_child y.
Proof. now destruct y. Qed.

(** The nodes below a child are nodes below its parent. *)
Lemma walk_children (n c : ast_node) :
  In c (iter_child_nodes n) -> incl (walk c) (walk n).
Proof.
  intros Hc x Hx.
  destruct n as [b|st|e|h|o|a|a|k|a|w]; cbn [iter_child_nodes] in Hc.
  - child_cases. right. apply in_flat_map. eauto.
  - destruct st; child_cases; rewrite ?walk_child_node in Hx;
      cbn [walk walk_stmt walk_opt_expr] in *; right;
      rewrite ?in_app_iff, ?in_flat_map; eauto 12;
      destruct Hx as [<- | []]; now apply in_map.
  - destruct e; child_cases;
      cbn [walk walk_expr] in *; right; cbn [In];
      rewrite ?in_app_iff, ?in_flat_map; eauto 12;
      destruct Hx as [<- | []]; now left.
  - destruct h. child_cases; cbn [walk walk_handler walk_opt_expr] in *; right;
      rewrite ?in_app_iff, ?in_flat_map; eauto 12.
  - contradiction.
  - destruct a as [po ar va ko kd kw de].
    cbn [posonlyargs args vararg kwonlyargs kw_defaults kwarg defaults] in Hc.
    child_cases; cbn [walk] in *; unfold walk_arguments; right;
      cbn [posonlyargs args vararg kwonlyargs kw_defaults kwarg defaults];
      rewrite ?in_app_iff, ?in_flat_map;
      cbn [walk_opt_arg walk_opt_expr]; eauto 14.
  - destruct a as [nm an]. cbn [annotation] in Hc. child_cases.
    cbn [walk] in *. unfold walk_arg. right. exact Hx.
  - destruct k. child_cases. cbn [walk walk_keyword] in *. now right.
  - contradiction.
  - destruct w as [ce ov]. cbn [context_expr optional_vars] in Hc.
    child_cases; cbn [walk] in *; unfold walk_withitem; right;
      cbn [context_expr optional_vars];
      rewrite ?in_app_iff; cbn [walk_opt_expr]; auto.
Qed.

Lemma walk_self (n : ast_node) : In n (walk n).
Proof.
  destruct n as [b|[]|[]|[]|o|a|a|[]|a|w]; cbn; auto.
Qed.

Section Room.

Context `{PyLib}.

Lemma for_each_completes {A} (f : A -> Visit) (l : list A) :
  Forall (fun x => forall s, (f x s).2 = None) l ->
  forall s, (for_each f l s).2 = None.
Proof.
  induction 1 as [|x l Hx _ IH]; intros s; cbn [for_each]; [reflexivity |].
  specialize (Hx s). destruct (f x s) as [s1 [e|]]; [discriminate | apply IH].
Qed.

Lemma and_then_completes (m : Visit) (k : Extractor -> Extractor) s :
  (m s).2 = None -> (and_then m k s).2 = None.
Proof. unfold and_then. destruct (m s) as [s1 [e|]]; [discriminate | reflexivity]. Qed.

(** An assignment raises only when it prints a constant that cannot be
    printed for a name. *)
Lemma record_assign_completes lineno targets value s :
  assigns_printable (NStmt (Assign lineno targets value)) = true ->
  (record_assign lineno targets value s).2 = None.
Proof.
  intros Hp. unfold record_assign. cbv zeta.
  apply for_each_completes. apply Forall_forall. intros target Hin s0.
  destruct target; try reflexivity.
  destruct value; try reflexivity.
  cbn [assigns_printable] in Hp.
  assert (Hn : existsb is_Name targets = true).
  { apply existsb_exists. eexists.
    split; [apply list_elem_of_In; exact Hin | reflexivity]. }
  rewrite Hn in Hp. cbn [negb orb] in Hp. unfold printable in Hp.
  destruct (constant_str _); [reflexivity | discriminate].
Qed.

Lemma visit_completes depth :
  forall node s,
    (height node <= depth)%nat ->
    Forall (fun c => assigns_printable c = true) (walk node) ->
    (visit depth node s).2 = None.
Proof.
  induction depth as [|depth IH]; intros node s Hh Hq.
  - pose proof (height_positive node). lia.
  - rewrite visit_S. cbv zeta.
    assert (Hg : forall s0, (for_each (visit depth) (iter_child_nodes node) s0).2 = None).
    { apply for_each_completes.
      pose proof (height_children node depth Hh) as Hc.
      rewrite Forall_forall in Hc. apply Forall_forall. intros c Hin s0.
      apply IH; [now apply Hc |].
      rewrite Forall_forall in Hq. apply Forall_forall. intros x Hx.
      apply Hq. apply list_elem_of_In. apply (walk_children node c).
      - now apply list_elem_of_In.
      - now apply list_elem_of_In. }
    assert (Hself : assigns_printable node = true).
    { rewrite Forall_forall in Hq. apply Hq, list_elem_of_In, walk_self. }
    destruct node as [b|st|e|h|o|a|a|k|a|w]; try apply Hg.
    + destruct st; try apply Hg.
      * destruct (_record_function _ s) as [fn_id s1]. apply and_then_completes, Hg.
      * destruct (record_class _ s) as [class_id s1]. apply and_then_completes, Hg.
      * match goal with
        | |- context [record_assign ?l ?t ?v s] =>
            pose proof (record_assign_completes l t v s Hself) as Ha;
            destruct (record_assign l t v s) as [s1 [e|]]
        end; [discriminate | apply Hg].
    + destruct e; apply Hg.
Qed.

Lemma for_each_more_room {A} (f g : A -> Visit) (l : list A) :
  (forall x s r, f x s = (r, None) -> g x s = (r, None)) ->
  forall s r, for_each f l s = (r, None) -> for_each g l s = (r, None).
Proof.
  intros Hfg. induction l as [|x l IH]; intros s r; cbn [for_each]; [auto |].
  destruct (f x s) as [s1 [e|]] eqn:Ef; [discriminate |].
  rewrite (Hfg x s s1 Ef). apply IH.
Qed.

Lemma visit_more_room depth :
  forall node s r, visit depth node s = (r, None) ->
                   visit (S depth) node s = (r, None).
Proof.
  induction depth as [|depth IH]; intros node s r; [discriminate |].
  rewrite (visit_S (S depth)), (visit_S depth). cbv zeta.
  pose proof (fun n => for_each_more_room (visit depth) (visit (S depth))
                         (iter_child_nodes n) IH) as Hg.
  destruct node as [b|st|e|h|o|a|a|k|a|w]; try apply Hg.
  - destruct st; try apply Hg.
    + destruct (_record_function _ s) as [fn_id s1]. unfold and_then.
      destruct (for_each (visit depth) _ _) as [s2 [e|]] eqn:Ev; [discriminate |].
      rewrite (Hg _ _ _ Ev). auto.
    + destruct (record_class _ s) as [class_id s1]. unfold and_then.
      destruct (for_each (visit depth) _ _) as [s2 [e|]] eqn:Ev; [discriminate |].
      rewrite (Hg _ _ _ Ev). auto.
    + destruct (record_assign _ _ _ s) as [s1 [e|]]; [discriminate | apply Hg].
  - destruct e; apply Hg.
Qed.

Lemma for_each_raised {A} (P : Exception -> Prop) (f : A -> Visit)
  (l : list A) :
  (forall x s e, (f x s).2 = Some e -> P e) ->
  forall s e, (for_each f l s).2 = Some e -> P e.
Proof.
  intros Hf. induction l as [|x l IH]; intros s e; cbn [for_each];
    [discriminate |].
  destruct (f x s) as [s1 [e1|]] eqn:Ex; [| apply IH].
  intros [= <-]. apply (Hf x s). now rewrite Ex.
Qed.

Lemma constant_str_raised (c : constant) (e : Exception) :
  constant_str c = Raised e -> e = ValueError.
Proof.
  unfold constant_str, str_of_int. destruct c as [|[]|n|t|ty t]; try discriminate.
  destruct (_ <=? _)%nat; [discriminate |].
  now intros [= <-].
Qed.

Lemma record_assign_raised lineno targets value s e :
  (record_assign lineno targets value s).2 = Some e -> e = ValueError.
Proof.
  unfold record_assign. cbv zeta.
  apply (for_each_raised (fun e => e = ValueError)).
  intros target s0 e0. destruct target; try discriminate.
  destruct value as [| | |l c| | |]; try discriminate.
  destruct (constant_str c) as [text|e1] eqn:Ec; [discriminate |].
  intros [= <-]. now apply constant_str_raised in Ec.
Qed.

(** The exceptions that end a traversal. *)
Lemma visit_raised depth :
  forall node s e, (visit depth node s).2 = Some e ->
                   e = RecursionError \/ e = ValueError.
Proof.
  induction depth as [|depth IH]; intros node s e.
  - cbn. intros [= <-]. now left.
  - rewrite visit_S. cbv zeta.
    pose proof (fun n => for_each_raised
                  (fun e => e = RecursionError \/ e = ValueError)
                  (visit depth) (iter_child_nodes n) IH) as Hg.
    destruct node as [b|st|x|h|o|a|a|k|a|w]; try apply Hg.
    + destruct st; try apply Hg.
      * destruct (_record_function _ s) as [fn_id s1]. unfold and_then.
        destruct (for_each _ _ _) as [s2 [e2|]] eqn:Ev; [| discriminate].
        intros [= <-]. eapply Hg. rewrite Ev. reflexivity.
      * destruct (record_class _ s) as [class_id s1]. unfold and_then.
        destruct (for_each _ _ _) as [s2 [e2|]] eqn:Ev; [| discriminate].
        intros [= <-]. eapply Hg. rewrite Ev. reflexivity.
      * match goal with
        | |- context [record_assign ?l ?t ?v s] =>
            pose proof (record_assign_raised l t v s) as Ha;
            destruct (record_assign l t v s) as [s1 [e1|]]
        end; [| apply Hg].
        intros [= <-]. right. now apply Ha.
    + destruct x; apply Hg.
Qed.


End Room.

(** ** Parameters *)

Lemma positions_snoc params name type kind default :
  positions_in_order params ->
  positions_in_order (params ++ [mkParam name type kind default (len params)]).
Proof.
  unfold positions_in_order. intros Hp.
  rewrite map_app, Hp, length_app. cbn [length map p_position].
  rewrite Nat.add_1_r, seq_S, map_app. reflexivity.
Qed.

Section Parameters.

Context `{PyLib}.

Lemma keyword_only_fold (kwmap : list (string * option string))
  (l : list arg) (params : list Param) :
  let params' :=
    fold_left (fun params a =>
      params ++ [mkParam (arg_name a) (arg_type a) "keyword_only"
                   (mjoin (dict_get (arg_name a) kwmap)) (len params)])
      l params in
  (positions_in_order params -> positions_in_order params')
  /\ map name_kind params' = map name_kind params ++ map (of_kind "keyword_only") l.
Proof.
  revert params. induction l as [|a l IH]; intros params; cbn [fold_left map].
  - rewrite app_nil_r. auto.
  - destruct (IH (params ++ [mkParam (arg_name a) (arg_type a) "keyword_only"
                               (mjoin (dict_get (arg_name a) kwmap)) (len params)]))
      as [Hp Hn].
    cbv zeta in *. split.
    + intros Hok. apply Hp. now apply positions_snoc.
    + rewrite Hn, map_app, <- app_assoc. reflexivity.
Qed.

(** X21: the parameters recorded for a function are its positional parameters,
    then [*args], then the keyword-only parameters, then [**kwargs], each
    with that kind, and their positions count from zero in this order.
    Positional-only parameters (those before [/]) are not recorded. *)
Theorem parameters_in_order (node : arguments) :
  map name_kind (_extract_parameters node)
  = map (of_kind "positional") (args node)
    ++ map (of_kind "vararg") (option_list (vararg node))
    ++ map (of_kind "keyword_only") (kwonlyargs node)
    ++ map (of_kind "kwarg") (option_list (kwarg node))
  /\ map p_position (_extract_parameters node)
     = map Z.of_nat (seq 0 (length (_extract_parameters node))).
Proof.
  unfold _extract_parameters. cbv zeta.
  set (P1 := imap _ (args node)).
  assert (H1 : positions_in_order P1
               /\ map name_kind P1 = map (of_kind "positional") (args node)).
  { subst P1. split.
    - unfold positions_in_order.
      change (map p_position ?l) with (p_position <$> l).
      rewrite fmap_imap, length_imap.
      change (fun n : nat => p_position ∘ _) with (fun (n : nat) (_ : arg) => Z.of_nat n).
      apply (imap_seq_0 (args node) Z.of_nat).
    - change (map name_kind ?l) with (name_kind <$> l).
      rewrite fmap_imap.
      change (fun n : nat => name_kind ∘ _)
        with (fun _ : nat => of_kind "positional").
      apply (imap_const (of_kind "positional")). }
  clearbody P1. destruct H1 as [Hp1 Hn1].
  set (P2 := match vararg node with Some a => _ | None => P1 end).
  assert (H2 : positions_in_order P2
               /\ map name_kind P2
                  = map (of_kind "positional") (args node)
                    ++ map (of_kind "vararg") (option_list (vararg node))).
  { subst P2. destruct (vararg node) as [a|]; cbn [option_list map].
    - split; [now apply positions_snoc |]. now rewrite map_app, Hn1.
    - rewrite app_nil_r. auto. }
  clearbody P2. clear P1 Hp1 Hn1. destruct H2 as [Hp2 Hn2].
  match goal with
  | |- context [fold_left ?f (kwonlyargs node) P2] =>
      destruct (keyword_only_fold
                  (fold_left (fun d kd =>
                     match kd.2 with
                     | Some default => dict_set (arg_name kd.1) (_safe_unparse default) d
                     | None => d
                     end) (zip (kwonlyargs node) (kw_defaults node)) [])
                  (kwonlyargs node) P2) as [Hp3 Hn3];
      cbv zeta in Hp3, Hn3; set (P3 := fold_left f (kwonlyargs node) P2) in *
  end.
  specialize (Hp3 Hp2). rewrite Hn2, <- app_assoc in Hn3. clearbody P3.
  destruct (kwarg node) as [a|]; cbn [option_list map].
  - split; [| now apply positions_snoc].
    rewrite map_app, Hn3, <- !app_assoc. reflexivity.
  - rewrite app_nil_r. split; [exact Hn3 | exact Hp3].
Qed.

End Parameters.

Section Defaults.

Context `{PyLib}.

Lemma extract_parameters_positional (node : arguments) :
  exists rest,
    _extract_parameters node
    = imap (fun i a =>
        let i := Z.of_nat i in
        let default :=
          if len (args node) - len (defaults node) <=? i
          then (defaults node
                  !! Z.to_nat (i - (len (args node) - len (defaults node))))
               ≫= _safe_unparse
          else None in
        mkParam (arg_name a) (arg_type a) "positional" default i) (args node)
      ++ rest.
Proof.
  unfold _extract_parameters. cbv zeta.
  set (P1 := imap _ (args node)).
  assert (Hfold : forall (g : arg -> Z -> Param) l p0,
            exists rest, fold_left (fun params a => params ++ [g a (len params)]) l p0
                         = p0 ++ rest).
  { intros g l. induction l as [|a l IH]; intros p0; cbn [fold_left].
    - exists []. now rewrite app_nil_r.
    - destruct (IH (p0 ++ [g a (len p0)])) as (rest & ->).
      rewrite <- app_assoc. eauto. }
  set (kwmap := fold_left _ (zip (kwonlyargs node) (kw_defaults node)) []).
  pose proof (Hfold (fun a pos => mkParam (arg_name a) (arg_type a) "keyword_only"
                       (mjoin (dict_get (arg_name a) kwmap)) pos)
                (kwonlyargs node)) as Hk.
  destruct (vararg node) as [va|].
  - destruct (Hk (P1 ++ [mkParam (arg_name va) (arg_type va) "vararg" None (len P1)]))
      as (rest & ->).
    destruct (kwarg node); rewrite <- ?app_assoc; eauto.
  - destruct (Hk P1) as (rest & ->).
    destruct (kwarg node); rewrite <- ?app_assoc; eauto.
Qed.

(** X22: defaults go to the last positional parameters.  Of the positional
    parameters the last ones, as many as there are defaults, carry the
    defaults in order and the others carry none; when the defaults outnumber
    them (positional-only parameters with defaults come first) the surplus
    at the front is dropped.  The index into the defaults is never out of
    range. *)
Theorem defaults_align_right (node : arguments) :
  map p_default (firstn (length (args node)) (_extract_parameters node))
  = replicate (length (args node) - length (defaults node)) None
    ++ map _safe_unparse
         (skipn (length (defaults node) - length (args node)) (defaults node)).
Proof.
  destruct (extract_parameters_positional node) as (rest & ->).
  rewrite firstn_app, length_imap, Nat.sub_diag, firstn_O, app_nil_r.
  rewrite firstn_all2 by (rewrite length_imap; lia).
  change (map p_default ?l) with (p_default <$> l). rewrite fmap_imap.
  apply list_eq. intros i. rewrite list_lookup_imap.
  set (n := length (args node)). set (m := length (defaults node)).
  destruct (args node !! i) as [a|] eqn:Ea.
  - assert (Hi : (i < n)%nat) by (apply lookup_lt_Some in Ea; exact Ea).
    cbn [fmap option_fmap option_map compose p_default]. unfold len. fold n m.
    destruct (Z.of_nat n - Z.of_nat m <=? Z.of_nat i) eqn:Eo.
    + apply Z.leb_le in Eo.
      destruct (Nat.le_gt_cases m n) as [Hmn | Hmn].
      * rewrite lookup_app_r by (rewrite length_replicate; lia).
        rewrite length_replicate.
        replace (m - n)%nat with 0%nat by lia. rewrite skipn_O.
        change (map _safe_unparse ?l) with (_safe_unparse <$> l).
        rewrite list_lookup_fmap.
        replace (Z.to_nat (Z.of_nat i - (Z.of_nat n - Z.of_nat m)))
          with (i - (n - m))%nat by lia.
        destruct (defaults node !! (i - (n - m))%nat) as [dv|] eqn:Ed;
          [reflexivity |].
        apply lookup_ge_None in Ed. fold m in Ed. lia.
      * replace (n - m)%nat with 0%nat by lia. cbn [replicate app].
        change (map _safe_unparse ?l) with (_safe_unparse <$> l).
        rewrite list_lookup_fmap, lookup_drop.
        replace (Z.to_nat (Z.of_nat i - (Z.of_nat n - Z.of_nat m)))
          with (m - n + i)%nat by lia.
        destruct (defaults node !! (m - n + i)%nat) as [dv|] eqn:Ed;
          [reflexivity |].
        apply lookup_ge_None in Ed. fold m in Ed. lia.
    + apply Z.leb_gt in Eo.
      rewrite lookup_app_l by (rewrite length_replicate; lia).
      rewrite lookup_replicate_2 by lia. reflexivity.
  - cbn [fmap option_fmap option_map]. symmetry. apply lookup_ge_None.
    apply lookup_ge_None in Ea. fold n in Ea.
    rewrite length_app, length_replicate, length_map, length_skipn. fold m. lia.
Qed.

End Defaults.

(** ** The form of an identifier *)

Lemma length_append (s t : string) :
  String.length (s +:+ t) = (String.length s + String.length t)%nat.
Proof.
  induction s as [|a s IH]; [now rewrite append_empty_l |].
  rewrite append_String. cbn [String.length]. now rewrite IH.
Qed.

Lemma chars_append (s t : string) :
  list_ascii_of_string (s +:+ t) = list_ascii_of_string s ++ list_ascii_of_string t.
Proof.
  induction s as [|a s IH]; [now rewrite append_empty_l |].
  rewrite append_String. cbn [list_ascii_of_string app]. now rewrite IH.
Qed.

Lemma hex_digit_is_hex x : 0 <= x < 16 -> is_hex_digit (Sha1.hex_digit x) = true.
Proof.
  intros Hx.
  assert (Hc : x = 0 \/ x = 1 \/ x = 2 \/ x = 3 \/ x = 4 \/ x = 5 \/ x = 6 \/ x = 7
               \/ x = 8 \/ x = 9 \/ x = 10 \/ x = 11 \/ x = 12 \/ x = 13
               \/ x = 14 \/ x = 15) by lia.
  repeat (destruct Hc as [-> | Hc]; [vm_compute; reflexivity |]).
  subst x. vm_compute. reflexivity.
Qed.

Lemma hex_spec n x :
  String.length (Sha1.hex n x) = n
  /\ forallb is_hex_digit (list_ascii_of_string (Sha1.hex n x)) = true.
Proof.
  revert x. induction n as [|n IH]; intros x; cbn [Sha1.hex]; [split; reflexivity |].
  destruct (IH (Z.shiftr x 4)) as [Hl Hd].
  rewrite length_append, chars_append, forallb_app, Hl, Hd.
  cbn [String.length list_ascii_of_string forallb andb].
  split; [lia |]. rewrite hex_digit_is_hex; [reflexivity |].
  change 15 with (Z.ones 4). rewrite Z.land_ones by lia.
  apply Z.mod_pos_bound. reflexivity.
Qed.

(** X23: every digest, and so every identifier made by [stable_id], is a
    string of forty lowercase hexadecimal digits. *)
Theorem identifiers_are_forty_hex_digits (s : string) (parts : list string) :
  String.length (sha1_hex s) = 40%nat
  /\ forallb is_hex_digit (list_ascii_of_string (sha1_hex s)) = true
  /\ String.length (stable_id parts) = 40%nat
  /\ forallb is_hex_digit (list_ascii_of_string (stable_id parts)) = true.
Proof.
  assert (Hh : forall t, String.length (sha1_hex t) = 40%nat
               /\ forallb is_hex_digit (list_ascii_of_string (sha1_hex t)) = true).
  { intros t. unfold sha1_hex, Sha1.hexdigest.
    destruct (Sha1.digest _) as [a b c d e].
    rewrite !length_append, !chars_append, !forallb_app.
    destruct (hex_spec 8 a) as [-> ->], (hex_spec 8 b) as [-> ->],
             (hex_spec 8 c) as [-> ->], (hex_spec 8 d) as [-> ->],
             (hex_spec 8 e) as [-> ->].
    split; reflexivity. }
  unfold stable_id.
  destruct (Hh s) as [H1 H2], (Hh (join "::" parts)) as [H3 H4]. auto.
Qed.

(** ** Dotted names *)

Lemma full_name_parts_chain lineno base attrs :
  full_name_parts (attribute_chain lineno base attrs)
  = rev attrs ++ full_name_parts base.
Proof.
  revert base. induction attrs as [|a attrs IH]; intros base; [reflexivity |].
  cbn [attribute_chain rev]. rewrite IH. cbn [full_name_parts].
  now rewrite <- app_assoc.
Qed.

(** X24: [_get_full_name] gives the dotted name of an attribute chain on a
    name, [base.a1...an].  When the chain hangs on anything else, a call
    or a subscript for example, that root is dropped without notice and
    only [a1...an] is returned. *)
Theorem dotted_name_of_attribute_chain (lineno l0 : Z) (id : string)
  (base : expr) (attrs : list string) :
  _get_full_name (attribute_chain lineno (Name l0 id) attrs)
    = join "." (id :: attrs)
  /\ (is_name_or_attribute base = false ->
      _get_full_name (attribute_chain lineno base attrs) = join "." attrs).
Proof.
  unfold _get_full_name. rewrite !full_name_parts_chain. split.
  - cbn [full_name_parts]. rewrite rev_app_distr, rev_involutive. reflexivity.
  - intros Hb. destruct base; try discriminate Hb;
      cbn [full_name_parts]; now rewrite app_nil_r, rev_involutive.
Qed.

(** ** Standard-library test *)

Lemma split_head_append m rest :
  has_char "." m = false -> split_head "." (m +:+ "." +:+ rest) = m.
Proof.
  induction m as [|a m IH]; intros Hm.
  - rewrite append_empty_l, append_String. reflexivity.
  - rewrite append_String. cbn [has_char split_head] in *.
    destruct (Ascii.eqb a "."); [discriminate |]. now rewrite IH.
Qed.

Lemma split_head_whole m : has_char "." m = false -> split_head "." m = m.
Proof.
  induction m as [|a m IH]; intros Hm; [reflexivity |].
  cbn [has_char split_head] in *.
  destruct (Ascii.eqb a "."); [discriminate |]. now rewrite IH.
Qed.

(** X25: whether a module counts as standard library is decided by its first
    dotted component alone: a submodule of a listed module counts, whatever
    follows the first dot. *)
Theorem stdlib_by_first_component (m rest : string)
  (Hm : has_char "." m = false) :
  _is_stdlib (m +:+ "." +:+ rest) = _is_stdlib m
  /\ _is_stdlib m = existsb (String.eqb m) stdlib_modules.
Proof.
  unfold _is_stdlib. now rewrite split_head_append, split_head_whole.
Qed.

(** ** Bounds on stored text *)

Lemma str_len_take_chars n s : (str_len (take_chars n s) <= n)%nat.
Proof.
  revert n. induction s as [|a s IH]; intros n; cbn [take_chars str_len];
    [lia |].
  destruct (is_continuation a) eqn:Ea.
  - cbn [str_len]. rewrite Ea. apply IH.
  - destruct n as [|n]; cbn [str_len]; [lia |]. rewrite Ea.
    specialize (IH n). lia.
Qed.

(** A slice has at most as many characters as asked for. *)
Lemma length_str_take n s : (str_len (str_take n s) <= n)%nat.
Proof.
  unfold str_take. destruct n as [|n]; [cbn; lia |]. apply str_len_take_chars.
Qed.

Lemma prefix_take_chars n s : String.prefix (take_chars n s) s = true.
Proof.
  revert n. induction s as [|a s IH]; intros n; cbn [take_chars];
    [reflexivity |].
  destruct (is_continuation a).
  - cbn [String.prefix]. destruct (ascii_dec a a); [apply IH | congruence].
  - destruct n as [|n]; [reflexivity |].
    cbn [String.prefix]. destruct (ascii_dec a a); [apply IH | congruence].
Qed.

(** A slice is the beginning of the text. *)
Lemma prefix_str_take n s : String.prefix (str_take n s) s = true.
Proof.
  unfold str_take. destruct n as [|n]; [now destruct s | apply prefix_take_chars].
Qed.

Lemma prefix_refl s : String.prefix s s = true.
Proof.
  induction s as [|a s IH]; [reflexivity |].
  cbn [String.prefix]. destruct (ascii_dec a a); [exact IH | congruence].
Qed.

Lemma Forall_firstn_skipn {A} (P : A -> Prop) (l : list A) n m :
  Forall P l -> Forall P (firstn n (skipn m l)).
Proof.
  intros Hl. apply Forall_forall. intros x Hx. rewrite Forall_forall in Hl. apply Hl.
  apply (subseteq_drop m l), (subseteq_take n (skipn m l)), Hx.
Qed.

Section Bounds.

Context `{PyLib}.

(** X26: the texts stored with a record are bounded.  A snippet has at most
    ten lines of the source, followed by the line [...] when lines were left
    out, and the record keeps its beginning, 500 characters at most and the
    whole snippet when it is no longer; the text of an unparsed expression
    is the beginning of what [ast.unparse] gives, 200 characters at most.
    Characters are counted, not bytes.  Line numbers outside the source
    give a shorter or empty snippet, not an error. *)
Theorem stored_texts_are_bounded (lineno end_lineno : Z) (self : Extractor)
  (e : expr) :
  (exists ls,
     _get_source_snippet lineno end_lineno self = join newline ls
     /\ (length ls <= 11)%nat
     /\ Forall (fun x => x ∈ splitlines (src self)) (firstn 10 ls)
     /\ (length ls = 11%nat -> ls !! 10%nat = Some "..."))
  /\ (let snippet := _get_source_snippet lineno end_lineno self in
      (str_len (clip_snippet snippet) <= 500)%nat
      /\ String.prefix (clip_snippet snippet) snippet = true
      /\ ((str_len snippet <= 500)%nat -> clip_snippet snippet = snippet))
  /\ (forall text,
        _safe_unparse e = Some text ->
        (str_len text <= 200)%nat
        /\ exists full, unparse e = Some full
                        /\ String.prefix text full = true).
Proof.
  split; [| split].
  - unfold _get_source_snippet. cbv zeta.
    set (window := firstn _ (skipn _ (splitlines (src self)))).
    assert (Hw : Forall (fun x => x ∈ splitlines (src self)) window).
    { subst window. apply Forall_firstn_skipn, Forall_forall. auto. }
    clearbody window.
    destruct (10 <? length window)%nat eqn:E.
    + apply Nat.ltb_lt in E.
      exists (firstn 10 window ++ ["..."]). split; [reflexivity |].
      assert (Hl : length (firstn 10 window) = 10%nat) by (rewrite length_firstn; lia).
      split; [rewrite length_app, Hl; cbn; lia |]. split.
      * rewrite firstn_app, Hl, Nat.sub_diag, firstn_O, app_nil_r, firstn_firstn.
        replace (Nat.min 10 10) with 10%nat by reflexivity.
        apply Forall_forall. intros x Hx. rewrite Forall_forall in Hw. apply Hw.
        apply (subseteq_take 10 window), Hx.
      * intros _. rewrite lookup_app_r by lia. rewrite Hl. reflexivity.
    + apply Nat.ltb_ge in E. exists window. split; [reflexivity |].
      split; [lia |]. split; [| lia].
      apply Forall_forall. intros x Hx. rewrite Forall_forall in Hw. apply Hw.
      apply (subseteq_take 10 window), Hx.
  - cbv zeta. unfold clip_snippet.
    destruct (500 <? str_len _)%nat eqn:E.
    + apply Nat.ltb_lt in E. split; [apply length_str_take |].
      split; [apply prefix_str_take | lia].
    + apply Nat.ltb_ge in E. split; [exact E |].
      split; [apply prefix_refl | reflexivity].
  - unfold _safe_unparse. intros text Ht.
    destruct (unparse e) as [t|]; [| discriminate].
    injection Ht as <-. split; [apply (length_str_take 200) |].
    exists t. split; [reflexivity | apply (prefix_str_take 200)].
Qed.

End Bounds.

(** ** The theorems at concrete inputs *)

Lemma statistics_count_the_records_witness :
  exists ns es st,
    extract_file (H := plain_lib) 100 ["repo"] class_unit = Returned (ns, es, st)
    /\ map (fun c => stat c.1.1 st) counters = [0; 1; 2; 0; 0; 0; 1]
    /\ stats_agree ns es st.
Proof.
  do 3 eexists. split; [vm_compute; reflexivity |].
  split; [vm_compute; reflexivity |].
  eapply (statistics_count_the_records (H := plain_lib) 100 ["repo"] class_unit).
  vm_compute. reflexivity.
Defined.

(** A traversal that faults: the records kept are typed all the same. *)
Lemma extracted_records_are_typed_witness :
  exists ns es st,
    extract_file (H := plain_lib) 4 ["repo"] nested_call_unit
      = Returned (ns, es, st)
    /\ map (str_field "type") ns = [Some "File"; Some "Function"]
    /\ forallb node_record ns = true /\ forallb edge_record es = true.
Proof.
  do 3 eexists. split; [vm_compute; reflexivity |].
  split; [vm_compute; reflexivity |].
  eapply (extracted_records_are_typed (H := plain_lib) 4 ["repo"] nested_call_unit).
  vm_compute. reflexivity.
Defined.

Lemma file_node_comes_first_witness :
  exists ns es st file_node rest,
    extract_file (H := plain_lib) 100 ["repo"] class_unit = Returned (ns, es, st)
    /\ ns = file_node :: rest
    /\ has_type "File" file_node = true
    /\ str_field "id" file_node = Some (path_id ["repo"; "pkg"; "shapes.py"])
    /\ Forall (fun n => has_type "File" n = false) rest.
Proof.
  destruct (extract_file (H := plain_lib) 100 ["repo"] class_unit)
    as [[[ns es] st]|e] eqn:Hex; [| vm_compute in Hex; discriminate Hex].
  assert (Hne : ns <> []).
  { intros ->. vm_compute in Hex. discriminate Hex. }
  destruct (file_node_comes_first (H := plain_lib) 100 ["repo"] class_unit
              ns es st Hex Hne) as (file_node & rest & Hns & Ht & Hid & Hrest).
  exists ns, es, st, file_node, rest. auto.
Defined.


Lemma analysis_accounts_for_every_file_witness :
  exists o' stats,
    analyze_repository (H := plain_lib) partly_readable_world 100 ["repo"]
      no_output [] false = Returned (true, o')
    /\ stats_json o' = Some stats
    /\ dict_get "total_files" stats = Some (VInt 5)
    /\ dict_get "files_with_errors" stats = Some (VInt 1)
    /\ dict_get "files_processed" stats = Some (VInt 4).
Proof.
  destruct (analyze_repository (H := plain_lib) partly_readable_world 100 ["repo"]
              no_output [] false) as [[ok o']|e] eqn:Hrun;
    [| vm_compute in Hrun; discriminate Hrun].
  assert (Hok : ok = true).
  { pose proof Hrun as Hc. vm_compute in Hc. now injection Hc as <- _. }
  subst ok.
  destruct (analysis_accounts_for_every_file (H := plain_lib)
              partly_readable_world 100 ["repo"] no_output [] false o'
              eq_refl Hrun)
    as (stats & Hst & H1 & H2 & H3).
  exists o', stats. split; [reflexivity |]. split; [exact Hst |].
  split; [rewrite H1; vm_compute; reflexivity |].
  split; [rewrite H2; vm_compute; reflexivity |].
  rewrite H3. vm_compute. reflexivity.
Defined.

Lemma analysis_totals_count_the_records_witness :
  exists o' stats,
    analyze_repository (H := plain_lib) partly_readable_world 100 ["repo"]
      no_output [] false = Returned (true, o')
    /\ stats_json o' = Some stats
    /\ dict_get "total_variables" stats = Some (VInt 4)
    /\ dict_get "total_functions" stats = Some (VInt 0)
    /\ dict_get "total_directories" stats = Some (VInt 4).
Proof.
  destruct (analyze_repository (H := plain_lib) partly_readable_world 100 ["repo"]
              no_output [] false) as [[ok o']|e] eqn:Hrun;
    [| vm_compute in Hrun; discriminate Hrun].
  assert (Hok : ok = true).
  { pose proof Hrun as Hc. vm_compute in Hc. now injection Hc as <- _. }
  subst ok.
  destruct (analysis_totals_count_the_records (H := plain_lib)
              partly_readable_world 100 ["repo"] no_output [] false o'
              eq_refl Hrun)
    as (stats & ns & es & Hst & _ & _ & -> & -> & Hc & Hd).
  exists o', stats. split; [reflexivity |]. split; [exact Hst |].
  split; [| split].
  + change "total_variables" with (total_key ("variables", "Variable", false)).
    rewrite Hc by (cbn; tauto). vm_compute. reflexivity.
  + change "total_functions" with (total_key ("functions", "Function", false)).
    rewrite Hc by (cbn; tauto). vm_compute. reflexivity.
  + rewrite Hd. vm_compute. reflexivity.
Defined.

Lemma analysis_without_python_files_witness :
  exists ns es,
    analyze_repository (H := plain_lib) docs_world 100 ["repo"] no_output [] false
      = Returned (false, mkOutput (Some ns) (Some es) None)
    /\ map (str_field "type") ns = [Some "Repository"; Some "Directory"]
    /\ map (str_field "type") es = [Some "CONTAINS"].
Proof.
  do 2 eexists. split.
  - rewrite (analysis_without_python_files (H := plain_lib) docs_world 100
               ["repo"] no_output [] false);
      [| reflexivity | reflexivity | vm_compute; reflexivity
       | vm_compute; reflexivity].
    cbv zeta. unfold kept, kept_stats. cbn [orb both_exist no_output nodes_jsonl
      edges_jsonl stats_json bool_decide andb app].
    reflexivity.
  - split; vm_compute; reflexivity.
Defined.

Lemma batches_cover_the_list_witness :
  exists bs,
    batches 2 [1; 2; 3; 4; 5] = Returned bs
    /\ bs = [[1; 2]; [3; 4]; [5]]
    /\ concat bs = [1; 2; 3; 4; 5]
    /\ Forall (fun b => 0 < len b <= 2) bs
    /\ len bs = 3.
Proof.
  destruct (batches_cover_the_list 2 [1; 2; 3; 4; 5]) as (bs & Hb & Hc & Hf & Hl);
    [lia |].
  exists bs. split; [exact Hb |].
  split; [vm_compute in Hb; now injection Hb as <- |].
  split; [exact Hc |]. split; [exact Hf |]. rewrite Hl. reflexivity.
Defined.

Lemma record_without_type_raises_witness :
  batch_insert_nodes (H := plain_lib) (H0 := always_raising)
    (numbered_nodes 2 ++ untyped_node :: numbered_nodes 1) 1000 []
  = Raised KeyError.
Proof.
  apply (record_without_type_raises (H := plain_lib) (H0 := always_raising)
           (numbered_nodes 2) (numbered_nodes 1) untyped_node 1000 []).
  - repeat constructor; eexists; reflexivity.
  - reflexivity.
Defined.

Lemma batch_size_not_positive_witness :
  batch_insert_nodes (H := plain_lib) (H0 := always_raising)
    (numbered_nodes 3) (-1) [] = Returned ([], 0)
  /\ batch_insert_nodes (H := plain_lib) (H0 := always_raising)
       (numbered_nodes 3) 0 [] = Raised ValueError.
Proof.
  assert (Ht : Forall typed (numbered_nodes 3))
    by (repeat constructor; eexists; reflexivity).
  destruct (batch_size_not_positive (H := plain_lib) (H0 := always_raising)
              (numbered_nodes 3) (-1) [] Ht) as [Hneg _].
  destruct (batch_size_not_positive (H := plain_lib) (H0 := always_raising)
              (numbered_nodes 3) 0 [] Ht) as [_ Hzero].
  split; [apply Hneg; lia |]. apply Hzero; [reflexivity |].
  eexists _, "File". split; [apply list_elem_of_here |].
  split; [reflexivity |]. apply list_elem_of_In. cbn. tauto.
Defined.

Lemma analysis_output_is_loaded_witness :
  exists o' ns es d1 r,
    analyze_repository (H := plain_lib) partly_readable_world 100 ["repo"]
      no_output [] true = Returned (true, o')
    /\ nodes_jsonl o' = Some ns /\ edges_jsonl o' = Some es
    /\ len ns = 13
    /\ batch_insert_nodes (H := plain_lib)
         (H0 := checking_session accept_all accept_all) ns 1000 empty_db
       = Returned (d1, len ns)
    /\ batch_insert_edges (H := plain_lib)
         (H0 := checking_session accept_all accept_all) es 1000 d1
       = Returned r
    /\ skipped_external r = 0.
Proof.
  destruct (analyze_repository (H := plain_lib) partly_readable_world 100 ["repo"]
              no_output [] true) as [[ok o']|e] eqn:Hrun;
    [| vm_compute in Hrun; discriminate Hrun].
  assert (Hok : ok = true).
  { pose proof Hrun as Hc. vm_compute in Hc. now injection Hc as <- _. }
  subst ok.
  destruct (analysis_output_is_loaded (H := plain_lib) partly_readable_world 100
              ["repo"] no_output [] o' 1000 empty_db Hrun)
    as (ns & es & d1 & r & Hn & He & Hins & _ & Hed & Hsk); [lia |].
  exists o', ns, es, d1, r. split; [reflexivity |].
  split; [exact Hn |]. split; [exact He |].
  pose proof Hrun as Hc. vm_compute in Hc. injection Hc as <-.
  cbn [nodes_jsonl edges_jsonl] in Hn, He. injection Hn as <-. injection He as <-.
  split; [vm_compute; reflexivity |]. split; [exact Hins |]. split; [exact Hed |].
  rewrite Hsk. vm_compute. reflexivity.
Defined.

(** The traversal of [class_unit]: a class, and a class with a method. *)
Lemma completed_visit_restores_context_witness :
  exists tree start s',
    unit_tree class_unit = Returned tree
    /\ first_state ["repo"] (unit_path class_unit) "class A: pass"
       = Returned start
    /\ visit (H := plain_lib) 100 (NModule tree) start = (s', None)
    /\ len (nodes s') = 6
    /\ current_scope_stack s' = current_scope_stack start
    /\ current_function s' = None
    /\ current_class s' = None.
Proof.
  eexists _, _. 
  destruct (visit (H := plain_lib) 100
              (NModule match unit_tree class_unit with
                       | Returned t => t | Raised _ => [] end)
              match first_state ["repo"] (unit_path class_unit) "class A: pass"
              with
              | Returned s => s
              | Raised _ =>
                  mkExtractor [] [] "" [] [] [] None None ∅ ∅ ∅ [] ""
              end)
    as [s' e] eqn:Hv.
  assert (He : e = None).
  { pose proof Hv as Hc. vm_compute in Hc. now injection Hc as _ <-. }
  subst e.
  destruct (completed_visit_restores_context (H := plain_lib) _ _ _ _ Hv)
    as (Hs & Hf & Hc).
  exists s'. split; [reflexivity |]. split; [vm_compute; reflexivity |].
  split; [exact Hv |].
  split; [pose proof Hv as Hn; vm_compute in Hn; injection Hn as <-;
          vm_compute; reflexivity |].
  split; [exact Hs |]. split; [rewrite Hf | rewrite Hc]; reflexivity.
Defined.


Lemma stdlib_by_first_component_witness :
  _is_stdlib "os.path" = _is_stdlib "os" /\ _is_stdlib "os" = true.
Proof.
  destruct (stdlib_by_first_component "os" "path" eq_refl) as [H1 H2].
  split; [exact H1 |]. rewrite H2. reflexivity.
Defined.

